(** * SprintSync: session protocol, race state machine and gate controller

    A shallow embedding of the timing core of SprintSync:

    - [PeerService]   : src/lib/usePeerService.tsx (context provider version)
    - [HostView]      : src/components/HostView.tsx (race state machine)
    - [LegacyPeer]    : lib/usePeerService.ts (hook version used by the gate)
    - [MotionService] : lib/useMotionService.ts
    - [GateView]      : components/GateView.tsx (gate role controller)
    - [HostDisplay]   : the displayed time of HostView.tsx and
                        calculateRaceDuration of lib/useSupabaseService.ts
    - [Provider]      : connectToHost and destroy of the provider
    - [GateViewNext]  : GateView.tsx in the version that uses the provider
    - [Home]          : app/page.tsx (the keypad for the session code)
    - [Throttle], [Debounce], [EventEmitter], [Guards] : utils/types.ts

    React state is modelled by explicit state passing.  A callback reads the
    values of the render it was created in and queues its updates; none of
    the callbacks modelled here reads a state variable after writing it, so
    reading and writing one record gives the same result.  Refs
    ([peersRef], [hostConnectionRef], [previousFrameRef]) are plain fields.
    In the host and in [GateViewNext] a [useEffect] body is modelled as the
    reaction to the event it listens for (a message arriving); re-execution
    of an effect because another dependency changed identity is not
    modelled there.  In [GateView] the message effect and the motion effect
    are re-run after every render, as their dependency arrays make them,
    until a render changes nothing; the detector loop is the one
    [startCamera] started, which was created in the first render.  The
    effect that initialises the peer and the effect that starts the camera
    are not modelled: a gate is taken with its camera running and its
    connection in the state the events give it.
    [conn.send] appends to a log of sent messages, [Date.now()] reads a
    clock oracle, [setInterval]/[clearInterval] act on a table of live
    interval timers. *)

From stdpp Require Import base option list strings gmap pretty.
From Stdlib Require Import ZArith Lia.

Local Open Scope Z_scope.

(** ** Wire data (PeerData of usePeerService) *)

(** The values a role takes at run time.  [START] and [FINISH] are the
    members of the enum [GateRole] of [@/types] ([START = 'START'],
    [FINISH = 'FINISH']; the type definitions are the second document of
    PWA-GUIDE.md), and [NONE] is the string ['NONE'] of [GateRole | 'NONE'].
    [undefined] is what reading the role of a payload without one gives.
    It is also the value of the expression [GateRole.SPLIT], which
    HostView.tsx uses (lines 77, 273 and 315) although the enum has no
    member of that name. *)
Inductive Role := NONE | START | FINISH | undefined.

(** [GateRole.SPLIT] *)
Definition SPLIT : Role := undefined.

#[global] Instance Role_eq_dec : EqDecision Role.
Proof. solve_decision. Defined.

Inductive MessageType := JOIN | ROLE_ASSIGN | STATE_CHANGE | TRIGGER | RESET.

#[global] Instance MessageType_eq_dec : EqDecision MessageType.
Proof. solve_decision. Defined.

(** [payload?: { name?, role?, state?, timestamp?, raceId? }] *)
Record Payload := mkPayload {
  pl_name : option string;
  pl_role : option Role;
  pl_state : option string;
  pl_timestamp : option Z;
  pl_raceId : option string
}.

Record PeerData := mkPeerData {
  type : MessageType;
  payload : option Payload
}.

#[global] Instance Payload_eq_dec : EqDecision Payload.
Proof. solve_decision. Defined.

#[global] Instance PeerData_eq_dec : EqDecision PeerData.
Proof. solve_decision. Defined.

(** A data connection: the id of the remote peer ([conn.peer]) and the
    identity of the connection object. *)
Record Conn := mkConn {
  peer : string;
  chan : nat
}.

#[global] Instance Conn_eq_dec : EqDecision Conn.
Proof. solve_decision. Defined.

#[global] Instance Conn_countable : Countable Conn.
Proof.
  refine (inj_countable' (fun c => (peer c, chan c))
                         (fun pc => mkConn (fst pc) (snd pc)) _).
  intros []; reflexivity.
Defined.

(** The messages the code builds. *)
Definition msgJoin (deviceName : string) : PeerData :=
  mkPeerData JOIN (Some (mkPayload (Some deviceName) None None None None)).

Definition msgRoleAssign (role : Role) : PeerData :=
  mkPeerData ROLE_ASSIGN (Some (mkPayload None (Some role) None None None)).

Definition msgStateChange (state : string) (raceId : option string) : PeerData :=
  mkPeerData STATE_CHANGE (Some (mkPayload None None (Some state) None raceId)).

Definition msgReset : PeerData := mkPeerData RESET None.

Definition msgTrigger (role : Role) (timestamp : Z) (raceId : option string) : PeerData :=
  mkPeerData TRIGGER (Some (mkPayload None (Some role) None (Some timestamp) raceId)).

(** JavaScript truthiness of an optional number: defined and not 0. *)
Definition truthyNum (n : option Z) : bool :=
  match n with
  | Some t => negb (t =? 0)
  | None => false
  end.

(** A role in a condition: the strings are truthy, [undefined] is not. *)
Definition truthyRole (r : Role) : bool := negb (bool_decide (r = undefined)).

(** [payload.role]: a payload without the property reads as [undefined]. *)
Definition roleOf (role : option Role) : Role := default undefined role.

(** ** usePeerService.tsx *)

Module PeerService.

Record ConnectedPeer := mkPeer {
  id : string;
  conn : Conn;
  role : Role;
  name : option string
}.

Record t := mk {
  hostConnectionRef : option Conn;
  peersRef : list ConnectedPeer;
  peers : list ConnectedPeer;
  latestMessage : option PeerData;
  triggerEvents : list (Role * option Z);
  wire : list (Conn * PeerData)
}.

Definition init : t := mk None [] [] None [] [].

Definition set_hostConnectionRef (v : option Conn) (s : t) : t :=
  mk v (peersRef s) (peers s) (latestMessage s) (triggerEvents s) (wire s).
Definition set_peersRef (v : list ConnectedPeer) (s : t) : t :=
  mk (hostConnectionRef s) v (peers s) (latestMessage s) (triggerEvents s) (wire s).
Definition setPeers (v : list ConnectedPeer) (s : t) : t :=
  mk (hostConnectionRef s) (peersRef s) v (latestMessage s) (triggerEvents s) (wire s).
Definition setLatestMessage (v : option PeerData) (s : t) : t :=
  mk (hostConnectionRef s) (peersRef s) (peers s) v (triggerEvents s) (wire s).
Definition setTriggerEvents (v : list (Role * option Z)) (s : t) : t :=
  mk (hostConnectionRef s) (peersRef s) (peers s) (latestMessage s) v (wire s).

(** [conn.send(data)] *)
Definition send (c : Conn) (data : PeerData) (s : t) : t :=
  mk (hostConnectionRef s) (peersRef s) (peers s) (latestMessage s)
     (triggerEvents s) (wire s ++ [(c, data)]).

Definition withRole (r : Role) (p : ConnectedPeer) : ConnectedPeer :=
  mkPeer (id p) (conn p) r (name p).

Definition withName (n : string) (p : ConnectedPeer) : ConnectedPeer :=
  mkPeer (id p) (conn p) (role p) (Some n).

Definition handleMessage (data : PeerData) (senderId : string) (s : t) : t :=
  let s1 := setLatestMessage (Some data) s in
  match type data, payload data with
  | TRIGGER, Some pl =>
      match pl_role pl with
      | Some r =>
          if truthyRole r && truthyNum (pl_timestamp pl)
          then setTriggerEvents (triggerEvents s1 ++ [(r, pl_timestamp pl)]) s1
          else s1
      | None => s1
      end
  | _, _ => s1
  end.

Definition sendToHostInternal (data : PeerData) (s : t) : t :=
  match hostConnectionRef s with
  | Some c => send c data s
  | None => s
  end.

(** handleIncomingConnection, host mode: the four connection callbacks. *)
Definition onOpen (c : Conn) (s : t) : t :=
  let newPeer := mkPeer (peer c) c NONE (Some "Unknown"%string) in
  let s1 := set_peersRef (peersRef s ++ [newPeer]) s in
  setPeers (peersRef s1) s1.

Definition onData (c : Conn) (peerData : PeerData) (s : t) : t :=
  match type peerData with
  | JOIN =>
      let rename p :=
        if decide (id p = peer c)
        then match payload peerData with
             | Some pl =>
                 match pl_name pl with
                 | Some n => if decide (n = EmptyString) then p else withName n p
                 | None => p
                 end
             | None => p
             end
        else p in
      let s1 := set_peersRef (map rename (peersRef s)) s in
      setPeers (peersRef s1) s1
  | _ => handleMessage peerData (peer c) s
  end.

Definition onClose (c : Conn) (s : t) : t :=
  let s1 := set_peersRef (filter (fun p => id p <> peer c) (peersRef s)) s in
  setPeers (peersRef s1) s1.

Definition onError (c : Conn) (s : t) : t := onClose c s.

Definition assignRole (peerId : string) (r : Role) (s : t) : t :=
  let s1 := set_peersRef
              (map (fun p => if decide (id p = peerId) then withRole r p else p)
                   (peersRef s)) s in
  let s2 := setPeers (peersRef s1) s1 in
  match List.find (fun p => bool_decide (id p = peerId)) (peersRef s2) with
  | Some p => send (conn p) (msgRoleAssign r) s2
  | None => s2
  end.

Definition broadcastState (state : string) (raceId : option string) (s : t) : t :=
  fold_left (fun acc p => send (conn p) (msgStateChange state raceId) acc)
            (peersRef s) s.

Definition sendReset (s : t) : t :=
  fold_left (fun acc p => send (conn p) msgReset acc) (peersRef s) s.

Definition broadcastReset (s : t) : t :=
  setTriggerEvents [] (sendReset s).

Definition sendTrigger (r : Role) (timestamp : Z) (raceId : option string) (s : t) : t :=
  match hostConnectionRef s with
  | Some c => send c (msgTrigger r timestamp raceId) s
  | None => s
  end.

Definition clearTriggerEvents (s : t) : t := setTriggerEvents [] s.

End PeerService.

(** ** HostView.tsx: the race state machine *)

Module HostView.

Inductive RaceState := IDLE | ARMED | RUNNING | FINISHED.

#[global] Instance RaceState_eq_dec : EqDecision RaceState.
Proof. solve_decision. Defined.

(** The component's React state. *)
Record View := mkView {
  raceState : RaceState;
  startTime : Z;
  elapsedTime : Z;
  timerInterval : option positive;
  preciseTime : option Z;
  splitTimes : gmap string Z
}.

(** The component together with what it acts on: the peer service, the
    host clock ([clock k] is what the k-th call of [Date.now()] returns),
    the live interval timers (handle to the [now] its callback closes
    over), and the race row of the database service. *)
Record World := mkWorld {
  peerService : PeerService.t;
  view : View;
  clock : nat -> Z;
  reads : nat;
  intervals : gmap positive Z;
  nextTimer : positive;
  currentRace : option string;
  dbLog : list string
}.

Definition initView : View := mkView IDLE 0 0 None None ∅.

Definition initWorld (clk : nat -> Z) (race : option string) : World :=
  mkWorld PeerService.init initView clk 0%nat ∅ 1%positive race [].

Definition onPeer (f : PeerService.t -> PeerService.t) (w : World) : World :=
  mkWorld (f (peerService w)) (view w) (clock w) (reads w) (intervals w)
          (nextTimer w) (currentRace w) (dbLog w).

Definition onView (f : View -> View) (w : World) : World :=
  mkWorld (peerService w) (f (view w)) (clock w) (reads w) (intervals w)
          (nextTimer w) (currentRace w) (dbLog w).

Definition setRaceState (v : RaceState) : World -> World :=
  onView (fun s => mkView v (startTime s) (elapsedTime s) (timerInterval s)
                          (preciseTime s) (splitTimes s)).
Definition setStartTime (v : Z) : World -> World :=
  onView (fun s => mkView (raceState s) v (elapsedTime s) (timerInterval s)
                          (preciseTime s) (splitTimes s)).
Definition setElapsedTime (v : Z) : World -> World :=
  onView (fun s => mkView (raceState s) (startTime s) v (timerInterval s)
                          (preciseTime s) (splitTimes s)).
Definition setTimerInterval (v : option positive) : World -> World :=
  onView (fun s => mkView (raceState s) (startTime s) (elapsedTime s) v
                          (preciseTime s) (splitTimes s)).
Definition setPreciseTime (v : option Z) : World -> World :=
  onView (fun s => mkView (raceState s) (startTime s) (elapsedTime s)
                          (timerInterval s) v (splitTimes s)).
Definition setSplitTimes (f : gmap string Z -> gmap string Z) : World -> World :=
  onView (fun s => mkView (raceState s) (startTime s) (elapsedTime s)
                          (timerInterval s) (preciseTime s) (f (splitTimes s))).

(** [Date.now()] *)
Definition Date_now (w : World) : Z * World :=
  (clock w (reads w),
   mkWorld (peerService w) (view w) (clock w) (S (reads w)) (intervals w)
           (nextTimer w) (currentRace w) (dbLog w)).

(** [setInterval(() => setElapsedTime(Date.now() - now), 10)] *)
Definition setInterval (now : Z) (w : World) : positive * World :=
  (nextTimer w,
   mkWorld (peerService w) (view w) (clock w) (reads w)
           (<[nextTimer w := now]> (intervals w))
           (Pos.succ (nextTimer w)) (currentRace w) (dbLog w)).

Definition clearInterval (h : positive) (w : World) : World :=
  mkWorld (peerService w) (view w) (clock w) (reads w)
          (delete h (intervals w)) (nextTimer w) (currentRace w) (dbLog w).

(** The interval callback of timer [h], when it is still live. *)
Definition tick (h : positive) (w : World) : World :=
  match intervals w !! h with
  | Some now =>
      let (t, w1) := Date_now w in
      setElapsedTime (t - now) w1
  | None => w
  end.

(** [supabaseService.updateRaceStatus(status, ..)]: nothing without a
    current race, otherwise one update of the race row. *)
Definition updateRaceStatus (status : string) (w : World) : World :=
  match currentRace w with
  | None => w
  | Some _ =>
      mkWorld (peerService w) (view w) (clock w) (reads w) (intervals w)
              (nextTimer w) (currentRace w) (dbLog w ++ [status])
  end.

Definition canStart (w : World) : bool :=
  existsb (fun p => bool_decide (PeerService.role p = START))
          (PeerService.peers (peerService w)).

Definition startTimer (w : World) : World :=
  let w1 := setRaceState RUNNING w in
  let (now, w2) := Date_now w1 in
  let w3 := setStartTime now w2 in
  let (interval, w4) := setInterval now w3 in
  setTimerInterval (Some interval) w4.

Definition stopTimer (w : World) : World :=
  match timerInterval (view w) with
  | Some h => setTimerInterval None (clearInterval h w)
  | None => w
  end.

Definition handleTrigger (role : option Role) (_remoteTimestamp : option Z)
    (w : World) : World :=
  if bool_decide (raceState (view w) = ARMED) && bool_decide (role = Some START) then
    let w1 := startTimer w in
    updateRaceStatus "racing" w1
  else if bool_decide (raceState (view w) = RUNNING)
          && bool_decide (roleOf role = SPLIT) then
    let (t, w1) := Date_now w in
    let splitTime := t - startTime (view w) in
    let (k, w2) := Date_now w1 in
    setSplitTimes (fun prev => <[pretty k := splitTime]> prev) w2
  else if bool_decide (raceState (view w) = RUNNING) && bool_decide (role = Some FINISH) then
    let w1 := stopTimer w in
    let w2 := setRaceState FINISHED w1 in
    let w3 := onPeer (PeerService.broadcastState "LOBBY" None) w2 in
    let (t, w4) := Date_now w3 in
    let w5 := setElapsedTime (t - startTime (view w)) w4 in
    updateRaceStatus "finished" w5
  else w.

Definition setRole (peerId : string) (r : Role) (w : World) : World :=
  let currentPeers := PeerService.peers (peerService w) in
  let w1 :=
    fold_left
      (fun acc p =>
         if bool_decide (PeerService.role p = r)
            && bool_decide (PeerService.id p <> peerId)
         then onPeer (PeerService.assignRole (PeerService.id p) NONE) acc
         else acc)
      currentPeers w in
  onPeer (PeerService.assignRole peerId r) w1.

Definition armSystem (w : World) : World :=
  let w1 := setRaceState ARMED w in
  let w2 := setElapsedTime 0 w1 in
  let w3 := setPreciseTime None w2 in
  let w4 := onPeer (PeerService.broadcastState "ARMED" (currentRace w)) w3 in
  updateRaceStatus "armed" w4.

Definition cancelRace (w : World) : World :=
  let w1 := stopTimer w in
  let w2 := setRaceState IDLE w1 in
  let w3 := onPeer (PeerService.broadcastState "LOBBY" None) w2 in
  let w4 := setElapsedTime 0 w3 in
  let w5 := setPreciseTime None w4 in
  updateRaceStatus "lobby" w5.

(** The effect listening for trigger messages. *)
Definition onLatestMessage (w : World) : World :=
  match PeerService.latestMessage (peerService w) with
  | None => w
  | Some msg =>
      match type msg, payload msg with
      | TRIGGER, Some pl => handleTrigger (pl_role pl) (pl_timestamp pl) w
      | _, _ => w
      end
  end.

(** *** The controls the component renders *)

Record Button := mkButton {
  label : string;
  disabled : bool;
  onClick : World -> World
}.

Definition assignFirstUnassigned (r : Role) (w : World) : World :=
  match List.find (fun p => bool_decide (PeerService.role p = NONE))
                  (PeerService.peers (peerService w)) with
  | Some firstUnassigned => setRole (PeerService.id firstUnassigned) r w
  | None => w
  end.

Definition noneUnassigned (w : World) : bool :=
  negb (existsb (fun p => bool_decide (PeerService.role p = NONE))
                (PeerService.peers (peerService w))).

Definition controls (w : World) : list Button :=
  (if bool_decide (raceState (view w) = IDLE) || bool_decide (raceState (view w) = FINISHED)
   then [mkButton "Arm System" (negb (canStart w)) armSystem] else [])
  ++ (if bool_decide (raceState (view w) = ARMED)
      then [mkButton "Cancel" false cancelRace] else [])
  ++ (if bool_decide (raceState (view w) = RUNNING)
      then [mkButton "Stop Race" false cancelRace] else [])
  ++ (if (0 <? Z.of_nat (length (PeerService.peers (peerService w))))
      then [mkButton "Set Start" (noneUnassigned w) (assignFirstUnassigned START);
            mkButton "Set Finish" (noneUnassigned w) (assignFirstUnassigned FINISH);
            mkButton "Set Split" (noneUnassigned w) (assignFirstUnassigned SPLIT);
            mkButton "Reset All" false (onPeer PeerService.broadcastReset)]
      else []).

(** Clicking the button with the given label: nothing happens when it is
    not rendered or rendered disabled. *)
Definition click (l : string) (w : World) : World :=
  match List.find (fun b => bool_decide (label b = l)) (controls w) with
  | Some b => if disabled b then w else onClick b w
  | None => w
  end.

(** *** Events reaching the host *)

Inductive Event :=
| ConnOpen (c : Conn)
| ConnData (c : Conn) (data : PeerData)
| ConnClose (c : Conn)
| Click (l : string)
| Tick (h : positive).

Definition step (e : Event) (w : World) : World :=
  match e with
  | ConnOpen c => onPeer (PeerService.onOpen c) w
  | ConnData c data =>
      let w1 := onPeer (PeerService.onData c data) w in
      match type data with
      | JOIN => w1
      | _ => onLatestMessage w1
      end
  | ConnClose c => onPeer (PeerService.onClose c) w
  | Click l => click l w
  | Tick h => tick h w
  end.

Definition run (evs : list Event) (w : World) : World :=
  fold_left (fun acc e => step e acc) evs w.

(** The worlds after each event of a run. *)
Fixpoint trace (evs : list Event) (w : World) : list World :=
  match evs with
  | [] => []
  | e :: evs' => step e w :: trace evs' (step e w)
  end.

End HostView.

(** ** lib/usePeerService.ts: the client side used by the gate *)

Module LegacyPeer.

Record t := mk {
  hostConnection : option Conn;
  latestMessage : option PeerData;
  wire : list (Conn * PeerData)
}.

#[global] Instance LegacyPeer_eq_dec : EqDecision t.
Proof. solve_decision. Defined.

Definition init : t := mk None None [].

Definition setHostConnection (v : option Conn) (s : t) : t :=
  mk v (latestMessage s) (wire s).
Definition setLatestMessage (v : option PeerData) (s : t) : t :=
  mk (hostConnection s) v (wire s).

Definition send (c : Conn) (data : PeerData) (s : t) : t :=
  mk (hostConnection s) (latestMessage s) (wire s ++ [(c, data)]).

Definition sendToHost (data : PeerData) (s : t) : t :=
  match hostConnection s with
  | Some c => send c data s
  | None => s
  end.

(** The gate passes its role state, which may be undefined. *)
Definition sendTrigger (r : option Role) (timestamp : Z) (s : t) : t :=
  match hostConnection s with
  | Some c =>
      send c (mkPeerData TRIGGER
                (Some (mkPayload None r None (Some timestamp) None))) s
  | None => s
  end.

Definition handleMessage (data : PeerData) (senderId : string) (s : t) : t :=
  setLatestMessage (Some data) s.

(** connectToHost, [conn.on('open')]: the handshake goes through the
    [sendToHost] that connectToHost closed over; [seen] is the
    [hostConnection] of that render. *)
Definition onHostOpen (c : Conn) (seen : option Conn) (deviceName : string)
    (s : t) : t :=
  let s1 := setHostConnection (Some c) s in
  match seen with
  | Some c0 => send c0 (msgJoin deviceName) s1
  | None => s1
  end.

(** connectToHost, [conn.on('close')] *)
Definition onHostClose (s : t) : t := setHostConnection None s.

End LegacyPeer.

(** ** lib/useMotionService.ts *)

Module MotionService.

Definition roiSize : Z := 100.
Definition threshold : Z := 50.
Definition sensitivity : Z := 20.

Record t := mk {
  isArmed : bool;
  motionDetected : bool;
  currentDiff : Z;
  previousFrameRef : option (list Z)
}.

#[global] Instance MotionService_eq_dec : EqDecision t.
Proof. solve_decision. Defined.

Definition init : t := mk false false 0 None.

Definition setIsArmed (v : bool) (m : t) : t :=
  mk v (motionDetected m) (currentDiff m) (previousFrameRef m).
Definition setMotionDetected (v : bool) (m : t) : t :=
  mk (isArmed m) v (currentDiff m) (previousFrameRef m).
Definition setCurrentDiff (v : Z) (m : t) : t :=
  mk (isArmed m) (motionDetected m) v (previousFrameRef m).
Definition set_previousFrameRef (v : option (list Z)) (m : t) : t :=
  mk (isArmed m) (motionDetected m) (currentDiff m) v.

Definition armSystem (armed : bool) (m : t) : t :=
  let m1 := setIsArmed armed m in
  if armed then setMotionDetected false m1 else m1.

(** [for (let i = 0; i < currentFrame.length; i += 4)]: a component that
    is missing makes the sum NaN, and the comparison false. *)
Fixpoint pixelLoop (fuel : nat) (i : nat) (currentFrame prev : list Z)
    (diffCount totalDiff : Z) : Z * Z :=
  match fuel with
  | O => (diffCount, totalDiff)
  | S fuel' =>
      if (i <? length currentFrame)%nat then
        match currentFrame !! i, currentFrame !! (i + 1)%nat,
              currentFrame !! (i + 2)%nat,
              prev !! i, prev !! (i + 1)%nat, prev !! (i + 2)%nat with
        | Some r, Some g, Some b, Some pr, Some pg, Some pb =>
            let rDiff := Z.abs (r - pr) in
            let gDiff := Z.abs (g - pg) in
            let bDiff := Z.abs (b - pb) in
            if threshold <? rDiff + gDiff + bDiff
            then pixelLoop fuel' (i + 4)%nat currentFrame prev
                           (diffCount + 1) (totalDiff + (rDiff + gDiff + bDiff))
            else pixelLoop fuel' (i + 4)%nat currentFrame prev diffCount totalDiff
        | _, _, _, _, _, _ =>
            pixelLoop fuel' (i + 4)%nat currentFrame prev diffCount totalDiff
        end
      else (diffCount, totalDiff)
  end.

Definition countDiff (currentFrame prev : list Z) : Z :=
  fst (pixelLoop (length currentFrame) 0 currentFrame prev 0 0).

(** One pass of [loop] over a frame of a playing video.  [isArmed] is
    the value [detectMotion] closed over. *)
Definition loop (isArmed : bool) (currentFrame : list Z) (m : t) : t :=
  let m1 :=
    match previousFrameRef m with
    | Some prev =>
        let diffCount := countDiff currentFrame prev in
        let m2 := setCurrentDiff diffCount m in
        if isArmed && (sensitivity <? diffCount)
        then setIsArmed false (setMotionDetected true m2)
        else m2
    | None => m
    end in
  set_previousFrameRef (Some currentFrame) m1.

(** The loop that runs.  [startCamera] is memoised with an empty dependency
    array, so the [detectMotion] it calls is the one of the first render,
    and the loop that [detectMotion] starts closed over the [isArmed] of
    that render, the initial one. *)
Definition runningLoop (currentFrame : list Z) (m : t) : t :=
  loop (isArmed init) currentFrame m.

(** The detector fires on this frame. *)
Definition fires (isArmed : bool) (currentFrame : list Z) (m : t) : bool :=
  match previousFrameRef m with
  | Some prev => isArmed && (sensitivity <? countDiff currentFrame prev)
  | None => false
  end.

End MotionService.

(** ** components/GateView.tsx: the gate role controller *)

Module GateView.

Inductive GateStatus := LOBBY | ARMED | TRIGGERED.

#[global] Instance GateStatus_eq_dec : EqDecision GateStatus.
Proof. solve_decision. Defined.

Record t := mk {
  status : GateStatus;
  role : option Role;
  motionService : MotionService.t;
  peerService : LegacyPeer.t;
  canVibrate : bool;
  vibrations : list Z
}.

#[global] Instance GateView_eq_dec : EqDecision t.
Proof. solve_decision. Defined.

Definition init (canVibrate : bool) : t :=
  mk LOBBY (Some NONE) MotionService.init LegacyPeer.init canVibrate [].

Definition setStatus (v : GateStatus) (g : t) : t :=
  mk v (role g) (motionService g) (peerService g) (canVibrate g) (vibrations g).
Definition setRole (v : option Role) (g : t) : t :=
  mk (status g) v (motionService g) (peerService g) (canVibrate g) (vibrations g).
Definition onMotionService (f : MotionService.t -> MotionService.t) (g : t) : t :=
  mk (status g) (role g) (f (motionService g)) (peerService g) (canVibrate g)
     (vibrations g).
Definition onPeer (f : LegacyPeer.t -> LegacyPeer.t) (g : t) : t :=
  mk (status g) (role g) (motionService g) (f (peerService g)) (canVibrate g)
     (vibrations g).

(** [if ('vibrate' in navigator) navigator.vibrate(200)] *)
Definition vibrate (g : t) : t :=
  if canVibrate g
  then mk (status g) (role g) (motionService g) (peerService g) (canVibrate g)
          (vibrations g ++ [200])
  else g.

(** [handleMotionTrigger] as created in a render in which the role is
    [role].  [sendTrigger] uses the host connection of that render, which
    the message effect leaves as it is. *)
Definition handleMotionTrigger (role : option Role) (now : Z) (g : t) : t :=
  let g1 := setStatus TRIGGERED g in
  let g2 := vibrate g1 in
  onPeer (LegacyPeer.sendTrigger role now) g2.

(** The effect listening for peer messages.  [None] is the TypeError of
    reading a field of an absent payload. *)
Definition onLatestMessage (g : t) : option t :=
  match LegacyPeer.latestMessage (peerService g) with
  | None => Some g
  | Some msg =>
      match type msg with
      | ROLE_ASSIGN =>
          match payload msg with
          | Some pl => Some (setRole (pl_role pl) g)
          | None => None
          end
      | STATE_CHANGE =>
          match payload msg with
          | Some pl =>
              if bool_decide (pl_state pl = Some "ARMED"%string) then
                Some (onMotionService (MotionService.armSystem true)
                        (setStatus ARMED g))
              else if bool_decide (pl_state pl = Some "LOBBY"%string) then
                Some (onMotionService (MotionService.armSystem false)
                        (setStatus LOBBY g))
              else Some g
          | None => None
          end
      | RESET =>
          Some (onMotionService (MotionService.armSystem false)
                  (setStatus LOBBY g))
      | _ => Some g
      end
  end.

(** The effect listening for the motion trigger, in the render with state
    [seen]: it reads [motionDetected], [status] and the role of that
    render, and its updates are applied to [g]. *)
Definition onMotion (seen : t) (now : Z) (g : t) : t :=
  if MotionService.motionDetected (motionService seen)
     && bool_decide (status seen = ARMED)
  then handleMotionTrigger (role seen) now g
  else g.

(** The effects after a render with state [g].  The message effect and the
    motion effect are run after every render, not only when a message
    arrives or the detector fires: the dependency array of the first holds
    [motionService], that of the second [handleMotionTrigger], which
    depends on [peerService], and both hooks return a new object in every
    render.  The effects read the state of the render; the updates they
    queue are applied in their order. *)
Definition effects (now : Z) (g : t) : option t :=
  match onLatestMessage g with
  | Some g1 => Some (onMotion g now g1)
  | None => None
  end.

(** React renders again, and runs the effects again, as long as they
    changed the state. *)
Fixpoint settle (renders : nat) (now : Z) (g : t) : option t :=
  match renders with
  | O => Some g
  | S renders' =>
      match effects now g with
      | Some g' => if decide (g' = g) then Some g else settle renders' now g'
      | None => None
      end
  end.

Inductive Event :=
| Recv (data : PeerData)
| Frame (currentFrame : list Z)
| HostOpen (c : Conn) (seen : option Conn) (deviceName : string)
| HostClose.

(** What the event itself changes. *)
Definition update (e : Event) (g : t) : t :=
  match e with
  | Recv data => onPeer (LegacyPeer.handleMessage data "host") g
  | Frame currentFrame => onMotionService (MotionService.runningLoop currentFrame) g
  | HostOpen c seen deviceName => onPeer (LegacyPeer.onHostOpen c seen deviceName) g
  | HostClose => onPeer LegacyPeer.onHostClose g
  end.

(** One event at gate time [now], followed by the renders it causes.
    Three renders bring the effects to rest ([step_at_rest]). *)
Definition step (e : Event) (now : Z) (g : t) : option t :=
  settle 3 now (update e g).

(** A run stops at the first event whose effect throws. *)
Fixpoint run (evs : list (Event * Z)) (g : t) : t :=
  match evs with
  | [] => g
  | (e, now) :: evs' =>
      match step e now g with
      | Some g' => run evs' g'
      | None => g
      end
  end.

(** The TRIGGER messages the gate has sent. *)
Definition triggersSent (g : t) : list (Conn * PeerData) :=
  filter (fun m => type (snd m) = TRIGGER) (LegacyPeer.wire (peerService g)).

Definition isRearm (e : Event) : bool :=
  match e with
  | Recv data =>
      bool_decide (type data = STATE_CHANGE)
      && match payload data with
         | Some pl => bool_decide (pl_state pl = Some "ARMED"%string)
         | None => false
         end
  | _ => false
  end.

End GateView.

(** ** Host and gates connected: delivery of what the host sends *)

Module System.

Record t := mk {
  host : PeerService.t;
  gates : gmap Conn GateView.t
}.

(** The gate at the other end of [c] receives [data] at its time [now]. *)
Definition deliver (now : Z) (gs : gmap Conn GateView.t)
    (m : Conn * PeerData) : gmap Conn GateView.t :=
  match gs !! fst m with
  | Some g =>
      match GateView.step (GateView.Recv (snd m)) now g with
      | Some g' => <[fst m := g']> gs
      | None => gs
      end
  | None => gs
  end.

(** A host operation, followed by delivery of the messages it sent. *)
Definition hostDo (now : Z) (f : PeerService.t -> PeerService.t) (sys : t) : t :=
  let h' := f (host sys) in
  let sent := drop (length (PeerService.wire (host sys))) (PeerService.wire h') in
  mk h' (fold_left (deliver now) sent (gates sys)).

End System.

(** ** HostView.tsx: the displayed time *)

Module HostDisplay.

(** [s.padStart(2, '0')] *)
Definition padStart2 (s : string) : string :=
  match String.length s with
  | O => "00"
  | 1%nat => "0" +:+ s
  | _ => s
  end.

(** [Math.floor((ms % 1000) / 10)]; [%] takes the sign of the dividend.
    On the whole numbers of milliseconds the component holds (far below
    2^40) the floating-point division followed by [Math.floor] is the
    floor of the exact quotient. *)
Definition centis (ms : Z) : Z := Z.rem ms 1000 / 10.

Definition formatMs (ms : Z) : string :=
  pretty (ms / 1000) +:+ "." +:+ padStart2 (pretty (centis ms)).

Definition formattedTime (v : HostView.View) : string :=
  match HostView.preciseTime v with
  | Some preciseTime => formatMs preciseTime
  | None => formatMs (HostView.elapsedTime v)
  end.

(** The rows of the table of triggers: the row type is declared in
    [@/types/database], which is not among the sources, so it is a
    parameter, with the two columns the code reads. *)
Section Triggers.
Context {Row : Type} (gate_role : Row -> string) (client_timestamp : Row -> Z).

(** useSupabaseService.ts, [calculateRaceDuration] *)
Definition calculateRaceDuration (triggers : list Row) : option Z :=
  match List.find (fun t => bool_decide (gate_role t = "START"%string)) triggers,
        List.find (fun t => bool_decide (gate_role t = "FINISH"%string)) triggers with
  | Some startTrigger, Some finishTrigger =>
      Some (client_timestamp finishTrigger - client_timestamp startTrigger)
  | _, _ => None
  end.

(** The effect of HostView that corrects the time from the database
    triggers; the boolean tells whether the correction indicator was
    switched on. *)
Definition correctTiming (triggers : list Row) (w : HostView.World)
    : HostView.World * bool :=
  if (2 <=? length triggers)%nat then
    match List.find (fun t => bool_decide (gate_role t = "START"%string)) triggers,
          List.find (fun t => bool_decide (gate_role t = "FINISH"%string)) triggers with
    | Some _, Some _ =>
        match calculateRaceDuration triggers with
        | Some calculatedDuration =>
            (HostView.setPreciseTime (Some calculatedDuration) w, true)
        | None => (w, false)
        end
    | _, _ => (w, false)
    end
  else (w, false).

End Triggers.

End HostDisplay.

(** ** usePeerService.tsx: the connection to the host and the teardown *)

Module Provider.

(** The provider's refs and state around the registry: the Peer instance
    (by a number), the calls of [peer.connect] made so far, the 3000 ms
    timers that are scheduled, and the Peer instances destroyed. *)
Record t := mk {
  core : PeerService.t;
  peerRef : option nat;
  isConnectedRef : bool;
  isConnected : bool;
  connectionStatus : string;
  attempts : list (string * string);
  pendingRetries : nat;
  destroyed : list nat
}.

Definition onCore (f : PeerService.t -> PeerService.t) (p : t) : t :=
  mk (f (core p)) (peerRef p) (isConnectedRef p) (isConnected p)
     (connectionStatus p) (attempts p) (pendingRetries p) (destroyed p).

Definition setConnectionStatus (v : string) (p : t) : t :=
  mk (core p) (peerRef p) (isConnectedRef p) (isConnected p) v (attempts p)
     (pendingRetries p) (destroyed p).

Definition schedule (p : t) : t :=
  mk (core p) (peerRef p) (isConnectedRef p) (isConnected p)
     (connectionStatus p) (attempts p) (S (pendingRetries p)) (destroyed p).

Definition connectToHost (hostId deviceName : string) (p : t) : t :=
  match peerRef p with
  | None => p
  | Some _ =>
      let p1 := setConnectionStatus "Connecting to Host..." p in
      mk (core p1) (peerRef p1) (isConnectedRef p1) (isConnected p1)
         (connectionStatus p1) (attempts p1 ++ [(hostId, deviceName)])
         (pendingRetries p1) (destroyed p1)
  end.

(** [conn.on('open')] *)
Definition onHostOpen (c : Conn) (deviceName : string) (p : t) : t :=
  let p1 := setConnectionStatus "Connected to Host" p in
  let p2 := onCore (PeerService.set_hostConnectionRef (Some c)) p1 in
  onCore (PeerService.sendToHostInternal (msgJoin deviceName)) p2.

(** [conn.on('data')] *)
Definition onHostData (c : Conn) (data : PeerData) (p : t) : t :=
  onCore (PeerService.handleMessage data (peer c)) p.

(** [conn.on('close')] *)
Definition onHostClose (p : t) : t :=
  let p1 := setConnectionStatus "Disconnected from Host" p in
  let p2 := onCore (PeerService.set_hostConnectionRef None) p1 in
  schedule p2.

(** [conn.on('error')] *)
Definition onHostError (errType : string) (p : t) : t :=
  let p1 := setConnectionStatus "Connection Error" p in
  if bool_decide (errType = "peer-unavailable"%string)
     || bool_decide (errType = "network"%string)
  then schedule p1
  else p1.

(** A scheduled timer fires. *)
Definition onRetry (hostId deviceName : string) (p : t) : t :=
  let p1 := mk (core p) (peerRef p) (isConnectedRef p) (isConnected p)
               (connectionStatus p) (attempts p) (pred (pendingRetries p))
               (destroyed p) in
  match PeerService.hostConnectionRef (core p1), peerRef p1 with
  | None, Some _ => connectToHost hostId deviceName p1
  | _, _ => p1
  end.

Definition destroy (p : t) : t :=
  match peerRef p with
  | Some k =>
      let s := core p in
      mk (PeerService.mk None [] [] (PeerService.latestMessage s) []
                         (PeerService.wire s))
         None false false "Disconnected" (attempts p) (pendingRetries p)
         (destroyed p ++ [k])
  | None => p
  end.

End Provider.

(** ** The gate view of the provider version (GateView.tsx) *)

Module GateViewNext.

(** The component with what it acts on: the motion service, the peer
    service of the provider, the current race of the database service and
    the rows [recordTrigger] has inserted (gate role, gate id, client
    timestamp). *)
Record t := mk {
  status : GateView.GateStatus;
  role : Role;
  isWritingToDb : bool;
  motionService : MotionService.t;
  peerService : PeerService.t;
  currentRace : option string;
  dbTriggers : list (Role * string * Z);
  canVibrate : bool;
  vibrations : list Z
}.

Definition init (canVibrate : bool) (race : option string) : t :=
  mk GateView.LOBBY NONE false MotionService.init PeerService.init race []
     canVibrate [].

Definition setStatus (v : GateView.GateStatus) (g : t) : t :=
  mk v (role g) (isWritingToDb g) (motionService g) (peerService g)
     (currentRace g) (dbTriggers g) (canVibrate g) (vibrations g).
Definition setRole (v : Role) (g : t) : t :=
  mk (status g) v (isWritingToDb g) (motionService g) (peerService g)
     (currentRace g) (dbTriggers g) (canVibrate g) (vibrations g).
Definition setIsWritingToDb (v : bool) (g : t) : t :=
  mk (status g) (role g) v (motionService g) (peerService g)
     (currentRace g) (dbTriggers g) (canVibrate g) (vibrations g).
Definition onMotionService (f : MotionService.t -> MotionService.t) (g : t) : t :=
  mk (status g) (role g) (isWritingToDb g) (f (motionService g)) (peerService g)
     (currentRace g) (dbTriggers g) (canVibrate g) (vibrations g).
Definition onPeer (f : PeerService.t -> PeerService.t) (g : t) : t :=
  mk (status g) (role g) (isWritingToDb g) (motionService g) (f (peerService g))
     (currentRace g) (dbTriggers g) (canVibrate g) (vibrations g).

Definition vibrate (g : t) : t :=
  if canVibrate g
  then mk (status g) (role g) (isWritingToDb g) (motionService g) (peerService g)
          (currentRace g) (dbTriggers g) (canVibrate g) (vibrations g ++ [200])
  else g.

(** [supabaseService.recordTrigger]: nothing without a current race;
    otherwise one insert, which succeeds or throws ([dbOk]). *)
Definition recordTrigger (dbOk : bool) (gateRole : Role) (gateId : string)
    (clientTimestamp : Z) (g : t) : t :=
  match currentRace g with
  | None => g
  | Some _ =>
      if dbOk
      then mk (status g) (role g) (isWritingToDb g) (motionService g) (peerService g)
              (currentRace g) (dbTriggers g ++ [(gateRole, gateId, clientTimestamp)])
              (canVibrate g) (vibrations g)
      else g
  end.

(** [handleMotionTrigger], run to the end of its [finally]. *)
Definition handleMotionTrigger (now : Z) (dbOk : bool) (myId : string) (g : t) : t :=
  if bool_decide (status g <> GateView.ARMED) || negb (truthyRole (role g)) then g
  else
    let g1 := setStatus GateView.TRIGGERED g in
    let triggerTimestamp := now in
    let g2 := vibrate g1 in
    let g3 :=
      if bool_decide (role g <> NONE)
      then onPeer (PeerService.sendTrigger (role g) triggerTimestamp (currentRace g)) g2
      else g2 in
    let g4 := setIsWritingToDb true g3 in
    let g5 := recordTrigger dbOk (role g) myId triggerTimestamp g4 in
    setIsWritingToDb false g5.

(** The effect listening for peer messages. *)
Definition onLatestMessage (g : t) : t :=
  match PeerService.latestMessage (peerService g) with
  | None => g
  | Some msg =>
      match type msg with
      | ROLE_ASSIGN =>
          match payload msg with
          | Some pl =>
              match pl_role pl with
              | Some r => if truthyRole r then setRole r g else g
              | None => g
              end
          | None => g
          end
      | STATE_CHANGE =>
          let state := match payload msg with Some pl => pl_state pl | None => None end in
          if bool_decide (state = Some "ARMED"%string) then
            onMotionService (MotionService.armSystem true) (setStatus GateView.ARMED g)
          else if bool_decide (state = Some "LOBBY"%string) then
            onMotionService (MotionService.armSystem false) (setStatus GateView.LOBBY g)
          else g
      | RESET =>
          onMotionService (MotionService.armSystem false) (setStatus GateView.LOBBY g)
      | _ => g
      end
  end.

(** The effect listening for the motion trigger. *)
Definition onMotion (now : Z) (dbOk : bool) (myId : string) (g : t) : t :=
  if MotionService.motionDetected (motionService g)
     && bool_decide (status g = GateView.ARMED)
  then handleMotionTrigger now dbOk myId g
  else g.

End GateViewNext.

(** ** app/page.tsx: the keypad for the session code *)

Module Home.

(** Each key press is an event of its own, handled in the render that
    follows the previous one, so [appendDigit] tests the code the updater
    of [setJoinId] extends. *)

(** [s.slice(0, -1)] *)
Fixpoint dropLast (s : string) : string :=
  match s with
  | EmptyString => EmptyString
  | String c EmptyString => EmptyString
  | String c s' => String c (dropLast s')
  end.

Definition appendDigit (digit : Z) (joinId : string) : string :=
  if (String.length joinId <? 4)%nat then joinId +:+ pretty digit else joinId.

Definition removeDigit (joinId : string) : string := dropLast joinId.

(** [joinSession] goes on to connect only with a code of four characters;
    the result is the host id it connects to. *)
Definition joinSession (joinId : string) : option string :=
  if bool_decide (joinId = EmptyString) || negb (String.length joinId =? 4)%nat
  then None
  else Some joinId.

Inductive Key := Digit (digit : Z) | Backspace.

Definition press (k : Key) (joinId : string) : string :=
  match k with
  | Digit d => appendDigit d joinId
  | Backspace => removeDigit joinId
  end.

Definition type (keys : list Key) (joinId : string) : string :=
  fold_left (fun acc k => press k acc) keys joinId.

End Home.

(** ** utils/types.ts: [throttle] *)

Module Throttle.

(** One call of the throttled function at clock reading [now]: the new
    [lastCall], and whether [fn] was called. *)
Definition call (delay now lastCall : Z) : Z * bool :=
  if delay <=? now - lastCall then (now, true) else (lastCall, false).

(** The clock readings at which [fn] was called, for calls of the throttled
    function at the readings [calls]. *)
Fixpoint fired (delay : Z) (calls : list Z) (lastCall : Z) : list Z :=
  match calls with
  | [] => []
  | now :: calls' =>
      let (lastCall', ran) := call delay now lastCall in
      if ran then now :: fired delay calls' lastCall'
      else fired delay calls' lastCall'
  end.

(** [let lastCall = 0] *)
Definition throttle (delay : Z) (calls : list Z) : list Z := fired delay calls 0.

End Throttle.


(** ** utils/types.ts: [debounce] *)

Module Debounce.

Section Debounced.
Context {Args : Type} (delay : Z).

(** The closure of one debounced function with the timeouts of the
    runtime it has set: [timeoutId], the live timeouts (due time and the
    arguments their callback passes to [fn]), and the runs of [fn] (clock
    reading and arguments). *)
Record t := mk {
  timeoutId : option positive;
  timeouts : gmap positive (Z * Args);
  nextTimeout : positive;
  ran : list (Z * Args)
}.

(** [let timeoutId = null] *)
Definition init : t := mk None ∅ 1%positive [].

(** The returned function, called at clock reading [now]. *)
Definition call (now : Z) (args : Args) (d : t) : t :=
  let live :=
    match timeoutId d with
    | Some id => delete id (timeouts d)
    | None => timeouts d
    end in
  let id := nextTimeout d in
  mk (Some id) (<[id := (now + delay, args)]> live) (Pos.succ id) (ran d).

(** The runtime runs the callback of timeout [id] at clock reading [now]:
    only when the timeout is live and due; a timeout runs once. *)
Definition fire (now : Z) (id : positive) (d : t) : t :=
  match timeouts d !! id with
  | Some (due, args) =>
      if due <=? now
      then mk (timeoutId d) (delete id (timeouts d)) (nextTimeout d)
              (ran d ++ [(now, args)])
      else d
  | None => d
  end.

Inductive Event := Call (now : Z) (args : Args) | Timeout (now : Z) (id : positive).

Definition step (e : Event) (d : t) : t :=
  match e with
  | Call now args => call now args d
  | Timeout now id => fire now id d
  end.

Definition run (evs : list Event) (d : t) : t :=
  fold_left (fun acc e => step e acc) evs d.

End Debounced.

Arguments t : clear implicits.
Arguments Event : clear implicits.

End Debounce.

(** ** utils/types.ts: [EventEmitter] *)

Module EventEmitter.

(** A listener is a function object, compared by identity: a function of
    the caller, by its number, or an [onceListener] wrapper, by the serial
    number of the call of [once] that created it, with the event and the
    listener it closes over. *)
Inductive Listener :=
| Fn (f : nat)
| OnceListener (serial : nat) (event : string) (listener : nat).

#[global] Instance Listener_eq_dec : EqDecision Listener.
Proof. solve_decision. Defined.

Section Emitter.
(** The arguments of an event, and whether a function of the caller throws
    when called with them.  The functions of the caller do not themselves
    call the emitter. *)
Context {Args : Type} (throws : nat -> Args -> bool).

(** [listeners] is the Map from events to Sets of functions, a Set as the
    list of its elements in insertion order; [created] counts the wrappers
    [once] has created; [calls] logs the calls of the caller's functions. *)
Record t := mk {
  listeners : gmap string (list Listener);
  created : nat;
  calls : list (nat * Args)
}.

Definition init : t := mk ∅ 0 [].

Definition addListener (event : string) (listener : Listener) (e : t) : t :=
  let m :=
    match listeners e !! event with
    | None => <[event := []]> (listeners e)
    | Some _ => listeners e
    end in
  let set := default [] (m !! event) in
  mk (<[event := if bool_decide (listener ∈ set) then set else set ++ [listener]]> m)
     (created e) (calls e).

Definition removeListener (event : string) (listener : Listener) (e : t) : t :=
  match listeners e !! event with
  | Some eventListeners =>
      mk (<[event := filter (fun l => l <> listener) eventListeners]> (listeners e))
         (created e) (calls e)
  | None => e
  end.

(** One listener called by [emit], inside its try and catch.  The wrapper
    of [once] calls its listener and then removes itself; when the listener
    throws, the removal is not reached. *)
Definition callListener (args : Args) (e : t) (l : Listener) : t :=
  match l with
  | Fn f => mk (listeners e) (created e) (calls e ++ [(f, args)])
  | OnceListener _ event f =>
      let e1 := mk (listeners e) (created e) (calls e ++ [(f, args)]) in
      if throws f args then e1 else removeListener event l e1
  end.

(** [forEach] over the Set of the event: the only removal during the
    iteration is that of the wrapper being called. *)
Definition emit (event : string) (args : Args) (e : t) : t :=
  match listeners e !! event with
  | Some eventListeners => fold_left (callListener args) eventListeners e
  | None => e
  end.

Definition once (event : string) (listener : nat) (e : t) : t :=
  let onceListener := OnceListener (created e) event listener in
  addListener event onceListener (mk (listeners e) (S (created e)) (calls e)).

(** [if (event)]: the empty string is falsy. *)
Definition removeAllListeners (event : option string) (e : t) : t :=
  match event with
  | Some ev =>
      if bool_decide (ev <> EmptyString)
      then mk (delete ev (listeners e)) (created e) (calls e)
      else mk ∅ (created e) (calls e)
  | None => mk ∅ (created e) (calls e)
  end.

(** The calls a user of the class can make, with functions of their own. *)
Inductive Op :=
| AddListener (event : string) (f : nat)
| RemoveListener (event : string) (f : nat)
| Emit (event : string) (args : Args)
| Once (event : string) (f : nat)
| RemoveAllListeners (event : option string).

Definition apply (o : Op) (e : t) : t :=
  match o with
  | AddListener event f => addListener event (Fn f) e
  | RemoveListener event f => removeListener event (Fn f) e
  | Emit event args => emit event args e
  | Once event f => once event f e
  | RemoveAllListeners event => removeAllListeners event e
  end.

Definition run (ops : list Op) (e : t) : t :=
  fold_left (fun acc o => apply o acc) ops e.

End Emitter.

Arguments t : clear implicits.
Arguments Op : clear implicits.

End EventEmitter.

(** ** utils/types.ts: the guards for peer messages *)

Module Guards.

(** The values the guards inspect. *)
Inductive JSVal :=
| JUndefined
| JNull
| JBoolean (b : bool)
| JNumber (n : Z)
| JString (s : string)
| JObject (fields : list (string * JSVal)).

Inductive JSType := TUndefined | TObject | TBoolean | TNumber | TString.

#[global] Instance JSType_eq_dec : EqDecision JSType.
Proof. solve_decision. Defined.

Definition typeof (v : JSVal) : JSType :=
  match v with
  | JUndefined => TUndefined
  | JNull => TObject
  | JBoolean _ => TBoolean
  | JNumber _ => TNumber
  | JString _ => TString
  | JObject _ => TObject
  end.

(** [obj.key] on the own properties of an object. *)
Definition get (key : string) (fields : list (string * JSVal)) : JSVal :=
  match find (fun kv => bool_decide (fst kv = key)) fields with
  | Some kv => snd kv
  | None => JUndefined
  end.

(** ['key' in obj] on the own properties of an object. *)
Definition has (key : string) (fields : list (string * JSVal)) : bool :=
  existsb (fun kv => bool_decide (fst kv = key)) fields.

(** [v === s] for a string [s]. *)
Definition isString (s : string) (v : JSVal) : bool :=
  match v with
  | JString s' => bool_decide (s' = s)
  | _ => false
  end.

Section Messages.
(** The members of the enum MessageType of [@/types], which is not among
    the sources: the value of each member and the list of all values are
    parameters. *)
Context (tag : MessageType -> string) (values : list string).

Definition isValidMessageType (value : JSVal) : bool :=
  match value with
  | JString s => bool_decide (s ∈ values)
  | _ => false
  end.

Definition isPeerMessage (obj : JSVal) (messageType : option string) : bool :=
  match obj with
  | JObject message =>
      let hasCorrectType :=
        match messageType with
        | Some mt =>
            if bool_decide (mt <> EmptyString)
            then isString mt (get "type" message)
            else isValidMessageType (get "type" message)
        | None => isValidMessageType (get "type" message)
        end in
      hasCorrectType
      && bool_decide (typeof (get "timestamp" message) = TNumber)
      && bool_decide (typeof (get "sessionId" message) = TString)
      && bool_decide (typeof (get "senderId" message) = TString)
  | _ => false
  end.

Definition fieldsOf (obj : JSVal) : list (string * JSVal) :=
  match obj with
  | JObject fields => fields
  | _ => []
  end.

Definition isJoinMessage (obj : JSVal) : bool :=
  isPeerMessage obj (Some (tag JOIN))
  && has "gateId" (fieldsOf obj) && has "deviceInfo" (fieldsOf obj).

Definition isRoleAssignMessage (obj : JSVal) : bool :=
  isPeerMessage obj (Some (tag ROLE_ASSIGN))
  && has "gateRole" (fieldsOf obj) && has "targetGateId" (fieldsOf obj).

Definition isTriggerMessage (obj : JSVal) : bool :=
  isPeerMessage obj (Some (tag TRIGGER))
  && has "gateRole" (fieldsOf obj) && has "timestamp" (fieldsOf obj)
  && has "triggerData" (fieldsOf obj).

(** A message as usePeerService.tsx puts it on a connection: an object
    literal with the properties [type] and, except for RESET, [payload]. *)
Definition onWire (payloadValue : Payload -> JSVal) (d : PeerData) : JSVal :=
  JObject (("type"%string, JString (tag (type d)))
           :: match payload d with
              | Some pl => [("payload"%string, payloadValue pl)]
              | None => []
              end).

End Messages.

End Guards.
(** * Terms of the properties, and the scenarios they are tried on *)

Section RoleTerms.
Import PeerService.

Definition holders (r : Role) (l : list ConnectedPeer) : list ConnectedPeer :=
  filter (fun p => role p = r) l.

(** At most one registered peer holds START, and at most one FINISH. *)
Definition exclusive (l : list ConnectedPeer) : Prop :=
  (length (holders START l) <= 1)%nat /\ (length (holders FINISH l) <= 1)%nat.

(** The React state [peers] shows the registry. *)
Definition synced (s : t) : Prop := peers s = peersRef s.

(** What one [setRole peerId r] does to a registry entry. *)
Definition reassign (peerId : string) (r : Role) (p : ConnectedPeer) : ConnectedPeer :=
  if decide (id p = peerId) then withRole r p
  else if decide (role p = r) then withRole NONE p
  else p.

Definition clearIds (ids : list string) (p : ConnectedPeer) : ConnectedPeer :=
  if decide (id p ∈ ids) then withRole NONE p else p.

Definition toClear (peerId : string) (r : Role) (l : list ConnectedPeer) : list string :=
  map id (filter (fun p => role p = r /\ id p <> peerId) l).

Definition clearStep (peerId : string) (r : Role) (acc : HostView.World)
    (p : ConnectedPeer) : HostView.World :=
  if bool_decide (role p = r) && bool_decide (id p <> peerId)
  then HostView.onPeer (assignRole (id p) NONE) acc
  else acc.

(** The [forEach] of [setRole]: the state in which the final [assignRole]
    is called. *)
Definition clearOthers (peerId : string) (r : Role) (w : HostView.World) : HostView.World :=
  fold_left (clearStep peerId r) (peers (HostView.peerService w)) w.

End RoleTerms.

Section RegistryTerms.
Import PeerService.

Definition setRoles (ops : list (string * Role)) (w : HostView.World) : HostView.World :=
  fold_left (fun acc op => HostView.setRole (fst op) (snd op) acc) ops w.

(** What a run of [setRole] calls preserves. *)
Definition registryInv (w : HostView.World) : Prop :=
  synced (HostView.peerService w)
  /\ NoDup (map id (peersRef (HostView.peerService w)))
  /\ exclusive (peersRef (HostView.peerService w)).

Definition gateA : Conn := mkConn "1111" 0.
Definition gateB : Conn := mkConn "2222" 1.

(** Two gates have connected; no role is assigned yet. *)
Definition lobby2 : PeerService.t := onOpen gateB (onOpen gateA PeerService.init).

Definition lobbyWorld : HostView.World :=
  HostView.onPeer (fun _ => lobby2)
                  (HostView.initWorld (fun k => 1000 + Z.of_nat k) None).

Definition ops3 : list (string * Role) :=
  [("1111"%string, START); ("2222"%string, START); ("1111"%string, FINISH)].

End RegistryTerms.

Section ArmingTerms.
Import HostView.

(** A finished race, 4000 ms on the clock, two gates without a role. *)
Definition finishedNoStart : World :=
  setElapsedTime 4000 (setRaceState FINISHED lobbyWorld).

End ArmingTerms.

Section TriggerTerms.
Import HostView.

(** The role whose trigger the race is waiting for. *)
Definition matchesExpected (st : RaceState) (role : option Role) : bool :=
  match st, role with
  | ARMED, Some START => true
  | RUNNING, Some FINISH => true
  | _, _ => false
  end.

(** The sampler is live exactly while the race is running: in RUNNING the
    timer table holds the one interval whose handle is in [timerInterval]
    (its callback closes over the start time); otherwise there is no
    handle and no live interval. *)
Definition samplerInv (w : World) : Prop :=
  match raceState (view w) with
  | RUNNING =>
      exists h, timerInterval (view w) = Some h
                /\ intervals w = {[h := startTime (view w)]}
  | _ => timerInterval (view w) = None /\ intervals w = ∅
  end.

(** A race armed with a start gate and a finish gate, before any trigger. *)
Definition armedWorld : World :=
  run [ConnOpen gateA; ConnOpen gateB; Click "Set Start"; Click "Set Finish";
       Click "Arm System"]
      (initWorld (fun k => 1000 + 7 * Z.of_nat k) (Some "race-1"%string)).

(** The same race after the start gate fired. *)
Definition runningWorld : World :=
  step (ConnData gateA (msgTrigger START 1000 None)) armedWorld.

(** A running race on a clock that stays at 1002 from its third reading
    on. *)
Definition sameMsWorld : World :=
  run [ConnOpen gateA; Click "Set Start"; Click "Arm System";
       ConnData gateA (mkPeerData TRIGGER
                         (Some (mkPayload None (Some START) None (Some 1) None)))]
      (initWorld (fun k => Z.min (1000 + Z.of_nat k) 1002) None).

End TriggerTerms.

Section TimestampTerms.
Import HostView.

Definition eraseTimestamp (d : PeerData) : PeerData :=
  mkPeerData (type d)
    (option_map (fun pl => mkPayload (pl_name pl) (pl_role pl) (pl_state pl) None
                                     (pl_raceId pl))
                (payload d)).

(** An event with the timestamp field of its message removed. *)
Definition eraseEvent (e : Event) : Event :=
  match e with
  | ConnData c d => ConnData c (eraseTimestamp d)
  | _ => e
  end.

(** The only places the host keeps a gate timestamp: the latest message and
    the buffered trigger events. *)
Definition scrubPeer (s : PeerService.t) : PeerService.t :=
  PeerService.mk (PeerService.hostConnectionRef s) (PeerService.peersRef s)
    (PeerService.peers s)
    (option_map eraseTimestamp (PeerService.latestMessage s)) []
    (PeerService.wire s).

Definition scrub (w : World) : World := onPeer scrubPeer w.

(** What an observer of the race sees: the component state (status, start
    time, elapsed time, sampler handle, split times) and the messages sent. *)
Definition hostObs (w : World) : View * list (Conn * PeerData) :=
  (view w, PeerService.wire (peerService w)).

(** The gates report local times 1000 and 5000 in one execution, and
    987654 and no timestamp at all in the other. *)
Definition raceEvents (tStart tFinish : option Z) : list Event :=
  [ConnData gateA (mkPeerData TRIGGER (Some (mkPayload None (Some START) None tStart None)));
   Tick 1%positive;
   ConnData gateB (mkPeerData TRIGGER (Some (mkPayload None (Some FINISH) None tFinish None)))].

End TimestampTerms.

Section GateTerms.
Import GateView.

(** The motion effect alone, in the render with state [g]: a detection
    that is pending in an ARMED gate is sent off. *)
Definition flushed (now : Z) (g : t) : t := onMotion g now g.

(** The gate is at rest: the message effect, run again on the latest
    message, changes nothing, and no detection is pending in an ARMED
    gate. *)
Definition atRest (g : t) : Prop :=
  onLatestMessage g = Some g
  /\ (MotionService.motionDetected (motionService g) && bool_decide (status g = ARMED))
     = false.

(** Two frames that differ in 25 pixels of the region: more than the
    sensitivity of 20. *)
Definition stillFrame : list Z := concat (replicate 30 [10; 10; 10; 255]).
Definition movedFrame : list Z :=
  concat (replicate 25 [200; 200; 200; 255]) ++ concat (replicate 5 [10; 10; 10; 255]).

(** A connected start gate that has been armed and has seen one frame. *)
Definition armedGate : t :=
  run [(HostOpen (mkConn "4821" 0) None "Start Gate", 10);
       (Recv (msgRoleAssign START), 20);
       (Recv (msgStateChange "ARMED" None), 30);
       (Frame stillFrame, 40)]
      (init true).


(** The state the detector was written to leave behind on firing
    ([setMotionDetected(true)], [setIsArmed(false)]) in the armed gate. *)
Definition firedGate : t :=
  onMotionService
    (fun m => MotionService.setIsArmed false (MotionService.setMotionDetected true m))
    armedGate.

End GateTerms.

Section ResetTerms.
Import System.

(** A gate after it has processed a RESET. *)
Definition resetGate (g : GateView.t) : GateView.t :=
  GateView.onMotionService (MotionService.armSystem false)
    (GateView.setStatus GateView.LOBBY
       (GateView.onPeer (LegacyPeer.handleMessage msgReset "host") g)).

Definition resetMsgs (s : PeerService.t) : list (Conn * PeerData) :=
  map (fun p => (PeerService.conn p, msgReset)) (PeerService.peersRef s).

(** A host with a buffered trigger event and two registered gates, one of
    them armed. *)
Definition twoGates : t :=
  mk (PeerService.setTriggerEvents [(START, Some 1000)] lobby2)
     (<[gateA := armedGate]> (<[gateB := GateView.init false]> ∅)).

End ResetTerms.

Section HostRunTerms.
Import HostView.

(** Every connection that opens during the run comes from a peer id that
    is not in the registry at that moment. *)
Fixpoint freshOpens (evs : list Event) (w : World) : Prop :=
  match evs with
  | [] => True
  | e :: evs' =>
      match e with
      | ConnOpen c =>
          peer c ∉ map PeerService.id (PeerService.peersRef (peerService w))
      | _ => True
      end
      /\ freshOpens evs' (step e w)
  end.

(** The two events that end a running race: a FINISH trigger and a click
    on Stop Race. *)
Definition endsRace (e : Event) : bool :=
  match e with
  | ConnData c d =>
      bool_decide (type d = TRIGGER)
      && match payload d with
         | Some pl => bool_decide (pl_role pl = Some FINISH)
         | None => false
         end
  | Click l => bool_decide (l = "Stop Race"%string)
  | _ => false
  end.

(** A TRIGGER message as a gate builds it, with an optional timestamp. *)
Definition triggerMsg (r : Role) (ts : option Z) : PeerData :=
  mkPeerData TRIGGER (Some (mkPayload None (Some r) None ts None)).

End HostRunTerms.

Section MotionTerms.

(** Two frames whose colour components differ by at most 16 each: below the
    pixel threshold of 50 for the sum of the three differences. *)
Definition withinNoise (currentFrame prev : list Z) : Prop :=
  forall j a b, currentFrame !! j = Some a -> prev !! j = Some b -> Z.abs (a - b) <= 16.

(** The number of STATE_CHANGE("ARMED") messages among the events. *)
Definition rearms (evs : list (GateView.Event * Z)) : nat :=
  length (filter (fun e => GateView.isRearm (fst e) = true) evs).

Definition armedFlag (g : GateView.t) : nat :=
  if bool_decide (GateView.status g = GateView.ARMED) then 1 else 0.

(** One when a detection is pending in an ARMED gate. *)
Definition pendingFlag (g : GateView.t) : nat :=
  if MotionService.motionDetected (GateView.motionService g)
     && bool_decide (GateView.status g = GateView.ARMED)
  then 1 else 0.

(** A gate after it has processed STATE_CHANGE with the given state. *)
Definition armGate (raceId : option string) (g : GateView.t) : GateView.t :=
  GateView.onMotionService (MotionService.armSystem true)
    (GateView.setStatus GateView.ARMED
       (GateView.onPeer
          (LegacyPeer.handleMessage (msgStateChange "ARMED" raceId) "host") g)).

Definition lobbyGate (raceId : option string) (g : GateView.t) : GateView.t :=
  GateView.onMotionService (MotionService.armSystem false)
    (GateView.setStatus GateView.LOBBY
       (GateView.onPeer
          (LegacyPeer.handleMessage (msgStateChange "LOBBY" raceId) "host") g)).

End MotionTerms.

Section FurtherTerms.

(** Consecutive entries are at least [delay] apart. *)
Definition spaced (delay : Z) (l : list Z) : Prop :=
  forall i a b, l !! i = Some a -> l !! S i = Some b -> delay <= b - a.

(** A key of the keypad: one of the digits 0 to 9, or backspace. *)
Definition keypadKey (k : Home.Key) : Prop :=
  match k with
  | Home.Digit d => 0 <= d <= 9
  | Home.Backspace => True
  end.

(** The name a JOIN message carries, when it carries one that is not
    empty. *)
Definition joinName (d : PeerData) : option string :=
  match payload d with
  | Some pl =>
      match pl_name pl with
      | Some n => if decide (n = EmptyString) then None else Some n
      | None => None
      end
  | None => None
  end.

(** A client provider with a Peer instance, before any connection. *)
Definition freshClient : Provider.t :=
  Provider.mk PeerService.init (Some 0%nat) true true "Online" [] 0 [].

(** An armed gate of the provider version, connected, without a role. *)
Definition unassignedArmed : GateViewNext.t :=
  GateViewNext.mk GateView.ARMED NONE false
    (MotionService.mk true true 25 None)
    (PeerService.set_hostConnectionRef (Some (mkConn "4821" 0)) PeerService.init)
    (Some "race-1"%string) [] false [].

End FurtherTerms.


Section UtilityTerms.

(** The last call of the debounced function among the events: its clock
    reading and arguments. *)
Definition lastCall {Args : Type} (evs : list (Debounce.Event Args)) : option (Z * Args) :=
  fold_left (fun acc e =>
               match e with
               | Debounce.Call now args => Some (now, args)
               | Debounce.Timeout _ _ => acc
               end) evs None.

Definition isCall {Args : Type} (e : Debounce.Event Args) : bool :=
  match e with
  | Debounce.Call _ _ => true
  | Debounce.Timeout _ _ => false
  end.

(** The listeners registered for an event, in the order of registration. *)
Definition registered {Args : Type} (event : string) (e : EventEmitter.t Args)
    : list EventEmitter.Listener :=
  default [] (EventEmitter.listeners e !! event).

(** The function of the caller a listener ends up calling. *)
Definition fnOf (l : EventEmitter.Listener) : nat :=
  match l with
  | EventEmitter.Fn f => f
  | EventEmitter.OnceListener _ _ f => f
  end.

(** A listener that is still registered after it has been called with
    [args]: every listener but a wrapper of [once] whose function returns. *)
Definition stays {Args : Type} (throws : nat -> Args -> bool) (args : Args)
    (l : EventEmitter.Listener) : bool :=
  match l with
  | EventEmitter.Fn _ => true
  | EventEmitter.OnceListener _ _ f => throws f args
  end.

(** The Sets of an emitter hold no listener twice, and a wrapper of [once]
    is registered for the event it closes over and was created before. *)
Definition emitterInv {Args : Type} (e : EventEmitter.t Args) : Prop :=
  forall event ls,
    EventEmitter.listeners e !! event = Some ls ->
    NoDup ls
    /\ forall k ev f, EventEmitter.OnceListener k ev f ∈ ls ->
                      ev = event /\ (k < EventEmitter.created e)%nat.

End UtilityTerms.
(** * Properties *)

(** ** Sending to every peer *)

Section Broadcast.
Import PeerService.

Lemma fold_send_closed (d : PeerData) (l : list ConnectedPeer) (s : t) :
  fold_left (fun acc p => send (conn p) d acc) l s
  = mk (hostConnectionRef s) (peersRef s) (peers s) (latestMessage s)
       (triggerEvents s) (wire s ++ map (fun p => (conn p, d)) l).
Proof.
  revert s. induction l as [|p l IH]; intros s; simpl.
  - rewrite app_nil_r. by destruct s.
  - rewrite IH. simpl. by rewrite <- app_assoc.
Qed.

Lemma broadcastState_closed (state : string) (raceId : option string) (s : t) :
  broadcastState state raceId s
  = mk (hostConnectionRef s) (peersRef s) (peers s) (latestMessage s)
       (triggerEvents s)
       (wire s ++ map (fun p => (conn p, msgStateChange state raceId)) (peersRef s)).
Proof. apply fold_send_closed. Qed.

Lemma broadcastReset_closed (s : t) :
  broadcastReset s
  = mk (hostConnectionRef s) (peersRef s) (peers s) (latestMessage s) []
       (wire s ++ map (fun p => (conn p, msgReset)) (peersRef s)).
Proof. unfold broadcastReset, sendReset. by rewrite fold_send_closed. Qed.

End Broadcast.

(** ** Role assignment *)

Section Roles.
Import PeerService.

Lemma assignRole_peersRef (peerId : string) (r : Role) (s : t) :
  peersRef (assignRole peerId r s)
  = map (fun p => if decide (id p = peerId) then withRole r p else p) (peersRef s).
Proof. unfold assignRole. simpl. by case_match. Qed.

Lemma assignRole_synced (peerId : string) (r : Role) (s : t) :
  synced (assignRole peerId r s).
Proof. unfold synced, assignRole. simpl. by case_match. Qed.

Lemma clear_fold_peersRef (peerId : string) (r : Role)
    (l : list ConnectedPeer) (w : HostView.World) :
  peersRef (HostView.peerService (fold_left (clearStep peerId r) l w))
  = map (clearIds (toClear peerId r l)) (peersRef (HostView.peerService w)).
Proof.
  revert w. induction l as [|q l IH]; intros w; simpl.
  - unfold clearIds. rewrite <- (map_id (peersRef _)) at 1.
    apply map_ext. intros p. case_decide as H; [|done].
    unfold toClear in H. simpl in H. by apply elem_of_nil in H.
  - rewrite IH. unfold clearStep, toClear.
    rewrite filter_cons.
    destruct (decide (role q = r /\ id q <> peerId)) as [[Hr Hi]|Hn].
    + rewrite !bool_decide_true by done. simpl.
      rewrite assignRole_peersRef, map_map. apply map_ext. intros p.
      unfold clearIds. destruct (decide (id p = id q)) as [E|E].
      * simpl. case_decide; case_decide as H2; try done;
          exfalso; apply H2; rewrite E; left.
      * case_decide as H1; case_decide as H2; try done.
        -- exfalso. apply H2. by right.
        -- exfalso. apply elem_of_cons in H2 as [H2|H2]; [done|]. by apply H1.
    + assert (bool_decide (role q = r) && bool_decide (id q <> peerId) = false) as ->.
      { apply andb_false_iff.
        destruct (decide (role q = r)); destruct (decide (id q <> peerId));
          try (exfalso; apply Hn; done).
        - right. by apply bool_decide_eq_false.
        - left. by apply bool_decide_eq_false.
        - left. by apply bool_decide_eq_false. }
      done.
Qed.

Lemma clear_fold_synced (peerId : string) (r : Role)
    (l : list ConnectedPeer) (w : HostView.World) :
  synced (HostView.peerService w) ->
  synced (HostView.peerService (fold_left (clearStep peerId r) l w)).
Proof.
  revert w. induction l as [|q l IH]; intros w Hs; simpl; [done|].
  apply IH. unfold clearStep. case_match; [|done].
  simpl. apply assignRole_synced.
Qed.

Lemma NoDup_ids_inj (l : list ConnectedPeer) (p q : ConnectedPeer) :
  NoDup (map id l) -> p ∈ l -> q ∈ l -> id p = id q -> p = q.
Proof.
  induction l as [|x l IH]; intros Hnd Hp Hq E.
  - by apply elem_of_nil in Hp.
  - simpl in Hnd. apply NoDup_cons in Hnd as [Hx Hnd].
    apply elem_of_cons in Hp as [->|Hp]; apply elem_of_cons in Hq as [->|Hq].
    + done.
    + exfalso. apply Hx. rewrite E. apply (list_elem_of_fmap_2 id) in Hq. done.
    + exfalso. apply Hx. rewrite <- E. apply (list_elem_of_fmap_2 id) in Hp. done.
    + by apply IH.
Qed.

Lemma setRole_peersRef (peerId : string) (r : Role) (w : HostView.World) :
  synced (HostView.peerService w) ->
  NoDup (map id (peersRef (HostView.peerService w))) ->
  peersRef (HostView.peerService (HostView.setRole peerId r w))
  = map (reassign peerId r) (peersRef (HostView.peerService w)).
Proof.
  intros Hs Hnd. unfold HostView.setRole. simpl.
  rewrite assignRole_peersRef.
  change (fold_left _ ?l ?w) with (fold_left (clearStep peerId r) l w).
  rewrite clear_fold_peersRef, map_map. unfold synced in Hs. rewrite Hs.
  apply map_ext_in. intros p Hp. apply list_elem_of_In in Hp.
  unfold reassign, clearIds.
  destruct (decide (id p ∈ toClear peerId r (peersRef (HostView.peerService w))))
    as [H1|H1]; simpl;
    destruct (decide (id p = peerId)) as [E|E]; try done.
  - unfold toClear in H1. apply list_elem_of_fmap_1 in H1 as (q & Eq & Hq).
    apply list_elem_of_filter in Hq as [[Hr Hi] Hq].
    assert (p = q) as <- by (eapply NoDup_ids_inj; eauto).
    by rewrite decide_True.
  - case_decide as H2; [|done].
    exfalso. apply H1. unfold toClear.
    apply (list_elem_of_fmap_2 id). apply list_elem_of_filter. done.
Qed.

Lemma setRole_clearOthers (peerId : string) (r : Role) (w : HostView.World) :
  HostView.setRole peerId r w
  = HostView.onPeer (assignRole peerId r) (clearOthers peerId r w).
Proof. reflexivity. Qed.

Lemma clearOthers_cleared (peerId : string) (r : Role) (w : HostView.World)
    (p : ConnectedPeer) :
  synced (HostView.peerService w) ->
  r <> NONE ->
  p ∈ peersRef (HostView.peerService (clearOthers peerId r w)) ->
  role p = r -> id p = peerId.
Proof.
  intros Hs Hr Hp Hrole. unfold clearOthers in Hp.
  rewrite clear_fold_peersRef in Hp. unfold synced in Hs. rewrite Hs in Hp.
  apply list_elem_of_fmap_1 in Hp as (x & -> & Hx).
  unfold clearIds in *. case_decide as Hin; simpl in *; [congruence|].
  destruct (decide (id x = peerId)) as [E|E]; [done|].
  exfalso. apply Hin. unfold toClear.
  apply (list_elem_of_fmap_2 id). apply list_elem_of_filter. done.
Qed.

Lemma setRole_synced (peerId : string) (r : Role) (w : HostView.World) :
  synced (HostView.peerService (HostView.setRole peerId r w)).
Proof. unfold HostView.setRole. simpl. apply assignRole_synced. Qed.

Lemma reassign_ids (peerId : string) (r : Role) (l : list ConnectedPeer) :
  map id (map (reassign peerId r) l) = map id l.
Proof.
  rewrite map_map. apply map_ext. intros p. unfold reassign.
  repeat case_decide; done.
Qed.

End Roles.

Section Exclusivity.
Import PeerService.

Lemma length_filter_map_le {A : Type} (P Q : A -> Prop)
    `{!forall x, Decision (P x)} `{!forall x, Decision (Q x)}
    (f : A -> A) (l : list A) :
  (forall x, Q (f x) -> P x) ->
  (length (filter Q (map f l)) <= length (filter P l))%nat.
Proof.
  intros Hf. induction l as [|x l IH]; simpl; [done|].
  rewrite !filter_cons.
  destruct (decide (Q (f x))) as [Hq|Hq].
  - rewrite decide_True by auto. simpl. lia.
  - case_decide; simpl; lia.
Qed.

Lemma filter_id_absent (peerId : string) (l : list ConnectedPeer) :
  peerId ∉ map id l -> filter (fun p => id p = peerId) l = [].
Proof.
  induction l as [|x l IH]; intros Hn; [done|].
  rewrite filter_cons. simpl in Hn.
  rewrite decide_False.
  - apply IH. intros H. apply Hn. by right.
  - intros E. apply Hn. rewrite E. left.
Qed.

Lemma NoDup_ids_one (peerId : string) (l : list ConnectedPeer) :
  NoDup (map id l) ->
  (length (filter (fun p => id p = peerId) l) <= 1)%nat.
Proof.
  induction l as [|x l IH]; intros Hnd; simpl; [lia|].
  simpl in Hnd. apply NoDup_cons in Hnd as [Hx Hnd].
  rewrite filter_cons. case_decide as E.
  - rewrite filter_id_absent by (by rewrite <- E). simpl. lia.
  - by apply IH.
Qed.

Lemma reassign_holders (peerId : string) (r r0 : Role) (l : list ConnectedPeer) :
  r0 <> NONE ->
  NoDup (map id l) ->
  (length (holders r0 l) <= 1)%nat ->
  (length (holders r0 (map (reassign peerId r) l)) <= 1)%nat.
Proof.
  intros Hr0 Hnd Hone. unfold holders.
  destruct (decide (r0 = r)) as [->|Hne].
  - etrans; [|apply (NoDup_ids_one peerId l Hnd)].
    apply length_filter_map_le. intros p. unfold reassign.
    repeat case_decide; simpl; congruence.
  - etrans; [|exact Hone].
    apply length_filter_map_le. intros p. unfold reassign.
    repeat case_decide; simpl; congruence.
Qed.

Lemma setRole_registryInv (peerId : string) (r : Role) (w : HostView.World) :
  registryInv w -> registryInv (HostView.setRole peerId r w).
Proof.
  intros (Hs & Hnd & Hs1 & Hs2). repeat split.
  - apply setRole_synced.
  - rewrite setRole_peersRef by done. by rewrite reassign_ids.
  - rewrite setRole_peersRef by done. by apply reassign_holders.
  - rewrite setRole_peersRef by done. by apply reassign_holders.
Qed.

Lemma setRoles_registryInv (ops : list (string * Role)) (w : HostView.World) :
  registryInv w -> registryInv (setRoles ops w).
Proof.
  revert w. induction ops as [|[peerId r] ops IH]; intros w Hw; [done|].
  simpl. apply IH. by apply setRole_registryInv.
Qed.

(** C1, counterexample: [assignRole] on its own sets the target's role and
    leaves the peer that held the role as it was; after assigning START to
    1111 and then to 2222 both hold START. *)
Lemma assignRole_keeps_other_holder :
  let s := assignRole "2222" START (assignRole "1111" START lobby2) in
  map (fun p => (id p, role p)) (peersRef s) = [("1111"%string, START); ("2222"%string, START)]
  /\ ~ exclusive (peersRef s).
Proof.
  split; [reflexivity|].
  intros [H _]. vm_compute in H. lia.
Qed.

(** C1, amended: the exclusivity is established by HostView's [setRole],
    the operation the host issues.  From a registry with distinct peer ids
    in which at most one peer holds START and at most one FINISH, every
    sequence of [setRole] calls leads to such a registry again.  A further
    [setRole peerId r] first clears: when it comes to its final
    [assignRole], no entry other than those of [peerId] holds [r]; in the
    end it has given [r] to [peerId], set every other entry that held [r]
    to NONE and left the rest. *)
Theorem setRole_role_exclusivity (ops : list (string * Role)) (w : HostView.World) :
  synced (HostView.peerService w) ->
  NoDup (map id (peersRef (HostView.peerService w))) ->
  exclusive (peersRef (HostView.peerService w)) ->
  let w' := setRoles ops w in
  exclusive (peersRef (HostView.peerService w'))
  /\ forall peerId r,
       HostView.setRole peerId r w'
       = HostView.onPeer (assignRole peerId r) (clearOthers peerId r w')
       /\ (r <> NONE ->
           forall p, p ∈ peersRef (HostView.peerService (clearOthers peerId r w')) ->
                     role p = r -> id p = peerId)
       /\ peersRef (HostView.peerService (HostView.setRole peerId r w'))
          = map (reassign peerId r) (peersRef (HostView.peerService w')).
Proof.
  intros Hs Hnd Hex w'.
  destruct (setRoles_registryInv ops w) as (Hs' & Hnd' & Hex'); [done|].
  split; [done|]. intros peerId r. split; [reflexivity|]. split.
  - intros Hr p Hp Hrole. by eapply clearOthers_cleared.
  - by apply setRole_peersRef.
Qed.

Example setRoles_ops3 :
  map (fun p => (id p, role p))
      (peersRef (HostView.peerService (setRoles ops3 lobbyWorld)))
  = [("1111"%string, FINISH); ("2222"%string, START)].
Proof. reflexivity. Qed.

Lemma setRole_role_exclusivity_witness :
  synced (HostView.peerService lobbyWorld)
  /\ NoDup (map id (peersRef (HostView.peerService lobbyWorld)))
  /\ exclusive (peersRef (HostView.peerService lobbyWorld))
  /\ (exclusive (peersRef (HostView.peerService (setRoles ops3 lobbyWorld)))
      /\ forall peerId r,
           HostView.setRole peerId r (setRoles ops3 lobbyWorld)
           = HostView.onPeer (assignRole peerId r)
                             (clearOthers peerId r (setRoles ops3 lobbyWorld))
           /\ (r <> NONE ->
               forall p,
                 p ∈ peersRef (HostView.peerService
                                 (clearOthers peerId r (setRoles ops3 lobbyWorld))) ->
                 role p = r -> id p = peerId)
           /\ peersRef (HostView.peerService
                          (HostView.setRole peerId r (setRoles ops3 lobbyWorld)))
              = map (reassign peerId r)
                    (peersRef (HostView.peerService (setRoles ops3 lobbyWorld)))).
Proof.
  assert (Hs : synced (HostView.peerService lobbyWorld)) by reflexivity.
  assert (Hnd : NoDup (map id (peersRef (HostView.peerService lobbyWorld))))
    by compute_done.
  assert (Hex : exclusive (peersRef (HostView.peerService lobbyWorld)))
    by (split; vm_compute; lia).
  split; [exact Hs|]. split; [exact Hnd|]. split; [exact Hex|].
  exact (setRole_role_exclusivity ops3 lobbyWorld Hs Hnd Hex).
Defined.

End Exclusivity.

(** ** Sending without a host connection *)

Section Unconnected.

(** C9: without a host connection, [sendTrigger] and [sendToHostInternal]
    of the provider, and [sendTrigger] and [sendToHost] of the hook the
    gate uses, return the state they were given: nothing is sent and
    nothing else changes.  The operations are total: no error arises. *)
Theorem sendTrigger_unconnected_noop
    (s : PeerService.t) (g : LegacyPeer.t)
    (r : Role) (r' : option Role) (timestamp : Z) (raceId : option string)
    (data : PeerData) :
  PeerService.hostConnectionRef s = None ->
  LegacyPeer.hostConnection g = None ->
  PeerService.sendTrigger r timestamp raceId s = s
  /\ PeerService.sendToHostInternal data s = s
  /\ LegacyPeer.sendTrigger r' timestamp g = g
  /\ LegacyPeer.sendToHost data g = g.
Proof.
  intros Hs Hg.
  unfold PeerService.sendTrigger, PeerService.sendToHostInternal,
    LegacyPeer.sendTrigger, LegacyPeer.sendToHost.
  by rewrite Hs, Hg.
Qed.

Lemma sendTrigger_unconnected_noop_witness :
  PeerService.hostConnectionRef PeerService.init = None
  /\ LegacyPeer.hostConnection LegacyPeer.init = None
  /\ (PeerService.sendTrigger START 1000 None PeerService.init = PeerService.init
      /\ PeerService.sendToHostInternal (msgJoin "Start Gate") PeerService.init
         = PeerService.init
      /\ LegacyPeer.sendTrigger (Some START) 1000 LegacyPeer.init = LegacyPeer.init
      /\ LegacyPeer.sendToHost (msgJoin "Start Gate") LegacyPeer.init
         = LegacyPeer.init).
Proof.
  split; [reflexivity|]. split; [reflexivity|].
  apply (sendTrigger_unconnected_noop PeerService.init LegacyPeer.init
           START (Some START) 1000 None (msgJoin "Start Gate"));
    reflexivity.
Defined.

(** With a connection the trigger does go out. *)
Example sendTrigger_connected :
  PeerService.wire
    (PeerService.sendTrigger START 1000 None
       (PeerService.set_hostConnectionRef (Some gateA) PeerService.init))
  = [(gateA, msgTrigger START 1000 None)].
Proof. reflexivity. Qed.

End Unconnected.

(** ** Arming *)

Section Arming.
Import HostView.

Lemma click_arm_disabled (w : World) :
  canStart w = false -> click "Arm System" w = w.
Proof.
  intros Hc. unfold click, controls. rewrite Hc.
  destruct (raceState (view w));
    destruct (0 <? Z.of_nat (length (PeerService.peers (peerService w))));
    reflexivity.
Qed.

Lemma click_arm_not_rendered (w : World) :
  raceState (view w) <> IDLE -> raceState (view w) <> FINISHED ->
  click "Arm System" w = w.
Proof.
  intros H1 H2. unfold click, controls.
  destruct (raceState (view w)); try done;
    destruct (0 <? Z.of_nat (length (PeerService.peers (peerService w))));
    reflexivity.
Qed.

Lemma click_arm_enabled (w : World) :
  canStart w = true ->
  raceState (view w) = IDLE \/ raceState (view w) = FINISHED ->
  click "Arm System" w = armSystem w.
Proof.
  intros Hc [H|H]; unfold click, controls; rewrite Hc, H; reflexivity.
Qed.

Lemma armSystem_effect (w : World) :
  let w' := armSystem w in
  raceState (view w') = ARMED
  /\ elapsedTime (view w') = 0
  /\ PeerService.wire (peerService w')
     = PeerService.wire (peerService w)
       ++ map (fun p => (PeerService.conn p, msgStateChange "ARMED" (currentRace w)))
              (PeerService.peersRef (peerService w)).
Proof.
  unfold armSystem, updateRaceStatus. simpl.
  destruct (currentRace w); simpl; rewrite broadcastState_closed; done.
Qed.

(** C2, counterexample: [armSystem] has no guard of its own.  With no
    peer holding START it arms, resets the elapsed time and broadcasts. *)
Lemma armSystem_unguarded :
  canStart finishedNoStart = false
  /\ raceState (view (armSystem finishedNoStart)) = ARMED
  /\ elapsedTime (view finishedNoStart) = 4000
  /\ elapsedTime (view (armSystem finishedNoStart)) = 0
  /\ PeerService.wire (peerService (armSystem finishedNoStart))
     = [(gateA, msgStateChange "ARMED" None); (gateB, msgStateChange "ARMED" None)].
Proof. repeat split; reflexivity. Qed.

(** C2, amended: the precondition is enforced by the control that calls
    [armSystem].  The Arm System button is rendered only in IDLE and
    FINISHED and is disabled unless a peer holds START; clicking it when
    no peer holds START, or in ARMED or RUNNING, leaves everything as it
    was: status, elapsed time, and the messages sent. *)
Theorem arm_button_precondition (w : World) :
  canStart w = false
  \/ (raceState (view w) <> IDLE /\ raceState (view w) <> FINISHED) ->
  click "Arm System" w = w.
Proof.
  intros [H|[H1 H2]].
  - by apply click_arm_disabled.
  - by apply click_arm_not_rendered.
Qed.

Lemma arm_button_precondition_witness :
  canStart finishedNoStart = false
  /\ click "Arm System" finishedNoStart = finishedNoStart.
Proof.
  split; [reflexivity|].
  apply (arm_button_precondition finishedNoStart). left. reflexivity.
Defined.

End Arming.

(** ** Triggers at the host *)

Section Triggers.
Import HostView.

Lemma handleTrigger_ignored (w : World) (role : option Role) (ts : option Z) :
  matchesExpected (raceState (view w)) role = false ->
  ~ (raceState (view w) = RUNNING /\ roleOf role = SPLIT) ->
  handleTrigger role ts w = w.
Proof.
  intros Hm Hs. unfold handleTrigger.
  destruct (raceState (view w)) eqn:E; destruct role as [[]|]; simpl in *;
    try done; exfalso; by apply Hs.
Qed.

Lemma handleTrigger_split (w : World) (role : option Role) (ts : option Z) :
  raceState (view w) = RUNNING ->
  roleOf role = SPLIT ->
  handleTrigger role ts w
  = mkWorld (peerService w)
      (mkView (raceState (view w)) (startTime (view w)) (elapsedTime (view w))
              (timerInterval (view w)) (preciseTime (view w))
              (<[pretty (clock w (S (reads w))) := clock w (reads w) - startTime (view w)]>
                 (splitTimes (view w))))
      (clock w) (S (S (reads w))) (intervals w) (nextTimer w) (currentRace w)
      (dbLog w).
Proof.
  intros E Hr. destruct w as [ps [rs st el ti pt sp] clk n iv nt cr db].
  simpl in E. subst rs. destruct role as [[]|]; try discriminate Hr; reflexivity.
Qed.

(** C3: a TRIGGER whose role is not the one the current status waits for
    (START when ARMED, FINISH when RUNNING) leaves status, start time,
    elapsed time, the sampler handle and the live timers as they were, sends
    nothing and writes nothing to the database; unless its role reads as
    [GateRole.SPLIT] during RUNNING the whole world is unchanged.
    [handleTrigger] is total, so no error arises.  In particular FINISH
    while ARMED changes nothing. *)
Theorem trigger_ordering_guard (w : World) (role : option Role) (ts : option Z) :
  matchesExpected (raceState (view w)) role = false ->
  let w' := handleTrigger role ts w in
  raceState (view w') = raceState (view w)
  /\ startTime (view w') = startTime (view w)
  /\ elapsedTime (view w') = elapsedTime (view w)
  /\ timerInterval (view w') = timerInterval (view w)
  /\ intervals w' = intervals w
  /\ peerService w' = peerService w
  /\ dbLog w' = dbLog w
  /\ (~ (raceState (view w) = RUNNING /\ roleOf role = SPLIT) -> w' = w)
  /\ (raceState (view w) = ARMED -> handleTrigger (Some FINISH) ts w = w).
Proof.
  intros Hm w'.
  destruct (decide (raceState (view w) = RUNNING /\ roleOf role = SPLIT)) as [[E Hr]|Hn].
  - subst w'. rewrite handleTrigger_split by done. simpl.
    repeat split; try done.
    + intros Hn. exfalso. by apply Hn.
    + intros E'. congruence.
  - subst w'. rewrite handleTrigger_ignored by done.
    repeat split; try done.
    intros E. apply handleTrigger_ignored; [by rewrite E|]. intros [E' _]. congruence.
Qed.

Example armedWorld_status :
  raceState (view armedWorld) = ARMED /\ raceState (view runningWorld) = RUNNING
  /\ startTime (view runningWorld) = 1000
  /\ timerInterval (view runningWorld) = Some 1%positive.
Proof. repeat split; reflexivity. Qed.

Lemma trigger_ordering_guard_witness :
  matchesExpected (raceState (view armedWorld)) (Some FINISH) = false
  /\ handleTrigger (Some FINISH) (Some 5000) armedWorld = armedWorld.
Proof.
  split; [reflexivity|].
  pose proof (trigger_ordering_guard armedWorld (Some FINISH) (Some 5000) eq_refl)
    as H.
  apply H. reflexivity.
Defined.

(** Two triggers with the role [GateRole.SPLIT] while the clock reads the
    same millisecond: the second one appends nothing, it overwrites the
    entry of the first. *)
Lemma split_same_reading_overwrites :
  let w1 := handleTrigger (Some SPLIT) (Some 3000) sameMsWorld in
  let w2 := handleTrigger (Some SPLIT) (Some 3001) w1 in
  raceState (view sameMsWorld) = RUNNING
  /\ map_to_list (splitTimes (view w1)) = [("1002"%string, 1)]
  /\ map_to_list (splitTimes (view w2)) = [("1002"%string, 2)]
  /\ size (splitTimes (view w2)) = size (splitTimes (view w1)).
Proof. vm_compute. repeat split; reflexivity. Qed.

(** C10: a trigger that [handleTrigger] receives during RUNNING with the
    role [GateRole.SPLIT] keeps the race running: status, sampler handle,
    live timers, start time, elapsed time, the peer service and the
    database log are as before.  Its one effect on the state is that the
    split-times record gets, under the key [Date.now().toString()], the
    value [Date.now() - startTime]: the record grows by one entry when the
    key is new, and keeps its size, the entry of that key replaced, when
    it is not. *)
Theorem split_trigger_preserves_race (w : World) (role : option Role) (ts : option Z) :
  raceState (view w) = RUNNING ->
  roleOf role = SPLIT ->
  let w' := handleTrigger role ts w in
  let key := pretty (clock w (S (reads w))) in
  let splitTime := clock w (reads w) - startTime (view w) in
  raceState (view w') = RUNNING
  /\ timerInterval (view w') = timerInterval (view w)
  /\ intervals w' = intervals w
  /\ startTime (view w') = startTime (view w)
  /\ elapsedTime (view w') = elapsedTime (view w)
  /\ preciseTime (view w') = preciseTime (view w)
  /\ peerService w' = peerService w
  /\ dbLog w' = dbLog w
  /\ splitTimes (view w') = <[key := splitTime]> (splitTimes (view w))
  /\ splitTimes (view w') !! key = Some splitTime
  /\ (forall k, k <> key -> splitTimes (view w') !! k = splitTimes (view w) !! k)
  /\ size (splitTimes (view w'))
     = match splitTimes (view w) !! key with
       | None => S (size (splitTimes (view w)))
       | Some _ => size (splitTimes (view w))
       end.
Proof.
  intros E Hr w' key splitTime. subst w'. rewrite handleTrigger_split by done.
  cbn [view raceState timerInterval intervals startTime elapsedTime preciseTime
       peerService dbLog splitTimes].
  fold key splitTime.
  repeat split; try done.
  - apply lookup_insert_eq.
  - intros k Hk. by rewrite lookup_insert_ne.
  - rewrite map_size_insert. by destruct (splitTimes (view w) !! key).
Qed.

Lemma split_trigger_preserves_race_witness :
  raceState (view runningWorld) = RUNNING
  /\ roleOf (Some SPLIT) = SPLIT
  /\ raceState (view (handleTrigger (Some SPLIT) (Some 3000) runningWorld)) = RUNNING
  /\ splitTimes (view (handleTrigger (Some SPLIT) (Some 3000) runningWorld))
     = <[pretty (clock runningWorld (S (reads runningWorld)))
         := clock runningWorld (reads runningWorld) - startTime (view runningWorld)]>
         (splitTimes (view runningWorld)).
Proof.
  split; [reflexivity|]. split; [reflexivity|].
  pose proof (split_trigger_preserves_race runningWorld (Some SPLIT) (Some 3000)
                eq_refl eq_refl) as H.
  split; [apply H|apply H].
Defined.

Example split_recorded :
  map_to_list (splitTimes (view (handleTrigger (Some SPLIT) (Some 3000) runningWorld)))
  = [("1014"%string, 7)].
Proof. vm_compute. reflexivity. Qed.

(** A TRIGGER whose payload has no role is taken for a split, one whose
    role is the string of another gate role is not. *)
Example split_by_missing_role :
  map_to_list (splitTimes (view (handleTrigger None (Some 3000) runningWorld)))
  = [("1014"%string, 7)]
  /\ handleTrigger (Some NONE) (Some 3000) runningWorld = runningWorld.
Proof. split; vm_compute; reflexivity. Qed.

(** The FINISH branch of [handleTrigger]. *)
Lemma handleTrigger_finish (w : World) (ts : option Z) :
  raceState (view w) = RUNNING ->
  let w' := handleTrigger (Some FINISH) ts w in
  timerInterval (view w') = None
  /\ intervals w'
     = match timerInterval (view w) with
       | Some h => delete h (intervals w)
       | None => intervals w
       end
  /\ (samplerInv w -> intervals w' = ∅)
  /\ elapsedTime (view w') = clock w (reads w) - startTime (view w)
  /\ raceState (view w') = FINISHED
  /\ PeerService.wire (peerService w')
     = PeerService.wire (peerService w)
       ++ map (fun p => (PeerService.conn p, msgStateChange "LOBBY" None))
              (PeerService.peersRef (peerService w)).
Proof.
  intros E w'. subst w'.
  destruct w as [ps [rs st el ti pt sp] clk n iv nt cr db]. simpl in E. subst rs.
  unfold handleTrigger, samplerInv, stopTimer, updateRaceStatus. simpl.
  destruct ti as [h|]; destruct cr; simpl; rewrite broadcastState_closed; simpl;
    (repeat split; try done).
  all: intros (h' & Hh & Hi); try discriminate.
  all: injection Hh as <-; rewrite Hi; apply delete_singleton_eq.
Qed.

(** C5: FINISH while RUNNING stops the sampler (the handle is dropped and
    its interval cleared; under the sampler invariant no interval is left),
    sets the elapsed time to the host's current time minus the recorded
    start time, moves to FINISHED, and sends STATE_CHANGE("LOBBY") to every
    registered peer. *)
Theorem finish_transition (w : World) (ts : option Z) :
  raceState (view w) = RUNNING ->
  let w' := handleTrigger (Some FINISH) ts w in
  timerInterval (view w') = None
  /\ intervals w'
     = match timerInterval (view w) with
       | Some h => delete h (intervals w)
       | None => intervals w
       end
  /\ (samplerInv w -> intervals w' = ∅)
  /\ elapsedTime (view w') = clock w (reads w) - startTime (view w)
  /\ raceState (view w') = FINISHED
  /\ PeerService.wire (peerService w')
     = PeerService.wire (peerService w)
       ++ map (fun p => (PeerService.conn p, msgStateChange "LOBBY" None))
              (PeerService.peersRef (peerService w)).
Proof. intros E. by apply handleTrigger_finish. Qed.

Lemma finish_transition_witness :
  raceState (view runningWorld) = RUNNING
  /\ raceState (view (handleTrigger (Some FINISH) (Some 5000) runningWorld)) = FINISHED
  /\ elapsedTime (view (handleTrigger (Some FINISH) (Some 5000) runningWorld)) = 7.
Proof.
  split; [reflexivity|].
  pose proof (finish_transition runningWorld (Some 5000) eq_refl) as H.
  split; [apply H|].
  destruct H as (_ & _ & _ & H & _). rewrite H. reflexivity.
Defined.

End Triggers.

(** ** The elapsed-time sampler *)

Section Sampler.
Import HostView.

Lemma clear_fold_frame (peerId : string) (r : Role)
    (l : list PeerService.ConnectedPeer) (w : World) :
  exists s', fold_left (clearStep peerId r) l w = onPeer (fun _ => s') w.
Proof.
  revert w. induction l as [|q l IH]; intros w; simpl.
  - exists (peerService w). by destruct w.
  - destruct (IH (clearStep peerId r w q)) as [s' Hs']. exists s'.
    rewrite Hs'. unfold clearStep. by case_match.
Qed.

Lemma setRole_frame (peerId : string) (r : Role) (w : World) :
  exists s', setRole peerId r w = onPeer (fun _ => s') w.
Proof.
  unfold setRole.
  change (fold_left _ ?l ?w0) with (fold_left (clearStep peerId r) l w0).
  destruct (clear_fold_frame peerId r (PeerService.peers (peerService w)) w)
    as [s' ->].
  by eexists.
Qed.

Lemma assignFirstUnassigned_frame (r : Role) (w : World) :
  exists s', assignFirstUnassigned r w = onPeer (fun _ => s') w.
Proof.
  unfold assignFirstUnassigned. case_match.
  - apply setRole_frame.
  - exists (peerService w). by destruct w.
Qed.

Lemma click_cases (l : string) (w : World) :
  click l w = w
  \/ (click l w = armSystem w
      /\ (raceState (view w) = IDLE \/ raceState (view w) = FINISHED)
      /\ canStart w = true)
  \/ (click l w = cancelRace w
      /\ (raceState (view w) = ARMED \/ raceState (view w) = RUNNING))
  \/ (exists r, click l w = assignFirstUnassigned r w)
  \/ click l w = onPeer PeerService.broadcastReset w.
Proof.
  unfold click, controls.
  destruct (raceState (view w)) eqn:E;
    destruct (0 <? Z.of_nat (length (PeerService.peers (peerService w))));
    destruct (canStart w) eqn:Ec; destruct (noneUnassigned w); simpl;
    repeat (case_bool_decide; simpl); eauto 10.
Qed.

Lemma samplerInv_onPeer (f : PeerService.t -> PeerService.t) (w : World) :
  samplerInv w -> samplerInv (onPeer f w).
Proof. done. Qed.

Lemma samplerInv_armSystem (w : World) :
  raceState (view w) = IDLE \/ raceState (view w) = FINISHED ->
  samplerInv w -> samplerInv (armSystem w).
Proof.
  unfold samplerInv, armSystem, updateRaceStatus.
  intros [E|E]; rewrite E; simpl; destruct (currentRace w); done.
Qed.

Lemma cancelRace_clears (w : World) :
  samplerInv w ->
  let w' := cancelRace w in
  raceState (view w') = IDLE /\ timerInterval (view w') = None /\ intervals w' = ∅.
Proof.
  destruct w as [ps [rs st el ti pt sp] clk n iv nt cr db].
  unfold samplerInv, cancelRace, stopTimer, updateRaceStatus. simpl.
  destruct rs; simpl.
  1,2,4: intros [-> ->]; destruct cr; done.
  intros (h & -> & ->). destruct cr; simpl; (repeat split; try done);
    apply delete_singleton_eq.
Qed.

Lemma samplerInv_cancelRace (w : World) :
  samplerInv w -> samplerInv (cancelRace w).
Proof.
  intros H. destruct (cancelRace_clears w H) as (E & Ht & Hi).
  unfold samplerInv. by rewrite E.
Qed.

Lemma samplerInv_handleTrigger (role : option Role) (ts : option Z) (w : World) :
  samplerInv w -> samplerInv (handleTrigger role ts w).
Proof.
  destruct w as [ps [rs st el ti pt sp] clk n iv nt cr db].
  unfold samplerInv, handleTrigger, startTimer, stopTimer, updateRaceStatus. simpl.
  destruct rs; destruct role as [[]|]; simpl; try done.
  - intros [-> ->]. destruct cr; simpl; eexists; split; try done.
  - intros (h & -> & ->). destruct cr; simpl; split; try done;
      apply delete_singleton_eq.
Qed.

Lemma samplerInv_tick (h : positive) (w : World) :
  samplerInv w -> samplerInv (tick h w).
Proof. unfold tick. by case_match. Qed.

Lemma samplerInv_click (l : string) (w : World) :
  samplerInv w -> samplerInv (click l w).
Proof.
  intros H.
  destruct (click_cases l w) as [-> | [(-> & E & _) | [(-> & _) | [(r & ->) | ->]]]].
  - done.
  - by apply samplerInv_armSystem.
  - by apply samplerInv_cancelRace.
  - destruct (assignFirstUnassigned_frame r w) as [s' ->]. done.
  - done.
Qed.

Lemma samplerInv_step (e : Event) (w : World) :
  samplerInv w -> samplerInv (step e w).
Proof.
  intros H. destruct e as [c|c data|c|l|h]; simpl.
  - done.
  - assert (samplerInv (onLatestMessage (onPeer (PeerService.onData c data) w))).
    { unfold onLatestMessage. repeat case_match; try done.
      all: by apply samplerInv_handleTrigger. }
    by case_match.
  - done.
  - by apply samplerInv_click.
  - by apply samplerInv_tick.
Qed.

Lemma samplerInv_run (evs : list Event) (w : World) :
  samplerInv w -> samplerInv (run evs w).
Proof.
  revert w. induction evs as [|e evs IH]; intros w H; [done|].
  simpl. apply IH. by apply samplerInv_step.
Qed.

(** C7: in every world the host reaches from its initial state (peers
    connecting, sending and leaving, operator clicks, sampler ticks) the
    sampler invariant holds: outside RUNNING no interval timer is live and
    no handle is held.  The two ways out clear it: a FINISH trigger in
    RUNNING leads to FINISHED with no live timer, and [cancelRace] leads to
    IDLE with no live timer. *)
Theorem sampler_cleanup_invariant (clk : nat -> Z) (race : option string)
    (evs : list Event) :
  let w := run evs (initWorld clk race) in
  samplerInv w
  /\ (raceState (view w) <> RUNNING ->
      intervals w = ∅ /\ timerInterval (view w) = None)
  /\ (raceState (view w) = RUNNING ->
      forall ts,
        raceState (view (handleTrigger (Some FINISH) ts w)) = FINISHED
        /\ timerInterval (view (handleTrigger (Some FINISH) ts w)) = None
        /\ intervals (handleTrigger (Some FINISH) ts w) = ∅)
  /\ (raceState (view (cancelRace w)) = IDLE
      /\ timerInterval (view (cancelRace w)) = None
      /\ intervals (cancelRace w) = ∅).
Proof.
  intros w.
  assert (Hinv : samplerInv w) by (apply samplerInv_run; done).
  split; [done|]. split; [|split].
  - intros Hn. unfold samplerInv in Hinv.
    destruct (raceState (view w)); try done; by destruct Hinv.
  - intros E ts.
    destruct (handleTrigger_finish w ts E) as (Ht & _ & Hi & _ & Hf & _).
    auto.
  - by apply cancelRace_clears.
Qed.

Lemma sampler_cleanup_invariant_witness :
  let clk := fun k => 1000 + 7 * Z.of_nat k in
  let evs := [ConnOpen gateA; ConnOpen gateB; Click "Set Start"; Click "Set Finish";
              Click "Arm System"; ConnData gateA (msgTrigger START 1000 None);
              Tick 1%positive] in
  let w := run evs (initWorld clk (Some "race-1"%string)) in
  raceState (view w) = RUNNING
  /\ elapsedTime (view w) = 7
  /\ intervals (handleTrigger (Some FINISH) (Some 5000) w) = ∅
  /\ intervals (cancelRace w) = ∅.
Proof.
  intros clk evs w.
  pose proof (sampler_cleanup_invariant clk (Some "race-1"%string) evs) as H.
  destruct H as (_ & _ & Hf & Hc).
  split; [reflexivity|]. split; [reflexivity|]. split.
  - apply (Hf eq_refl (Some 5000)).
  - apply Hc.
Defined.

End Sampler.

(** ** The gates' timestamps do not reach the race state *)

Section Noninterference.
Import HostView.

Lemma eraseTimestamp_idemp (d : PeerData) :
  eraseTimestamp (eraseTimestamp d) = eraseTimestamp d.
Proof. by destruct d as [ty [pl|]]. Qed.

Lemma scrub_idemp (w : World) : scrub (scrub w) = scrub w.
Proof.
  destruct w as [[hc pr ps lm te wi] v clk n iv nt cr db].
  unfold scrub, onPeer, scrubPeer. simpl. do 2 f_equal.
  destruct lm; simpl; [|done]. by rewrite eraseTimestamp_idemp.
Qed.

Lemma scrub_assignRole (peerId : string) (r : Role) (w : World) :
  onPeer (PeerService.assignRole peerId r) (scrub w)
  = scrub (onPeer (PeerService.assignRole peerId r) w).
Proof.
  unfold scrub, onPeer, scrubPeer, PeerService.assignRole. simpl.
  by case_match.
Qed.

Lemma scrub_broadcastState (state : string) (raceId : option string) (w : World) :
  onPeer (PeerService.broadcastState state raceId) (scrub w)
  = scrub (onPeer (PeerService.broadcastState state raceId) w).
Proof. unfold scrub, onPeer. simpl. by rewrite !broadcastState_closed. Qed.

Lemma scrub_broadcastReset (w : World) :
  onPeer PeerService.broadcastReset (scrub w)
  = scrub (onPeer PeerService.broadcastReset w).
Proof. unfold scrub, onPeer. simpl. by rewrite !broadcastReset_closed. Qed.

Lemma scrub_clear_fold (peerId : string) (r : Role)
    (l : list PeerService.ConnectedPeer) (w : World) :
  fold_left (clearStep peerId r) l (scrub w)
  = scrub (fold_left (clearStep peerId r) l w).
Proof.
  revert w. induction l as [|q l IH]; intros w; simpl; [done|].
  rewrite <- IH. f_equal. unfold clearStep. case_match; [|done].
  apply scrub_assignRole.
Qed.

Lemma scrub_setRole (peerId : string) (r : Role) (w : World) :
  setRole peerId r (scrub w) = scrub (setRole peerId r w).
Proof.
  unfold setRole.
  change (fold_left _ ?l ?w0) with (fold_left (clearStep peerId r) l w0).
  rewrite <- scrub_assignRole, <- scrub_clear_fold. reflexivity.
Qed.

Lemma scrub_assignFirstUnassigned (r : Role) (w : World) :
  assignFirstUnassigned r (scrub w) = scrub (assignFirstUnassigned r w).
Proof.
  unfold assignFirstUnassigned. simpl. case_match; [|done].
  apply scrub_setRole.
Qed.

Lemma scrub_handleTrigger (role : option Role) (ts ts' : option Z) (w : World) :
  handleTrigger role ts (scrub w) = scrub (handleTrigger role ts' w).
Proof.
  destruct w as [ps [rs st el ti pt sp] clk n iv nt cr db].
  unfold handleTrigger, startTimer, stopTimer, updateRaceStatus, scrub. simpl.
  destruct rs; destruct role as [[]|]; simpl; try done.
  - destruct cr; done.
  - destruct ti; destruct cr; simpl; unfold onPeer; simpl;
      rewrite !broadcastState_closed; done.
Qed.

Lemma scrub_armSystem (w : World) : armSystem (scrub w) = scrub (armSystem w).
Proof.
  destruct w as [ps v clk n iv nt cr db].
  unfold armSystem, updateRaceStatus, scrub, onPeer. simpl.
  destruct cr; simpl; rewrite !broadcastState_closed; done.
Qed.

Lemma scrub_cancelRace (w : World) : cancelRace (scrub w) = scrub (cancelRace w).
Proof.
  destruct w as [ps [rs st el ti pt sp] clk n iv nt cr db].
  unfold cancelRace, stopTimer, updateRaceStatus, scrub, onPeer. simpl.
  destruct ti; destruct cr; simpl; rewrite !broadcastState_closed; done.
Qed.

Lemma scrub_click (l : string) (w : World) : click l (scrub w) = scrub (click l w).
Proof.
  unfold click.
  change (controls (scrub w)) with (controls w).
  destruct (List.find _ (controls w)) as [b|] eqn:Hf; [|done].
  destruct (disabled b); [done|].
  apply find_some in Hf as [Hin _]. unfold controls in Hin.
  rewrite !in_app_iff in Hin.
  destruct Hin as [Hin | [Hin | [Hin | Hin]]];
    repeat case_match; simpl in Hin; try done;
    repeat (destruct Hin as [<-|Hin]; simpl;
            auto using scrub_armSystem, scrub_cancelRace,
              scrub_assignFirstUnassigned, scrub_broadcastReset);
    done.
Qed.

Lemma scrub_tick (h : positive) (w : World) : tick h (scrub w) = scrub (tick h w).
Proof. unfold tick. simpl. by case_match. Qed.

Lemma scrub_onData (c : Conn) (d : PeerData) (w : World) :
  scrub (onPeer (PeerService.onData c (eraseTimestamp d)) (scrub w))
  = scrub (onPeer (PeerService.onData c d) w).
Proof.
  destruct w as [[hc pr ps lm te wi] v clk n iv nt cr db].
  destruct lm as [[lt [lp|]]|]; destruct d as [ty [pl|]]; destruct ty;
    unfold scrub, onPeer, scrubPeer, PeerService.onData, PeerService.handleMessage;
    simpl; try done.
  all: destruct (pl_role pl) as [r|]; [|done]; destruct (truthyRole r); simpl; [|done];
    by destruct (truthyNum (pl_timestamp pl)).
Qed.

Lemma scrub_onLatestMessage (w1 w2 : World) :
  scrub w1 = scrub w2 ->
  scrub (onLatestMessage w1) = scrub (onLatestMessage w2).
Proof.
  intros H.
  assert (Hl : option_map eraseTimestamp (PeerService.latestMessage (peerService w1))
               = option_map eraseTimestamp (PeerService.latestMessage (peerService w2))).
  { apply (f_equal (fun w => PeerService.latestMessage (peerService w))) in H.
    exact H. }
  unfold onLatestMessage.
  destruct (PeerService.latestMessage (peerService w1)) as [[ty1 [pl1|]]|];
    destruct (PeerService.latestMessage (peerService w2)) as [[ty2 [pl2|]]|];
    simpl in Hl; try discriminate; try done.
  - inversion Hl as [[Hty Hn Hr Hs Hid]]. subst ty2. simpl.
    destruct ty1; try done.
    rewrite <- (scrub_handleTrigger _ (pl_timestamp pl1) (pl_timestamp pl1)).
    rewrite <- (scrub_handleTrigger _ (pl_timestamp pl1) (pl_timestamp pl2) w2).
    by rewrite H, Hr.
  - inversion Hl. subst ty2. simpl. by destruct ty1.
Qed.

Lemma scrub_onOpen (c : Conn) (w : World) :
  onPeer (PeerService.onOpen c) (scrub w) = scrub (onPeer (PeerService.onOpen c) w).
Proof. reflexivity. Qed.

Lemma scrub_onClose (c : Conn) (w : World) :
  onPeer (PeerService.onClose c) (scrub w) = scrub (onPeer (PeerService.onClose c) w).
Proof. reflexivity. Qed.

Lemma scrub_step (e : Event) (w : World) :
  scrub (step (eraseEvent e) (scrub w)) = scrub (step e w).
Proof.
  destruct e as [c|c d|c|l|h]; simpl.
  - by rewrite scrub_onOpen, scrub_idemp.
  - pose proof (scrub_onData c d w) as Hd.
    destruct d as [ty pl]. destruct ty; simpl in *; try done;
      by apply scrub_onLatestMessage.
  - by rewrite scrub_onClose, scrub_idemp.
  - by rewrite scrub_click, scrub_idemp.
  - by rewrite scrub_tick, scrub_idemp.
Qed.

Lemma scrub_step_related (e1 e2 : Event) (w1 w2 : World) :
  eraseEvent e1 = eraseEvent e2 -> scrub w1 = scrub w2 ->
  scrub (step e1 w1) = scrub (step e2 w2).
Proof.
  intros He Hw.
  by rewrite <- (scrub_step e1 w1), <- (scrub_step e2 w2), He, Hw.
Qed.

Lemma trace_related (evs1 evs2 : list Event) (w1 w2 : World) :
  map eraseEvent evs1 = map eraseEvent evs2 -> scrub w1 = scrub w2 ->
  map hostObs (trace evs1 w1) = map hostObs (trace evs2 w2).
Proof.
  revert evs2 w1 w2.
  induction evs1 as [|e1 evs1 IH]; intros [|e2 evs2] w1 w2 He Hw;
    simpl in *; try done.
  injection He as He1 He.
  pose proof (scrub_step_related e1 e2 w1 w2 He1 Hw) as Hs.
  f_equal; [|by apply IH].
  unfold hostObs. f_equal.
  - exact (f_equal view Hs).
  - exact (f_equal (fun w => PeerService.wire (peerService w)) Hs).
Qed.

(** C4: two executions of the host from the same world, with the same
    clock, whose events are the same except for the timestamp fields of the
    messages received, show the same component state (status, start time,
    elapsed time, split times, sampler handle) and the same sent messages
    after every event. *)
Theorem timestamp_noninterference (evs1 evs2 : list Event) (w : World) :
  map eraseEvent evs1 = map eraseEvent evs2 ->
  map hostObs (trace evs1 w) = map hostObs (trace evs2 w)
  /\ map (fun x => (raceState (view x), elapsedTime (view x))) (trace evs1 w)
     = map (fun x => (raceState (view x), elapsedTime (view x))) (trace evs2 w).
Proof.
  intros He.
  assert (H : map hostObs (trace evs1 w) = map hostObs (trace evs2 w))
    by (by apply trace_related).
  split; [done|].
  apply (f_equal (map (fun o => (raceState (fst o), elapsedTime (fst o))))) in H.
  by rewrite !map_map in H.
Qed.

Lemma timestamp_noninterference_witness :
  map eraseEvent (raceEvents (Some 1000) (Some 5000))
  = map eraseEvent (raceEvents (Some 987654) None)
  /\ map (fun x => (raceState (view x), elapsedTime (view x)))
         (trace (raceEvents (Some 1000) (Some 5000)) armedWorld)
     = map (fun x => (raceState (view x), elapsedTime (view x)))
           (trace (raceEvents (Some 987654) None) armedWorld).
Proof.
  split; [reflexivity|].
  apply (timestamp_noninterference (raceEvents (Some 1000) (Some 5000))
           (raceEvents (Some 987654) None) armedWorld).
  reflexivity.
Defined.

Example race_statuses :
  map (fun x => (raceState (view x), elapsedTime (view x)))
      (trace (raceEvents (Some 1000) (Some 5000)) armedWorld)
  = [(RUNNING, 0); (RUNNING, 7); (FINISHED, 14)].
Proof. reflexivity. Qed.

End Noninterference.

(** ** The gate's effects and the detector *)

Section OneShot.
Import GateView.

Lemma triggersSent_other (g : t) (c : Conn) (d : PeerData) :
  type d <> TRIGGER ->
  triggersSent (onPeer (LegacyPeer.send c d) g) = triggersSent g.
Proof.
  intros H. unfold triggersSent. simpl.
  rewrite filter_app, filter_cons, decide_False by done.
  by rewrite filter_nil, app_nil_r.
Qed.

Lemma settle_three (now : Z) (g g1 g2 : t) :
  effects now g = Some g1 -> effects now g1 = Some g2 -> effects now g2 = Some g2 ->
  settle 3 now g = Some g2.
Proof.
  intros H1 H2 H3. cbn [settle]. rewrite H1.
  destruct (decide (g1 = g)) as [E|_].
  - subst g1. congruence.
  - rewrite H2. destruct (decide (g2 = g1)) as [E|_]; [congruence|].
    rewrite H3. by rewrite decide_True.
Qed.

(** The renders after an event: the first one sends off a pending
    detection, the second one applies the message effect once more, and
    then the gate is at rest. *)
Lemma effects_to_rest (now : Z) (g g1 : t) :
  effects now g = Some g1 ->
  exists g2,
    onLatestMessage (flushed now g) = Some g2
    /\ effects now g1 = Some g2
    /\ (forall now', effects now' g2 = Some g2)
    /\ atRest g2.
Proof.
  destruct g as [st ro [ia md cd pf] [hc lm wi] cv vb].
  unfold effects, atRest, flushed, onMotion, onLatestMessage, handleMotionTrigger,
    vibrate, LegacyPeer.sendTrigger.
  destruct lm as [[[] [pl|]]|]; simpl; try discriminate;
    try (destruct (bool_decide (pl_state pl = Some "ARMED"%string)) eqn:E1;
         [|destruct (bool_decide (pl_state pl = Some "LOBBY"%string)) eqn:E2]);
    destruct md; destruct st; simpl; intros [= <-];
    destruct cv; destruct hc; simpl; rewrite ?E1, ?E2; simpl;
    (eexists; split; [reflexivity|]; split; [reflexivity|]; split; [|split];
     [intros now'|..]; simpl; rewrite ?E1, ?E2; reflexivity).
Qed.

Lemma effects_throw (now : Z) (g : t) :
  effects now g = None -> onLatestMessage (flushed now g) = None.
Proof.
  destruct g as [st ro [ia md cd pf] [hc lm wi] cv vb].
  unfold effects, flushed, onMotion, onLatestMessage, handleMotionTrigger,
    vibrate, LegacyPeer.sendTrigger.
  destruct lm as [[[] [pl|]]|]; simpl; try discriminate;
    try (repeat case_match; discriminate);
    destruct md; destruct st; destruct cv; destruct hc; simpl; done.
Qed.

(** The renders of a step in closed form. *)
Lemma step_closed (e : Event) (now : Z) (g : t) :
  step e now g = onLatestMessage (flushed now (update e g)).
Proof.
  unfold step. destruct (effects now (update e g)) as [g1|] eqn:E.
  - destruct (effects_to_rest now _ g1 E) as (g2 & H1 & H2 & H3 & _).
    rewrite H1. by apply (settle_three now _ g1 g2).
  - rewrite (effects_throw now _ E). cbn [settle]. by rewrite E.
Qed.

Lemma step_at_rest (e : Event) (now : Z) (g g' : t) :
  step e now g = Some g' ->
  atRest g' /\ forall now', effects now' g' = Some g'.
Proof.
  intros Hs. rewrite step_closed in Hs.
  destruct (effects now (update e g)) as [g1|] eqn:E.
  - destruct (effects_to_rest now _ g1 E) as (g2 & H1 & _ & H3 & H4).
    rewrite H1 in Hs. injection Hs as <-. done.
  - rewrite (effects_throw now _ E) in Hs. discriminate Hs.
Qed.

(** The loop that runs never fires. *)
Lemma runningLoop_quiet (frame : list Z) (m : MotionService.t) :
  MotionService.fires (MotionService.isArmed MotionService.init) frame m = false
  /\ MotionService.motionDetected (MotionService.runningLoop frame m)
     = MotionService.motionDetected m
  /\ MotionService.isArmed (MotionService.runningLoop frame m) = MotionService.isArmed m
  /\ MotionService.previousFrameRef (MotionService.runningLoop frame m) = Some frame.
Proof.
  destruct m as [ia md cd pf].
  unfold MotionService.fires, MotionService.runningLoop, MotionService.loop. simpl.
  destruct pf; done.
Qed.

Lemma update_frame (e : Event) (g : t) :
  status (update e g) = status g
  /\ role (update e g) = role g
  /\ MotionService.motionDetected (motionService (update e g))
     = MotionService.motionDetected (motionService g)
  /\ MotionService.isArmed (motionService (update e g))
     = MotionService.isArmed (motionService g)
  /\ triggersSent (update e g) = triggersSent g.
Proof.
  destruct e as [d|fr|c seen nm|]; cbn [update].
  - done.
  - destruct (runningLoop_quiet fr (motionService g)) as (_ & H1 & H2 & _).
    destruct g as [st ro ms ps cv vb]. simpl in *. done.
  - repeat split; try done. unfold LegacyPeer.onHostOpen.
    destruct g as [st ro ms [hc lm wi] cv vb]. destruct seen as [c0|]; [|done].
    apply (triggersSent_other (mk st ro ms (LegacyPeer.mk (Some c) lm wi) cv vb)
             c0 (msgJoin nm)). done.
  - done.
Qed.

(** The message effect sets [motionDetected] only to false, leaves the
    sent messages alone, and moves the gate to ARMED or LOBBY or leaves
    its status. *)
Lemma onLatestMessage_frame (g g1 : t) :
  onLatestMessage g = Some g1 ->
  triggersSent g1 = triggersSent g
  /\ (MotionService.motionDetected (motionService g) = false ->
      MotionService.motionDetected (motionService g1) = false)
  /\ (status g <> TRIGGERED -> status g1 <> TRIGGERED)
  /\ (MotionService.motionDetected (motionService g1) && bool_decide (status g1 = ARMED)
      = true ->
      MotionService.motionDetected (motionService g) && bool_decide (status g = ARMED)
      = true).
Proof.
  destruct g as [st ro [ia md cd pf] [hc lm wi] cv vb].
  unfold onLatestMessage. simpl.
  destruct lm as [[[] [pl|]]|]; simpl; try discriminate;
    repeat case_match; intros [= <-]; simpl; repeat split; try done;
    destruct st; destruct md; simpl; done.
Qed.

Lemma flushed_none (now : Z) (g : t) :
  MotionService.motionDetected (motionService g) && bool_decide (status g = ARMED) = false ->
  flushed now g = g.
Proof. intros H. unfold flushed, onMotion. by rewrite H. Qed.

Lemma flushed_bound (now : Z) (g : t) :
  (length (triggersSent (flushed now g))
   <= length (triggersSent g) + pendingFlag g)%nat
  /\ LegacyPeer.latestMessage (peerService (flushed now g))
     = LegacyPeer.latestMessage (peerService g).
Proof.
  destruct g as [st ro [ia md cd pf] [hc lm wi] cv vb].
  unfold flushed, onMotion, pendingFlag, triggersSent, handleMotionTrigger, vibrate,
    LegacyPeer.sendTrigger. simpl.
  destruct md; destruct st; simpl; try (split; [lia|done]).
  destruct cv; destruct hc; simpl; rewrite ?filter_app, ?length_app; simpl;
    (split; [lia|done]).
Qed.



Example countDiff_moved : MotionService.countDiff movedFrame stillFrame = 25.
Proof. reflexivity. Qed.


(** Had the detector fired, the next render would have sent the TRIGGER
    and then armed the gate and its detector again from the
    STATE_CHANGE("ARMED") that is still the latest message, with no message
    from the host. *)
Example fired_gate_is_armed_again :
  let g' := run [(Frame stillFrame, 50)] firedGate in
  status firedGate = ARMED
  /\ MotionService.isArmed (motionService firedGate) = false
  /\ map snd (triggersSent g')
     = [mkPeerData TRIGGER (Some (mkPayload None (Some START) None (Some 50) None))]
  /\ status g' = ARMED
  /\ MotionService.isArmed (motionService g') = true
  /\ MotionService.motionDetected (motionService g') = false.
Proof. vm_compute. repeat split; reflexivity. Qed.

End OneShot.

(** ** Reset *)

Section Reset.
Import System.

Lemma step_reset (now : Z) (g : GateView.t) :
  GateView.step (GateView.Recv msgReset) now g
  = Some (resetGate (flushed now g)).
Proof.
  rewrite step_closed. destruct g as [st ro [ia md cd pf] [hc lm wi] cv vb].
  unfold flushed, GateView.onMotion, GateView.onLatestMessage,
    GateView.handleMotionTrigger, GateView.vibrate, LegacyPeer.sendTrigger, resetGate.
  simpl. destruct md; destruct st; destruct cv; destruct hc; reflexivity.
Qed.

Lemma resetGate_idemp (g : GateView.t) : resetGate (resetGate g) = resetGate g.
Proof. reflexivity. Qed.

Lemma resetGate_lobby (g : GateView.t) :
  GateView.status (resetGate g) = GateView.LOBBY
  /\ MotionService.isArmed (GateView.motionService (resetGate g)) = false.
Proof. done. Qed.

(** A gate that a RESET has brought to the lobby has nothing pending. *)
Lemma resetGate_flushed (now : Z) (g : GateView.t) :
  flushed now (resetGate g) = resetGate g.
Proof.
  unfold flushed, GateView.onMotion. simpl. by rewrite andb_false_r.
Qed.

Lemma reset_twice (now now' : Z) (g : GateView.t) :
  resetGate (flushed now' (resetGate (flushed now g))) = resetGate (flushed now g).
Proof. by rewrite resetGate_flushed, resetGate_idemp. Qed.

Lemma deliver_reset_lookup (now : Z) (gs : gmap Conn GateView.t) (c k : Conn) :
  deliver now gs (c, msgReset) !! k
  = if decide (k = c) then (fun g => resetGate (flushed now g)) <$> gs !! k
    else gs !! k.
Proof.
  unfold deliver. cbn [fst snd].
  destruct (gs !! c) as [g|] eqn:Hc.
  - rewrite step_reset. case_decide as E.
    + subst k. by rewrite lookup_insert_eq, Hc.
    + by rewrite lookup_insert_ne.
  - case_decide as E; [|done]. subst k. by rewrite Hc.
Qed.

Lemma deliver_resets_lookup (now : Z) (cs : list Conn) (gs : gmap Conn GateView.t)
    (k : Conn) :
  fold_left (deliver now) (map (fun c => (c, msgReset)) cs) gs !! k
  = if decide (k ∈ cs) then (fun g => resetGate (flushed now g)) <$> gs !! k
    else gs !! k.
Proof.
  revert gs. induction cs as [|c cs IH]; intros gs; cbn [map fold_left].
  - rewrite decide_False; [done|]. apply not_elem_of_nil.
  - rewrite IH, deliver_reset_lookup.
    destruct (decide (k = c)) as [->|Hne].
    + rewrite (decide_True (P := c ∈ c :: cs)) by left.
      case_decide; [|done].
      destruct (gs !! c); simpl; [|done]. by rewrite reset_twice.
    + destruct (decide (k ∈ cs)) as [Hin|Hin].
      * rewrite decide_True; [done|]. by right.
      * rewrite decide_False; [done|].
        intros H. apply elem_of_cons in H as [H|H]; done.
Qed.

Lemma hostDo_reset_gates (now : Z) (sys : t) (k : Conn) :
  gates (hostDo now PeerService.broadcastReset sys) !! k
  = if decide (k ∈ map PeerService.conn (PeerService.peersRef (host sys)))
    then (fun g => resetGate (flushed now g)) <$> gates sys !! k
    else gates sys !! k.
Proof.
  unfold hostDo. cbv zeta. cbn [gates]. rewrite broadcastReset_closed.
  cbn [PeerService.wire]. rewrite drop_app_length.
  rewrite <- deliver_resets_lookup with (now := now).
  by rewrite map_map.
Qed.

Lemma hostDo_reset_twice_gates (now : Z) (sys : t) (k : Conn) :
  gates (hostDo now (fun s => PeerService.broadcastReset (PeerService.broadcastReset s))
                sys) !! k
  = if decide (k ∈ map PeerService.conn (PeerService.peersRef (host sys)))
    then (fun g => resetGate (flushed now g)) <$> gates sys !! k
    else gates sys !! k.
Proof.
  unfold hostDo. cbv zeta. cbn [gates]. rewrite !broadcastReset_closed.
  cbn [PeerService.wire PeerService.peersRef].
  rewrite <- app_assoc, drop_app_length, fold_left_app.
  rewrite <- (map_map PeerService.conn (fun c => (c, msgReset))).
  rewrite !deliver_resets_lookup.
  case_decide; [|done].
  destruct (gates sys !! k); simpl; [|done]. by rewrite reset_twice.
Qed.

(** The second call does put a second RESET per peer on the wire. *)
Lemma broadcastReset_resends (s : PeerService.t) :
  PeerService.wire (PeerService.broadcastReset (PeerService.broadcastReset s))
  = PeerService.wire s ++ resetMsgs s ++ resetMsgs s.
Proof. rewrite !broadcastReset_closed. simpl. by rewrite <- app_assoc. Qed.

(** With two gates registered, the second [broadcastReset] sends two
    messages more: it is not without effect of its own. *)
Lemma second_reset_sends_again :
  let once := hostDo 0 PeerService.broadcastReset twoGates in
  let twice := hostDo 1 PeerService.broadcastReset once in
  PeerService.wire (host once) = [(gateA, msgReset); (gateB, msgReset)]
  /\ PeerService.wire (host twice)
     = [(gateA, msgReset); (gateB, msgReset); (gateA, msgReset); (gateB, msgReset)]
  /\ PeerService.wire (host twice) <> PeerService.wire (host once).
Proof.
  intros once twice.
  assert (H1 : PeerService.wire (host once) = [(gateA, msgReset); (gateB, msgReset)])
    by (vm_compute; reflexivity).
  assert (H2 : PeerService.wire (host twice)
               = [(gateA, msgReset); (gateB, msgReset);
                  (gateA, msgReset); (gateB, msgReset)])
    by (vm_compute; reflexivity).
  split; [exact H1|]. split; [exact H2|]. rewrite H1, H2. discriminate.
Qed.

(** C8: [broadcastReset] sends one RESET to every registered peer and
    empties the host's buffer of trigger events; once the messages are
    delivered every registered gate is in LOBBY with its detector disarmed.
    A second [broadcastReset], whether issued after delivery or back to
    back before it, ends in the same gate states and the same host state
    but for the messages sent: the second call sends a second RESET to
    every registered peer, which changes no gate, and the buffer is empty
    as before. *)
Theorem broadcastReset_idempotent (now1 now2 : Z) (sys : t) :
  let once := hostDo now1 PeerService.broadcastReset sys in
  let twice := hostDo now2 PeerService.broadcastReset once in
  let backToBack :=
    hostDo now1 (fun s => PeerService.broadcastReset (PeerService.broadcastReset s))
           sys in
  PeerService.wire (host once) = PeerService.wire (host sys) ++ resetMsgs (host sys)
  /\ PeerService.triggerEvents (host once) = []
  /\ (forall p g,
        p ∈ PeerService.peersRef (host sys) ->
        gates once !! PeerService.conn p = Some g ->
        GateView.status g = GateView.LOBBY
        /\ MotionService.isArmed (GateView.motionService g) = false)
  /\ gates twice = gates once
  /\ gates backToBack = gates once
  /\ PeerService.wire (host twice) = PeerService.wire (host once) ++ resetMsgs (host sys)
  /\ PeerService.wire (host backToBack) = PeerService.wire (host twice)
  /\ PeerService.triggerEvents (host twice) = []
  /\ PeerService.triggerEvents (host backToBack) = []
  /\ PeerService.peersRef (host twice) = PeerService.peersRef (host once)
  /\ PeerService.peers (host twice) = PeerService.peers (host once)
  /\ PeerService.latestMessage (host twice) = PeerService.latestMessage (host once)
  /\ PeerService.hostConnectionRef (host twice)
     = PeerService.hostConnectionRef (host once).
Proof.
  intros once twice backToBack.
  assert (Hh : host once = PeerService.broadcastReset (host sys)) by done.
  assert (Hp : PeerService.peersRef (host once) = PeerService.peersRef (host sys)).
  { rewrite Hh, broadcastReset_closed. done. }
  split; [by rewrite Hh, broadcastReset_closed|].
  split; [done|].
  split.
  { intros p g Hin Hg. subst once. rewrite hostDo_reset_gates in Hg.
    rewrite decide_True in Hg by (by apply (list_elem_of_fmap_2 PeerService.conn)).
    destruct (gates sys !! PeerService.conn p); simpl in Hg; [|done].
    injection Hg as <-. apply resetGate_lobby. }
  split.
  { apply map_eq. intros k. subst twice.
    rewrite hostDo_reset_gates, Hp. subst once. rewrite hostDo_reset_gates.
    case_decide; [|done].
    destruct (gates sys !! k); simpl; [|done]. by rewrite reset_twice. }
  split.
  { apply map_eq. intros k. subst backToBack once.
    by rewrite hostDo_reset_twice_gates, hostDo_reset_gates. }
  subst twice backToBack once. unfold hostDo, resetMsgs. cbv zeta. cbn [host].
  rewrite !broadcastReset_closed. cbn [PeerService.wire PeerService.peersRef
    PeerService.triggerEvents PeerService.peers PeerService.latestMessage
    PeerService.hostConnectionRef]. by rewrite <- app_assoc.
Qed.

Lemma broadcastReset_idempotent_witness :
  let once := hostDo 0 PeerService.broadcastReset twoGates in
  let twice := hostDo 1 PeerService.broadcastReset once in
  GateView.status <$> gates twoGates !! gateA = Some GateView.ARMED
  /\ PeerService.mkPeer "1111" gateA NONE (Some "Unknown"%string)
     ∈ PeerService.peersRef (host twoGates)
  /\ gates once !! gateA = Some (resetGate armedGate)
  /\ GateView.status (resetGate armedGate) = GateView.LOBBY
  /\ MotionService.isArmed (GateView.motionService (resetGate armedGate)) = false
  /\ gates twice = gates once.
Proof.
  intros once twice.
  pose proof (broadcastReset_idempotent 0 1 twoGates) as (_ & _ & Hl & Hg & _).
  assert (Hin : PeerService.mkPeer "1111" gateA NONE (Some "Unknown"%string)
                ∈ PeerService.peersRef (host twoGates)) by left.
  assert (Hgate : gates once !! gateA = Some (resetGate armedGate))
    by (vm_compute; reflexivity).
  split; [vm_compute; reflexivity|]. split; [exact Hin|]. split; [exact Hgate|].
  destruct (Hl _ _ Hin Hgate) as [H1 H2].
  split; [exact H1|]. split; [exact H2|]. exact Hg.
Defined.

End Reset.

(** * Further properties of the host *)

(** ** The registry over whole runs *)

Section Registry.
Import PeerService.

Lemma registryInv_same (w w' : HostView.World) :
  peersRef (HostView.peerService w') = peersRef (HostView.peerService w) ->
  peers (HostView.peerService w') = peers (HostView.peerService w) ->
  registryInv w -> registryInv w'.
Proof.
  unfold registryInv, synced. intros -> ->. done.
Qed.

Lemma handleTrigger_registry (role : option Role) (ts : option Z) (w : HostView.World) :
  peersRef (HostView.peerService (HostView.handleTrigger role ts w))
  = peersRef (HostView.peerService w)
  /\ peers (HostView.peerService (HostView.handleTrigger role ts w))
     = peers (HostView.peerService w).
Proof.
  destruct w as [ps [rs st el ti pt sp] clk n iv nt cr db].
  unfold HostView.handleTrigger, HostView.startTimer, HostView.stopTimer,
    HostView.updateRaceStatus. simpl.
  destruct rs; destruct role as [[]|]; simpl; try done.
  - destruct cr; done.
  - destruct ti; destruct cr; simpl; rewrite broadcastState_closed; done.
Qed.

Lemma armSystem_registry (w : HostView.World) :
  peersRef (HostView.peerService (HostView.armSystem w))
  = peersRef (HostView.peerService w)
  /\ peers (HostView.peerService (HostView.armSystem w))
     = peers (HostView.peerService w).
Proof.
  destruct w as [ps v clk n iv nt cr db].
  unfold HostView.armSystem, HostView.updateRaceStatus. simpl.
  destruct cr; simpl; rewrite broadcastState_closed; done.
Qed.

Lemma cancelRace_registry (w : HostView.World) :
  peersRef (HostView.peerService (HostView.cancelRace w))
  = peersRef (HostView.peerService w)
  /\ peers (HostView.peerService (HostView.cancelRace w))
     = peers (HostView.peerService w).
Proof.
  destruct w as [ps [rs st el ti pt sp] clk n iv nt cr db].
  unfold HostView.cancelRace, HostView.stopTimer, HostView.updateRaceStatus. simpl.
  destruct ti; destruct cr; simpl; rewrite broadcastState_closed; done.
Qed.

Lemma NoDup_ids_filter (P : ConnectedPeer -> Prop) `{!forall p, Decision (P p)}
    (l : list ConnectedPeer) :
  NoDup (map id l) -> NoDup (map id (filter P l)).
Proof.
  induction l as [|x l IH]; intros Hnd; [done|].
  simpl in Hnd. apply NoDup_cons in Hnd as [Hx Hnd].
  rewrite filter_cons. case_decide; [|by apply IH].
  simpl. apply NoDup_cons. split; [|by apply IH].
  intros Hin. apply Hx.
  apply list_elem_of_fmap_1 in Hin as (y & -> & Hy).
  apply list_elem_of_filter in Hy as [_ Hy].
  by apply (list_elem_of_fmap_2 id).
Qed.

Lemma holders_filter_le (r : Role) (P : ConnectedPeer -> Prop)
    `{!forall p, Decision (P p)} (l : list ConnectedPeer) :
  (length (holders r (filter P l)) <= length (holders r l))%nat.
Proof.
  unfold holders. induction l as [|x l IH]; [done|].
  rewrite (filter_cons P). case_decide.
  - rewrite !filter_cons. case_decide; simpl; lia.
  - rewrite (filter_cons _ x l). case_decide; simpl; lia.
Qed.

Lemma registryInv_onOpen (c : Conn) (w : HostView.World) :
  peer c ∉ map id (peersRef (HostView.peerService w)) ->
  registryInv w -> registryInv (HostView.onPeer (onOpen c) w).
Proof.
  intros Hfresh (Hs & Hnd & H1 & H2). unfold registryInv, exclusive, holders. simpl.
  split; [done|]. split.
  - rewrite map_app. apply NoDup_app. split; [done|]. split.
    + intros x Hx Hin. apply list_elem_of_singleton in Hin. simpl in Hin. by subst x.
    + simpl. apply NoDup_singleton.
  - rewrite !filter_app, !filter_cons, !decide_False by done.
    rewrite !filter_nil, !app_nil_r. done.
Qed.

Lemma registryInv_onClose (c : Conn) (w : HostView.World) :
  registryInv w -> registryInv (HostView.onPeer (onClose c) w).
Proof.
  intros (Hs & Hnd & H1 & H2). unfold registryInv, exclusive. simpl.
  split; [done|]. split; [by apply NoDup_ids_filter|].
  split; (etrans; [apply holders_filter_le|done]).
Qed.

Lemma registryInv_join (c : Conn) (d : PeerData) (w : HostView.World) :
  type d = JOIN ->
  registryInv w -> registryInv (HostView.onPeer (onData c d) w).
Proof.
  intros Hty (Hs & Hnd & H1 & H2).
  unfold registryInv, exclusive, holders, onData. rewrite Hty. simpl.
  split; [done|]. split.
  - rewrite map_map.
    erewrite map_ext; [exact Hnd|].
    intros p. simpl. repeat case_match; done.
  - unfold holders in H1, H2. split.
    + etrans; [|exact H1]. apply length_filter_map_le.
      intros p. repeat case_match; simpl; done.
    + etrans; [|exact H2]. apply length_filter_map_le.
      intros p. repeat case_match; simpl; done.
Qed.

Lemma handleMessage_registry (d : PeerData) (sender : string) (s : t) :
  peersRef (handleMessage d sender s) = peersRef s
  /\ peers (handleMessage d sender s) = peers s.
Proof. unfold handleMessage. repeat case_match; done. Qed.

Lemma onLatestMessage_registry (w : HostView.World) :
  peersRef (HostView.peerService (HostView.onLatestMessage w))
  = peersRef (HostView.peerService w)
  /\ peers (HostView.peerService (HostView.onLatestMessage w))
     = peers (HostView.peerService w).
Proof.
  unfold HostView.onLatestMessage. repeat case_match; try done.
  all: apply handleTrigger_registry.
Qed.

Lemma registryInv_click (l : string) (w : HostView.World) :
  registryInv w -> registryInv (HostView.click l w).
Proof.
  intros H.
  destruct (click_cases l w) as [-> | [(-> & _) | [(-> & _) | [(r & ->) | ->]]]].
  - done.
  - destruct (armSystem_registry w). by eapply registryInv_same.
  - destruct (cancelRace_registry w). by eapply registryInv_same.
  - unfold HostView.assignFirstUnassigned. case_match; [|done].
    by apply setRole_registryInv.
  - eapply registryInv_same; [| |exact H]; unfold HostView.onPeer;
      cbn [HostView.peerService]; by rewrite broadcastReset_closed.
Qed.

Lemma registryInv_step (e : HostView.Event) (w : HostView.World) :
  match e with
  | HostView.ConnOpen c => peer c ∉ map id (peersRef (HostView.peerService w))
  | _ => True
  end ->
  registryInv w -> registryInv (HostView.step e w).
Proof.
  intros Hf H. destruct e as [c|c d|c|l|h]; simpl.
  - by apply registryInv_onOpen.
  - destruct (type d) eqn:Hty.
    + by apply registryInv_join.
    + destruct (onLatestMessage_registry (HostView.onPeer (onData c d) w)) as [E1 E2].
      eapply registryInv_same; [exact E1|exact E2|].
      unfold onData; rewrite Hty.
      destruct (handleMessage_registry d (peer c) (HostView.peerService w)).
      by eapply registryInv_same.
    + destruct (onLatestMessage_registry (HostView.onPeer (onData c d) w)) as [E1 E2].
      eapply registryInv_same; [exact E1|exact E2|].
      unfold onData; rewrite Hty.
      destruct (handleMessage_registry d (peer c) (HostView.peerService w)).
      by eapply registryInv_same.
    + destruct (onLatestMessage_registry (HostView.onPeer (onData c d) w)) as [E1 E2].
      eapply registryInv_same; [exact E1|exact E2|].
      unfold onData; rewrite Hty.
      destruct (handleMessage_registry d (peer c) (HostView.peerService w)).
      by eapply registryInv_same.
    + destruct (onLatestMessage_registry (HostView.onPeer (onData c d) w)) as [E1 E2].
      eapply registryInv_same; [exact E1|exact E2|].
      unfold onData; rewrite Hty.
      destruct (handleMessage_registry d (peer c) (HostView.peerService w)).
      by eapply registryInv_same.
  - by apply registryInv_onClose.
  - by apply registryInv_click.
  - unfold HostView.tick, HostView.Date_now. by case_match.
Qed.

(** X1: over every run of host events (gates connecting, joining, sending,
    leaving, operator clicks, sampler ticks) in which each opening
    connection brings a peer id that is not registered at that moment, the
    registry keeps distinct ids, the React state shows the registry, and at
    most one peer holds START and at most one FINISH. *)
Theorem registry_exclusive_over_runs (evs : list HostView.Event) (w : HostView.World) :
  registryInv w -> freshOpens evs w ->
  registryInv (HostView.run evs w)
  /\ exclusive (peersRef (HostView.peerService (HostView.run evs w)))
  /\ NoDup (map id (peersRef (HostView.peerService (HostView.run evs w)))).
Proof.
  revert w. induction evs as [|e evs IH]; intros w Hw Hf.
  - simpl. destruct Hw as (? & ? & ?). done.
  - simpl in Hf. destruct Hf as [He Hf]. simpl.
    apply IH; [|done]. by apply registryInv_step.
Qed.

Lemma registry_exclusive_over_runs_witness :
  let evs := [HostView.ConnOpen gateA; HostView.ConnData gateA (msgJoin "Start Gate");
              HostView.ConnOpen gateB; HostView.Click "Set Start";
              HostView.Click "Set Start"; HostView.Click "Set Finish";
              HostView.ConnClose gateA; HostView.Click "Arm System"] in
  let w := HostView.initWorld (fun k => Z.of_nat k) None in
  registryInv w /\ freshOpens evs w
  /\ exclusive (peersRef (HostView.peerService (HostView.run evs w))).
Proof.
  intros evs w.
  assert (Hw : registryInv w).
  { split; [reflexivity|]. split; [apply NoDup_nil_2|]. split; simpl; lia. }
  assert (Hf : freshOpens evs w).
  { simpl. repeat split; try done.
    - apply not_elem_of_nil.
    - intros H. apply list_elem_of_singleton in H. discriminate H. }
  split; [exact Hw|]. split; [exact Hf|].
  apply (registry_exclusive_over_runs evs w Hw Hf).
Defined.

End Registry.

(** ** Role assignment and trigger buffering at the provider *)

Section Provider.
Import PeerService.

Lemma map_id_absent (peerId : string) (r : Role) (l : list ConnectedPeer) :
  peerId ∉ map id l ->
  map (fun p => if decide (id p = peerId) then withRole r p else p) l = l
  /\ List.find (fun p => bool_decide (id p = peerId)) l = None.
Proof.
  induction l as [|x l IH]; intros Hn; [done|]. simpl in *.
  assert (id x <> peerId) as Hx by (intros E; apply Hn; rewrite E; left).
  destruct IH as [IH1 IH2]; [intros H; apply Hn; by right|].
  rewrite decide_False, bool_decide_eq_false_2 by done. by rewrite IH1, IH2.
Qed.

Lemma find_id_map (peerId : string) (r : Role) (l : list ConnectedPeer) :
  List.find (fun p => bool_decide (id p = peerId))
            (map (fun p => if decide (id p = peerId) then withRole r p else p) l)
  = withRole r <$> (List.find (fun p => bool_decide (id p = peerId)) l).
Proof.
  induction l as [|x l IH]; [done|]. simpl.
  destruct (decide (id x = peerId)) as [E|E]; simpl.
  - by rewrite !bool_decide_eq_true_2.
  - by rewrite !bool_decide_eq_false_2.
Qed.

(** X2: [assignRole] for an id that is not registered changes nothing and
    sends nothing; for a registered id it sends exactly one ROLE_ASSIGN, on
    the connection of the first entry with that id. *)
Theorem assignRole_target (peerId : string) (r : Role) (s : t) :
  synced s ->
  (peerId ∉ map id (peersRef s) -> assignRole peerId r s = s)
  /\ (forall p,
        List.find (fun q => bool_decide (id q = peerId)) (peersRef s) = Some p ->
        wire (assignRole peerId r s) = wire s ++ [(conn p, msgRoleAssign r)]).
Proof.
  intros Hs. split.
  - intros Hn. destruct (map_id_absent peerId r (peersRef s) Hn) as [Hm Hf].
    unfold assignRole. simpl. rewrite Hm, Hf.
    destruct s. unfold synced in Hs. simpl in *. by subst.
  - intros p Hp. unfold assignRole. simpl. rewrite find_id_map, Hp. done.
Qed.

Lemma assignRole_target_witness :
  synced lobby2
  /\ ("9999"%string ∉ map id (peersRef lobby2))
  /\ assignRole "9999" START lobby2 = lobby2
  /\ wire (assignRole "2222" FINISH lobby2) = [(gateB, msgRoleAssign FINISH)].
Proof.
  assert (Hs : synced lobby2) by reflexivity.
  assert (Hn : "9999"%string ∉ map id (peersRef lobby2)).
  { simpl. intros H. apply elem_of_cons in H as [H|H]; [discriminate|].
    apply list_elem_of_singleton in H. discriminate. }
  destruct (assignRole_target "9999" START lobby2 Hs) as [H1 _].
  destruct (assignRole_target "2222" FINISH lobby2 Hs) as [_ H2].
  split; [exact Hs|]. split; [exact Hn|]. split; [exact (H1 Hn)|].
  apply (H2 (mkPeer "2222" gateB NONE (Some "Unknown"%string))). reflexivity.
Defined.

End Provider.

Section Buffering.
Import HostView.

Lemma handleTrigger_view_frame (role : option Role) (ts ts' : option Z)
    (f : PeerService.t -> PeerService.t) (w : World) :
  view (handleTrigger role ts (onPeer f w)) = view (handleTrigger role ts' w).
Proof.
  destruct w as [ps [rs st el ti pt sp] clk n iv nt cr db].
  unfold handleTrigger, startTimer, stopTimer, updateRaceStatus. simpl.
  destruct rs; destruct role as [[]|]; simpl; try done.
  - destruct cr; done.
  - destruct ti; destruct cr; done.
Qed.

Lemma handleTrigger_triggerEvents (role : option Role) (ts : option Z) (w : World) :
  PeerService.triggerEvents (peerService (handleTrigger role ts w))
  = PeerService.triggerEvents (peerService w).
Proof.
  destruct w as [ps [rs st el ti pt sp] clk n iv nt cr db].
  unfold handleTrigger, startTimer, stopTimer, updateRaceStatus. simpl.
  destruct rs; destruct role as [[]|]; simpl; try done.
  - destruct cr; done.
  - destruct ti; destruct cr; simpl; rewrite broadcastState_closed; done.
Qed.

Lemma step_trigger (c : Conn) (r : Role) (ts : option Z) (w : World) :
  step (ConnData c (triggerMsg r ts)) w
  = handleTrigger (Some r) ts
      (onPeer (PeerService.handleMessage (triggerMsg r ts) (peer c)) w).
Proof.
  unfold step, onLatestMessage, PeerService.onData, PeerService.handleMessage.
  simpl. by destruct (truthyRole r), (truthyNum ts).
Qed.

(** X3: a TRIGGER reaching the host is put into the buffer of trigger
    events only when its timestamp is present and not 0 (and its role is
    not undefined); the race state machine reacts to it in either case,
    exactly as [handleTrigger] does on the role alone. *)
Theorem trigger_buffered_when_timestamped (c : Conn) (r : Role) (ts : option Z)
    (w : World) :
  let w' := step (ConnData c (triggerMsg r ts)) w in
  PeerService.triggerEvents (peerService w')
  = PeerService.triggerEvents (peerService w)
    ++ (if truthyRole r && truthyNum ts then [(r, ts)] else [])
  /\ PeerService.latestMessage (peerService w') = Some (triggerMsg r ts)
  /\ view w' = view (handleTrigger (Some r) None w).
Proof.
  intros w'. subst w'. rewrite step_trigger. split; [|split].
  - rewrite handleTrigger_triggerEvents. unfold PeerService.handleMessage. simpl.
    destruct (truthyRole r && truthyNum ts); simpl; [done|]. by rewrite app_nil_r.
  - destruct w as [ps [rs st el ti pt sp] clk n iv nt cr db].
    unfold handleTrigger, startTimer, stopTimer, updateRaceStatus,
      PeerService.handleMessage. simpl.
    destruct rs; destruct r; simpl; destruct (truthyNum ts); simpl; try done;
      try (destruct cr; done);
      destruct ti; destruct cr; simpl; rewrite broadcastState_closed; done.
  - apply handleTrigger_view_frame.
Qed.

(** A START trigger without a timestamp starts the race and is not
    buffered. *)
Example untimed_start_trigger :
  let w' := step (ConnData gateA (triggerMsg START None)) armedWorld in
  raceState (view w') = RUNNING
  /\ PeerService.triggerEvents (peerService w') = [].
Proof. split; reflexivity. Qed.

End Buffering.

(** ** The course of a race *)

Section RaceCourse.
Import HostView.

Lemma click_running (l : string) (w : World) :
  raceState (view w) = RUNNING -> l <> "Stop Race"%string ->
  click l w = w
  \/ (exists r, click l w = assignFirstUnassigned r w)
  \/ click l w = onPeer PeerService.broadcastReset w.
Proof.
  intros E Hl. unfold click, controls. rewrite E.
  destruct (0 <? Z.of_nat (length (PeerService.peers (peerService w))));
    destruct (noneUnassigned w); simpl;
    repeat (case_bool_decide; simpl); eauto; congruence.
Qed.

Lemma handleTrigger_running (role : option Role) (ts : option Z) (w : World) :
  raceState (view w) = RUNNING -> role <> Some FINISH ->
  raceState (view (handleTrigger role ts w)) = RUNNING
  /\ startTime (view (handleTrigger role ts w)) = startTime (view w).
Proof.
  destruct w as [ps [rs st el ti pt sp] clk n iv nt cr db]. simpl.
  intros -> Hr. unfold handleTrigger. simpl.
  destruct role as [[]|]; simpl; done.
Qed.

Lemma running_step (e : Event) (w : World) :
  raceState (view w) = RUNNING -> endsRace e = false ->
  raceState (view (step e w)) = RUNNING
  /\ startTime (view (step e w)) = startTime (view w).
Proof.
  intros E He. destruct e as [c|c d|c|l|h]; simpl.
  - done.
  - destruct d as [ty pl]. simpl in He.
    destruct ty; simpl in *; try done;
      unfold onLatestMessage, PeerService.onData, PeerService.handleMessage; simpl;
      try done.
    destruct pl as [pl|]; simpl; [|done].
    assert (Hr : pl_role pl <> Some FINISH)
      by (intros Hr; rewrite Hr in He; discriminate He).
    destruct (pl_role pl) as [r0|] eqn:Hrole;
      [destruct (truthyRole r0 && truthyNum (pl_timestamp pl))|];
      simpl; rewrite ?Hrole;
      match goal with
      | |- context [handleTrigger ?r ?t ?x] =>
          destruct (handleTrigger_running r t x) as [H1 H2]; [done|done|];
          by rewrite H1, H2
      end.
  - done.
  - apply bool_decide_eq_false in He.
    destruct (click_running l w E He) as [-> | [(r & ->) | ->]]; try done.
    destruct (assignFirstUnassigned_frame r w) as [s' ->]. done.
  - unfold tick, Date_now. by case_match.
Qed.

Lemma running_run (evs : list Event) (w : World) :
  raceState (view w) = RUNNING ->
  forallb (fun e => negb (endsRace e)) evs = true ->
  raceState (view (run evs w)) = RUNNING
  /\ startTime (view (run evs w)) = startTime (view w).
Proof.
  revert w. induction evs as [|e evs IH]; intros w E Hev; [done|].
  simpl in Hev. apply andb_true_iff in Hev as [He Hev]. apply negb_true_iff in He.
  destruct (running_step e w E He) as [E1 E2]. simpl.
  destruct (IH (step e w) E1 Hev) as [E3 E4]. by rewrite E3, E4, E2.
Qed.

(** X4: a running race is ended only by a FINISH trigger or a click on Stop
    Race.  Through every other sequence of events (other triggers, gates
    connecting and leaving, role changes, resets, ticks) the status stays
    RUNNING and the recorded start time stays what it was. *)
Theorem running_until_finish_or_stop (evs : list Event) (w : World) :
  raceState (view w) = RUNNING ->
  forallb (fun e => negb (endsRace e)) evs = true ->
  raceState (view (run evs w)) = RUNNING
  /\ startTime (view (run evs w)) = startTime (view w).
Proof. apply running_run. Qed.

Lemma running_until_finish_or_stop_witness :
  let evs := [ConnData gateA (triggerMsg START (Some 2000)); Tick 1%positive;
              Click "Cancel"; Click "Arm System"; Click "Reset All";
              ConnData gateB (triggerMsg SPLIT (Some 2500)); ConnClose gateA] in
  raceState (view runningWorld) = RUNNING
  /\ forallb (fun e => negb (endsRace e)) evs = true
  /\ raceState (view (run evs runningWorld)) = RUNNING
  /\ startTime (view (run evs runningWorld)) = startTime (view runningWorld).
Proof.
  intros evs.
  split; [reflexivity|]. split; [reflexivity|].
  apply (running_until_finish_or_stop evs runningWorld); reflexivity.
Defined.

Lemma clock_step (e : Event) (w : World) : clock (step e w) = clock w.
Proof.
  assert (Hh : forall role ts x, clock (handleTrigger role ts x) = clock x).
  { intros role ts [ps [rs st el ti pt sp] clk n iv nt cr db].
    unfold handleTrigger, startTimer, stopTimer, updateRaceStatus. simpl.
    destruct rs; destruct role as [[]|]; simpl; try done.
    - destruct cr; done.
    - destruct ti; destruct cr; done. }
  destruct e as [c|c d|c|l|h]; simpl.
  - done.
  - assert (clock (onLatestMessage (onPeer (PeerService.onData c d) w)) = clock w).
    { unfold onLatestMessage. repeat case_match; try done; by rewrite Hh. }
    by case_match.
  - done.
  - destruct (click_cases l w) as [-> | [(-> & _) | [(-> & _) | [(r & ->) | ->]]]];
      try done.
    + unfold armSystem, updateRaceStatus. simpl. by destruct (currentRace w).
    + destruct w as [ps [rs st el ti pt sp] clk n iv nt cr db].
      unfold cancelRace, stopTimer, updateRaceStatus. simpl.
      destruct ti; destruct cr; done.
    + destruct (assignFirstUnassigned_frame r w) as [s' ->]. done.
  - unfold tick, Date_now. by case_match.
Qed.

Lemma clock_run (evs : list Event) (w : World) : clock (run evs w) = clock w.
Proof.
  revert w. induction evs as [|e evs IH]; intros w; [done|].
  simpl. by rewrite IH, clock_step.
Qed.

(** X5: the elapsed time of a finished race is the host's clock reading
    when the FINISH trigger is processed minus its reading when the START
    trigger was processed, whatever happened in between that did not end
    the race and whatever timestamps the triggers carried. *)
Theorem elapsed_is_finish_minus_start (w : World) (c1 c2 : Conn)
    (ts1 ts2 : option Z) (evs : list Event) :
  raceState (view w) = ARMED ->
  forallb (fun e => negb (endsRace e)) evs = true ->
  let w1 := step (ConnData c1 (triggerMsg START ts1)) w in
  let w2 := run evs w1 in
  let w3 := step (ConnData c2 (triggerMsg FINISH ts2)) w2 in
  raceState (view w1) = RUNNING
  /\ startTime (view w1) = clock w (reads w)
  /\ raceState (view w2) = RUNNING
  /\ raceState (view w3) = FINISHED
  /\ elapsedTime (view w3) = clock w (reads w2) - clock w (reads w).
Proof.
  intros E Hev w1 w2 w3.
  assert (H1 : raceState (view w1) = RUNNING /\ startTime (view w1) = clock w (reads w)).
  { subst w1. rewrite step_trigger.
    destruct w as [ps [rs st el ti pt sp] clk n iv nt cr db]. simpl in E. subst rs.
    unfold handleTrigger, startTimer, updateRaceStatus. simpl.
    destruct cr; done. }
  destruct H1 as [R1 S1].
  destruct (running_run evs w1 R1 Hev) as [R2 S2].
  fold w2 in R2, S2.
  assert (Hc : clock w2 = clock w).
  { subst w2 w1. by rewrite clock_run, clock_step. }
  split; [done|]. split; [done|]. split; [done|].
  subst w3. rewrite step_trigger.
  set (x := onPeer _ w2).
  assert (Rx : raceState (view x) = RUNNING) by done.
  destruct (handleTrigger_finish x ts2 Rx) as (_ & _ & _ & He & Hf & _).
  split; [done|]. rewrite He. subst x. simpl. by rewrite Hc, S2, S1.
Qed.

Lemma elapsed_is_finish_minus_start_witness :
  let evs := [Tick 1%positive; Tick 1%positive;
              ConnData gateB (triggerMsg SPLIT None); Tick 1%positive] in
  let w3 :=
    step (ConnData gateB (triggerMsg FINISH (Some 5000)))
         (run evs (step (ConnData gateA (triggerMsg START (Some 1000))) armedWorld)) in
  raceState (view armedWorld) = ARMED
  /\ forallb (fun e => negb (endsRace e)) evs = true
  /\ raceState (view w3) = FINISHED
  /\ elapsedTime (view w3) = 42.
Proof.
  intros evs w3.
  pose proof (elapsed_is_finish_minus_start armedWorld gateA gateB (Some 1000)
                (Some 5000) evs eq_refl eq_refl) as (_ & _ & _ & Hf & He).
  split; [reflexivity|]. split; [reflexivity|]. split; [exact Hf|].
  subst w3. rewrite He. reflexivity.
Defined.

(** X6: in every world the host reaches, the callback of an interval timer
    changes nothing unless the race is RUNNING and the timer is the one the
    component holds; then it sets the elapsed time to the current clock
    reading minus the recorded start time.  After FINISH or a cancel, a
    late tick does not touch the displayed time. *)
Theorem tick_only_while_running (clk : nat -> Z) (race : option string)
    (evs : list Event) (h : positive) :
  let w := run evs (initWorld clk race) in
  (raceState (view w) <> RUNNING -> tick h w = w)
  /\ (timerInterval (view w) <> Some h -> tick h w = w)
  /\ (raceState (view w) = RUNNING -> timerInterval (view w) = Some h ->
      elapsedTime (view (tick h w)) = clock w (reads w) - startTime (view w)
      /\ raceState (view (tick h w)) = RUNNING).
Proof.
  intros w.
  assert (Hinv : samplerInv w) by (apply samplerInv_run; done).
  unfold samplerInv in Hinv. unfold tick.
  destruct (raceState (view w)) eqn:E.
  1,2,4: destruct Hinv as [Ht Hi]; rewrite Hi, lookup_empty;
         (split; [done|]); (split; [done|]); intros; discriminate.
  destruct Hinv as (h0 & Ht & Hi). rewrite Hi.
  split; [done|]. split.
  - intros Hn. rewrite lookup_singleton_ne; [done|]. congruence.
  - intros _ Hh. rewrite Ht in Hh. injection Hh as ->.
    rewrite lookup_singleton_eq. simpl. done.
Qed.

Lemma tick_only_while_running_witness :
  let clk := fun k => 1000 + 7 * Z.of_nat k in
  let evs := [ConnOpen gateA; ConnOpen gateB; Click "Set Start"; Click "Set Finish";
              Click "Arm System"; ConnData gateA (triggerMsg START None);
              ConnData gateB (triggerMsg FINISH None)] in
  let w := run evs (initWorld clk None) in
  raceState (view w) <> RUNNING
  /\ elapsedTime (view w) = 7
  /\ tick 1%positive w = w.
Proof.
  intros clk evs w.
  assert (Hn : raceState (view w) <> RUNNING) by (intros H; discriminate H).
  split; [exact Hn|]. split; [reflexivity|].
  destruct (tick_only_while_running clk None evs 1%positive) as [H _].
  exact (H Hn).
Defined.

Lemma step_splitTimes (e : Event) (w : World) :
  splitTimes (view (step e w)) = splitTimes (view w)
  \/ exists k v, splitTimes (view (step e w)) = <[k := v]> (splitTimes (view w)).
Proof.
  assert (Hh : forall role ts x,
             splitTimes (view (handleTrigger role ts x)) = splitTimes (view x)
             \/ exists k v, splitTimes (view (handleTrigger role ts x))
                            = <[k := v]> (splitTimes (view x))).
  { intros role ts [ps [rs st el ti pt sp] clk n iv nt cr db].
    unfold handleTrigger, startTimer, stopTimer, updateRaceStatus. simpl.
    destruct rs; destruct role as [[]|]; simpl; eauto.
    - destruct cr; eauto.
    - destruct ti; destruct cr; eauto. }
  destruct e as [c|c d|c|l|h]; simpl.
  - by left.
  - assert (H : splitTimes (view (onLatestMessage (onPeer (PeerService.onData c d) w)))
                = splitTimes (view w)
                \/ exists k v,
                     splitTimes (view (onLatestMessage (onPeer (PeerService.onData c d) w)))
                     = <[k := v]> (splitTimes (view w))).
    { unfold onLatestMessage. repeat case_match; eauto.
      all: match goal with
           | |- context [handleTrigger ?r ?t ?x] => destruct (Hh r t x); eauto
           end. }
    case_match; eauto.
  - by left.
  - left.
    destruct (click_cases l w) as [-> | [(-> & _) | [(-> & _) | [(r & ->) | ->]]]];
      try done.
    + unfold armSystem, updateRaceStatus. simpl. by destruct (currentRace w).
    + destruct w as [ps [rs st el ti pt sp] clk n iv nt cr db].
      unfold cancelRace, stopTimer, updateRaceStatus. simpl.
      destruct ti; destruct cr; done.
    + destruct (assignFirstUnassigned_frame r w) as [s' ->]. done.
  - left. unfold tick, Date_now. by case_match.
Qed.

(** X7: no host event removes a recorded split time: an entry of the
    split-times record is still there after any run, in particular after
    the race is finished or cancelled and the next one is armed. *)
Theorem splitTimes_never_removed (evs : list Event) (w : World) (k : string) :
  is_Some (splitTimes (view w) !! k) ->
  is_Some (splitTimes (view (run evs w)) !! k).
Proof.
  revert w. induction evs as [|e evs IH]; intros w Hk; [done|].
  simpl. apply IH.
  destruct (step_splitTimes e w) as [-> | (k' & v & ->)]; [done|].
  destruct (decide (k' = k)) as [->|Hne].
  - rewrite lookup_insert_eq. by eexists.
  - by rewrite lookup_insert_ne.
Qed.

Lemma splitTimes_never_removed_witness :
  let w := step (ConnData gateB (triggerMsg SPLIT None)) runningWorld in
  let evs := [Click "Stop Race"; Click "Arm System";
              ConnData gateA (triggerMsg START None)] in
  is_Some (splitTimes (view w) !! "1014"%string)
  /\ raceState (view (run evs w)) = RUNNING
  /\ is_Some (splitTimes (view (run evs w)) !! "1014"%string).
Proof.
  intros w evs.
  assert (Hk : is_Some (splitTimes (view w) !! "1014"%string))
    by (exists 7; vm_compute; reflexivity).
  split; [exact Hk|]. split; [reflexivity|].
  apply (splitTimes_never_removed evs w "1014" Hk).
Defined.

End RaceCourse.

(** ** From the lobby to an armed race *)

Section Lobby.
Import HostView.

Lemma click_set_start (w : World) :
  raceState (view w) = IDLE \/ raceState (view w) = FINISHED ->
  PeerService.peers (peerService w) <> [] ->
  noneUnassigned w = false ->
  click "Set Start" w = assignFirstUnassigned START w.
Proof.
  intros E Hne Hu. unfold click, controls. rewrite Hu.
  assert ((0 <? Z.of_nat (length (PeerService.peers (peerService w)))) = true) as ->.
  { destruct (PeerService.peers (peerService w)); [done|]. simpl. by apply Z.ltb_lt. }
  destruct E as [-> | ->]; reflexivity.
Qed.

Lemma find_first {A : Type} (f : A -> bool) (l : list A) (x : A) :
  List.find f l = Some x ->
  exists pre post, l = pre ++ x :: post /\ f x = true
                   /\ forall y, y ∈ pre -> f y = false.
Proof.
  induction l as [|a l IH]; simpl; [done|].
  destruct (f a) eqn:Ha.
  - intros [= ->]. exists [], l. split; [done|]. split; [done|].
    intros y Hy. by apply elem_of_nil in Hy.
  - intros Hf. destruct (IH Hf) as (pre & post & -> & Hx & Hpre).
    exists (a :: pre), post. split; [done|]. split; [done|].
    intros y Hy. apply elem_of_cons in Hy as [->|Hy]; [done|by apply Hpre].
Qed.

(** X8: when some registered peer is unassigned and the race is IDLE or
    FINISHED, a click on Set Start gives START to the first unassigned
    peer of the list: every peer before it has a role, the click is
    [setRole] of its id, and after it that peer, and no other, holds START;
    the Arm System button is enabled, and clicking it arms the race. *)
Theorem set_start_enables_arming (w : World) :
  registryInv w ->
  (exists p, p ∈ PeerService.peers (peerService w) /\ PeerService.role p = NONE) ->
  raceState (view w) = IDLE \/ raceState (view w) = FINISHED ->
  let w1 := click "Set Start" w in
  (exists pre firstUnassigned post,
     PeerService.peers (peerService w) = pre ++ firstUnassigned :: post
     /\ PeerService.role firstUnassigned = NONE
     /\ (forall q, q ∈ pre -> PeerService.role q <> NONE)
     /\ w1 = setRole (PeerService.id firstUnassigned) START w
     /\ holders START (PeerService.peersRef (peerService w1))
        = [PeerService.withRole START firstUnassigned])
  /\ length (holders START (PeerService.peersRef (peerService w1))) = 1%nat
  /\ canStart w1 = true
  /\ raceState (view (click "Arm System" w1)) = ARMED.
Proof.
  intros (Hs & Hnd & Hex) (p & Hp & Hr) E w1.
  assert (Hne : PeerService.peers (peerService w) <> []).
  { intros H0. rewrite H0 in Hp. by apply elem_of_nil in Hp. }
  assert (Hu : noneUnassigned w = false).
  { unfold noneUnassigned. apply negb_false_iff. apply existsb_exists.
    exists p. split; [by apply list_elem_of_In|]. by apply bool_decide_eq_true. }
  assert (Hw1 : w1 = assignFirstUnassigned START w) by (by apply click_set_start).
  unfold assignFirstUnassigned in Hw1.
  destruct (List.find _ (PeerService.peers (peerService w))) as [p0|] eqn:Hf.
  2:{ exfalso.
      pose proof (find_none _ _ Hf p (proj1 (list_elem_of_In _ _) Hp)) as Hno.
      simpl in Hno. rewrite bool_decide_eq_true_2 in Hno by done.
      discriminate Hno. }
  destruct (find_first _ _ _ Hf) as (pre & post & Hsplit & _ & Hpre).
  apply find_some in Hf as [Hin0 Hr0]. apply list_elem_of_In in Hin0.
  apply bool_decide_eq_true in Hr0. unfold synced in Hs. rewrite Hs in Hin0.
  assert (Hreg : PeerService.peersRef (peerService w1)
                 = map (reassign (PeerService.id p0) START)
                       (PeerService.peersRef (peerService w))).
  { rewrite Hw1. by apply setRole_peersRef. }
  assert (Hsync : synced (peerService w1)) by (rewrite Hw1; apply setRole_synced).
  assert (Hin1 : PeerService.withRole START p0 ∈ PeerService.peersRef (peerService w1)).
  { rewrite Hreg.
    replace (PeerService.withRole START p0)
      with (reassign (PeerService.id p0) START p0)
      by (unfold reassign; by rewrite decide_True).
    by apply (list_elem_of_fmap_2 (reassign (PeerService.id p0) START)). }
  assert (Hview : view w1 = view w).
  { rewrite Hw1. destruct (setRole_frame (PeerService.id p0) START w) as [s' ->]. done. }
  assert (Hh : PeerService.withRole START p0
               ∈ holders START (PeerService.peersRef (peerService w1))).
  { unfold holders. apply list_elem_of_filter. done. }
  assert (Hlen : length (holders START (PeerService.peersRef (peerService w1))) = 1%nat).
  { apply Nat.le_antisymm.
    - rewrite Hreg. apply reassign_holders; [done|done|apply Hex].
    - destruct (holders START (PeerService.peersRef (peerService w1)));
        [by apply elem_of_nil in Hh|simpl; lia]. }
  split; [|split; [exact Hlen|split]].
  - exists pre, p0, post. split; [exact Hsplit|]. split; [exact Hr0|].
    split.
    { intros q Hq Hn. specialize (Hpre q Hq). simpl in Hpre.
      by rewrite bool_decide_eq_true_2 in Hpre. }
    split; [exact Hw1|].
    destruct (holders START (PeerService.peersRef (peerService w1))) as [|h [|h' hs]];
      try discriminate Hlen.
    apply list_elem_of_singleton in Hh. by rewrite Hh.
  - unfold canStart. apply existsb_exists.
    exists (PeerService.withRole START p0). split.
    + apply list_elem_of_In. unfold synced in Hsync. by rewrite Hsync.
    + by apply bool_decide_eq_true.
  - assert (Hc : canStart w1 = true).
    { unfold canStart. apply existsb_exists.
      exists (PeerService.withRole START p0). split.
      - apply list_elem_of_In. unfold synced in Hsync. by rewrite Hsync.
      - by apply bool_decide_eq_true. }
    rewrite click_arm_enabled; [|done|by rewrite Hview].
    apply armSystem_effect.
Qed.

Lemma set_start_enables_arming_witness :
  registryInv lobbyWorld
  /\ (exists p, (p ∈ PeerService.peers (peerService lobbyWorld))
                /\ PeerService.role p = NONE)
  /\ map PeerService.id (holders START
       (PeerService.peersRef (peerService (click "Set Start" lobbyWorld))))
     = ["1111"%string]
  /\ raceState (view (click "Arm System" (click "Set Start" lobbyWorld))) = ARMED.
Proof.
  assert (Hw : registryInv lobbyWorld).
  { split; [reflexivity|]. split; [compute_done|]. split; vm_compute; lia. }
  assert (Hp : exists p, p ∈ PeerService.peers (peerService lobbyWorld)
                         /\ PeerService.role p = NONE).
  { eexists. split; [left|reflexivity]. }
  split; [exact Hw|]. split; [exact Hp|].
  destruct (set_start_enables_arming lobbyWorld Hw Hp (or_introl eq_refl))
    as (_ & _ & _ & Ha).
  split; [vm_compute; reflexivity|exact Ha].
Defined.

End Lobby.

(** * Further properties of the gate *)

(** ** The frame difference *)

Section FrameDifference.
Import MotionService.

Lemma pixelLoop_bounds (fuel i : nat) (cur prev : list Z) (d t : Z) :
  d <= fst (pixelLoop fuel i cur prev d t)
  /\ 4 * (fst (pixelLoop fuel i cur prev d t) - d)
     <= Z.max 0 (Z.of_nat (length cur) - Z.of_nat i + 3).
Proof.
  revert i d t. induction fuel as [|fuel IH]; intros i d t; simpl; [lia|].
  destruct (i <? length cur)%nat eqn:Hi; [|simpl; lia].
  apply Nat.ltb_lt in Hi.
  assert (Hrec : forall d' t', d <= d' <= d + 1 ->
            d <= fst (pixelLoop fuel (i + 4) cur prev d' t')
            /\ 4 * (fst (pixelLoop fuel (i + 4) cur prev d' t') - d)
               <= Z.max 0 (Z.of_nat (length cur) - Z.of_nat i + 3)).
  { intros d' t' Hd. destruct (IH (i + 4)%nat d' t') as [H1 H2]. lia. }
  repeat case_match; apply Hrec; lia.
Qed.

(** X9: the count of changed pixels is never negative and never more than
    the number of pixels of the frame (a quarter of its length, rounded
    up), whatever the previous frame holds; so a frame of at most 20 pixels
    stays at or below the sensitivity of 20. *)
Theorem countDiff_bounds (currentFrame prev : list Z) :
  0 <= countDiff currentFrame prev
  /\ 4 * countDiff currentFrame prev <= Z.of_nat (length currentFrame) + 3
  /\ ((length currentFrame <= 80)%nat -> (sensitivity <? countDiff currentFrame prev) = false).
Proof.
  unfold countDiff.
  destruct (pixelLoop_bounds (length currentFrame) 0 currentFrame prev 0 0) as [H1 H2].
  split; [done|]. split; [lia|].
  intros Hl. apply Z.ltb_ge. unfold sensitivity. lia.
Qed.

Lemma pixelLoop_withinNoise (fuel i : nat) (cur prev : list Z) (d t : Z) :
  withinNoise cur prev ->
  pixelLoop fuel i cur prev d t = (d, t).
Proof.
  intros Hn. revert i. induction fuel as [|fuel IH]; intros i; simpl; [done|].
  destruct (i <? length cur)%nat; [|done].
  destruct (cur !! i) as [r|] eqn:E1; [|apply IH].
  destruct (cur !! (i + 1)%nat) as [g|] eqn:E2; [|apply IH].
  destruct (cur !! (i + 2)%nat) as [b|] eqn:E3; [|apply IH].
  destruct (prev !! i) as [pr|] eqn:E4; [|apply IH].
  destruct (prev !! (i + 1)%nat) as [pg|] eqn:E5; [|apply IH].
  destruct (prev !! (i + 2)%nat) as [pb|] eqn:E6; [|apply IH].
  pose proof (Hn _ _ _ E1 E4). pose proof (Hn _ _ _ E2 E5). pose proof (Hn _ _ _ E3 E6).
  assert ((threshold <? Z.abs (r - pr) + Z.abs (g - pg) + Z.abs (b - pb)) = false) as ->
    by (apply Z.ltb_ge; unfold threshold; lia).
  apply IH.
Qed.

Lemma withinNoise_refl (frame : list Z) : withinNoise frame frame.
Proof.
  intros j a b Ha Hb. rewrite Ha in Hb. injection Hb as <-.
  rewrite Z.sub_diag. simpl. lia.
Qed.

End FrameDifference.

Section QuietGate.
Import GateView.

(** On a gate at rest the message effect, run again after the detector
    loop has stored a frame, changes nothing. *)
Lemma onLatestMessage_after_loop (g : t) (cd' : Z) (pf' : option (list Z)) :
  onLatestMessage g = Some g ->
  let g' := onMotionService
              (fun m => MotionService.mk (MotionService.isArmed m)
                          (MotionService.motionDetected m) cd' pf') g in
  onLatestMessage g' = Some g'.
Proof.
  destruct g as [st ro [ia md cd pf] [hc lm wi] cv vb].
  unfold onLatestMessage. simpl.
  unfold setRole, setStatus, onMotionService, MotionService.armSystem. simpl.
  destruct lm as [[[] [pl|]]|]; simpl; try done;
    repeat case_match; intros Hfix; first [reflexivity | injection Hfix; intros; subst; reflexivity].
Qed.

Lemma runningLoop_shape (frame : list Z) (m : MotionService.t) :
  exists cd',
    MotionService.runningLoop frame m
    = MotionService.mk (MotionService.isArmed m) (MotionService.motionDetected m)
        cd' (Some frame).
Proof.
  destruct m as [ia md cd pf].
  unfold MotionService.runningLoop, MotionService.loop. simpl.
  destruct pf; eexists; reflexivity.
Qed.

(** X10: a frame that differs from the previous one by at most 16 in every
    colour component (an unchanged frame in particular), and likewise the
    first frame after the camera started, never fires, whatever armed flag
    the detector loop sees: the loop keeps the detector flags and the frame
    becomes the previous frame.  A gate at rest without a pending
    detection that sees such a frame stays as it is (ARMED if it was): the
    effects of the render that follows change nothing, and nothing is
    sent. *)
Theorem quiet_frame_never_fires (g : t) (isArmed : bool) (frame : list Z) (now : Z) :
  MotionService.motionDetected (motionService g) = false ->
  match MotionService.previousFrameRef (motionService g) with
  | Some prev => withinNoise frame prev
  | None => True
  end ->
  let m' := MotionService.loop isArmed frame (motionService g) in
  MotionService.fires isArmed frame (motionService g) = false
  /\ MotionService.isArmed m' = MotionService.isArmed (motionService g)
  /\ MotionService.motionDetected m' = false
  /\ MotionService.previousFrameRef m' = Some frame
  /\ (atRest g ->
      exists g',
        step (Frame frame) now g = Some g'
        /\ status g' = status g
        /\ role g' = role g
        /\ peerService g' = peerService g
        /\ MotionService.isArmed (motionService g')
           = MotionService.isArmed (motionService g)
        /\ MotionService.motionDetected (motionService g') = false
        /\ MotionService.previousFrameRef (motionService g') = Some frame).
Proof.
  intros Hmd Hq m'.
  assert (Hf : MotionService.fires isArmed frame (motionService g) = false
               /\ MotionService.isArmed m' = MotionService.isArmed (motionService g)
               /\ MotionService.motionDetected m' = false
               /\ MotionService.previousFrameRef m' = Some frame).
  { subst m'. destruct g as [st ro [ia md cd pf] ps cv vb]. simpl in *. subst md.
    unfold MotionService.fires, MotionService.loop. simpl.
    destruct pf as [prev|]; simpl; [|done].
    unfold MotionService.countDiff. rewrite pixelLoop_withinNoise by done. simpl.
    rewrite andb_false_r. done. }
  destruct Hf as (F1 & F2 & F3 & F4). repeat (split; [done|]).
  intros [Hr _]. rewrite step_closed. cbn [update].
  destruct (runningLoop_shape frame (motionService g)) as [cd' Hl].
  pose proof (onLatestMessage_after_loop g cd' (Some frame) Hr) as Hm. cbv zeta in Hm.
  assert (Hu : onMotionService (MotionService.runningLoop frame) g
               = onMotionService
                   (fun m => MotionService.mk (MotionService.isArmed m)
                               (MotionService.motionDetected m) cd' (Some frame)) g).
  { unfold onMotionService. by rewrite Hl. }
  rewrite Hu. rewrite flushed_none by (simpl; by rewrite Hmd).
  rewrite Hm. eexists. split; [reflexivity|]. simpl. done.
Qed.

Lemma quiet_frame_never_fires_witness :
  MotionService.motionDetected (motionService armedGate) = false
  /\ atRest armedGate
  /\ exists g',
       step (Frame stillFrame) 50 armedGate = Some g'
       /\ status g' = ARMED
       /\ peerService g' = peerService armedGate.
Proof.
  assert (Hr : atRest armedGate) by (split; reflexivity).
  split; [reflexivity|]. split; [exact Hr|].
  assert (Hq : match MotionService.previousFrameRef (motionService armedGate) with
               | Some prev => withinNoise stillFrame prev
               | None => True
               end) by apply withinNoise_refl.
  destruct (quiet_frame_never_fires armedGate true stillFrame 50 eq_refl Hq)
    as (_ & _ & _ & _ & H).
  destruct (H Hr) as (g' & Hs & Hst & _ & Hp & _).
  exists g'. split; [exact Hs|]. split; [exact Hst|]. exact Hp.
Defined.

(** The message effect throws on the latest message exactly when that is
    a ROLE_ASSIGN or a STATE_CHANGE without a payload. *)
Lemma onLatestMessage_None (g : t) :
  onLatestMessage g = None
  <-> exists d, LegacyPeer.latestMessage (peerService g) = Some d
                /\ (type d = ROLE_ASSIGN \/ type d = STATE_CHANGE)
                /\ payload d = None.
Proof.
  destruct g as [st ro ms [hc lm wi] cv vb]. unfold onLatestMessage. simpl.
  destruct lm as [[[] [pl|]]|]; simpl; split; try done;
    try (intros (d & Hd & Ht & Hp); simplify_eq; simpl in *;
         first [done | destruct Ht; done]);
    try (intros _; eexists; split; [reflexivity|]; split; [|reflexivity];
         simpl; auto).
  all: repeat case_match; done.
Qed.

(** X11: the gate's message effect throws exactly when the latest message
    is a ROLE_ASSIGN or a STATE_CHANGE that carries no payload.  For a gate
    whose latest message did not throw that is exactly when such a message
    arrives: every other event is processed, and so is every message the
    host builds.  Every state a step ends in is at rest: the effects, run
    again, change nothing. *)
Theorem gate_effect_throws_iff (e : Event) (now : Z) (g : t) :
  (step e now g = None
   <-> exists d, LegacyPeer.latestMessage (peerService (update e g)) = Some d
                 /\ (type d = ROLE_ASSIGN \/ type d = STATE_CHANGE)
                 /\ payload d = None)
  /\ (onLatestMessage g <> None ->
      (step e now g = None
       <-> exists d, e = Recv d
                     /\ (type d = ROLE_ASSIGN \/ type d = STATE_CHANGE)
                     /\ payload d = None))
  /\ (forall r, step (Recv (msgRoleAssign r)) now g <> None)
  /\ (forall state raceId, step (Recv (msgStateChange state raceId)) now g <> None)
  /\ step (Recv msgReset) now g <> None
  /\ (forall g', step e now g = Some g' ->
                 atRest g' /\ forall now', effects now' g' = Some g').
Proof.
  assert (Hiff : forall e0,
            step e0 now g = None
            <-> exists d, LegacyPeer.latestMessage (peerService (update e0 g)) = Some d
                          /\ (type d = ROLE_ASSIGN \/ type d = STATE_CHANGE)
                          /\ payload d = None).
  { intros e0. rewrite step_closed, onLatestMessage_None.
    by rewrite (proj2 (flushed_bound now (update e0 g))). }
  split; [apply Hiff|]. split; [|split; [|split; [|split]]].
  - intros Hg. rewrite Hiff. destruct e as [d|fr|c seen nm|]; cbn [update].
    + simpl. split.
      * intros (d' & [= <-] & Ht & Hp). by exists d.
      * intros (d' & [= <-] & Ht & Hp). by exists d.
    + split; [|by intros (d & Hd & _)].
      intros Hb. exfalso. apply Hg. apply onLatestMessage_None.
      destruct g as [st ro ms [hc lm wi] cv vb]. exact Hb.
    + split; [|by intros (d & Hd & _)].
      intros Hb. exfalso. apply Hg. apply onLatestMessage_None.
      destruct g as [st ro ms [hc lm wi] cv vb]. unfold LegacyPeer.onHostOpen in Hb.
      destruct seen; exact Hb.
    + split; [|by intros (d & Hd & _)].
      intros Hb. exfalso. apply Hg. apply onLatestMessage_None.
      destruct g as [st ro ms [hc lm wi] cv vb]. exact Hb.
  - intros r Hn. apply Hiff in Hn as (d & [= <-] & Ht & Hp). discriminate Hp.
  - intros state raceId Hn. apply Hiff in Hn as (d & [= <-] & Ht & Hp). discriminate Hp.
  - intros Hn. apply Hiff in Hn as (d & [= <-] & [Ht|Ht] & Hp); discriminate Ht.
  - intros g'. apply step_at_rest.
Qed.

Lemma pendingFlag_update (e : Event) (g : t) : pendingFlag (update e g) = pendingFlag g.
Proof.
  destruct (update_frame e g) as (Hst & _ & Hm & _). unfold pendingFlag.
  by rewrite Hst, Hm.
Qed.

Lemma step_bound (e : Event) (now : Z) (g g' : t) :
  step e now g = Some g' ->
  (length (triggersSent g') <= length (triggersSent g) + pendingFlag g)%nat
  /\ pendingFlag g' = 0%nat.
Proof.
  intros Hs. destruct (step_at_rest e now g g' Hs) as [[_ Hp] _].
  split; [|unfold pendingFlag; by rewrite Hp].
  rewrite step_closed in Hs.
  destruct (onLatestMessage_frame _ _ Hs) as (H1 & _).
  destruct (flushed_bound now (update e g)) as [H2 _].
  destruct (update_frame e g) as (_ & _ & _ & _ & H3).
  rewrite pendingFlag_update, H3 in H2. rewrite H1. exact H2.
Qed.

(** X12: over any run of gate events, the replays of the message effect
    included, the gate sends at most one TRIGGER per arming, and in fact
    at most one at all: the one of a detection that was pending in an ARMED
    gate at the start of the run.  The number of TRIGGER messages sent
    during the run is at most the number of STATE_CHANGE("ARMED") messages
    received in it, plus one when the gate was ARMED at the start. *)
Theorem triggers_bounded_by_armings (evs : list (Event * Z)) (g : t) :
  (length (triggersSent (run evs g)) <= length (triggersSent g) + pendingFlag g)%nat
  /\ (pendingFlag g <= armedFlag g)%nat
  /\ (length (triggersSent (run evs g))
      <= length (triggersSent g) + armedFlag g + rearms evs)%nat.
Proof.
  assert (H1 : (length (triggersSent (run evs g))
                <= length (triggersSent g) + pendingFlag g)%nat).
  { revert g. induction evs as [|[e now] evs IH]; intros g; [simpl; lia|].
    cbn [run]. destruct (step e now g) as [g'|] eqn:Hs; [|lia].
    destruct (step_bound e now g g' Hs) as [B1 B2].
    pose proof (IH g') as B3. lia. }
  assert (H2 : (pendingFlag g <= armedFlag g)%nat).
  { unfold pendingFlag, armedFlag.
    destruct (MotionService.motionDetected (motionService g)); simpl; [|lia].
    destruct (bool_decide (status g = ARMED)); lia. }
  split; [exact H1|]. split; [exact H2|]. lia.
Qed.

End QuietGate.

(** * Host and gates together *)

Section StateBroadcast.
Import System.

Lemma step_armed (now : Z) (raceId : option string) (g : GateView.t) :
  GateView.step (GateView.Recv (msgStateChange "ARMED" raceId)) now g
  = Some (armGate raceId (flushed now g)).
Proof.
  rewrite step_closed. destruct g as [st ro [ia md cd pf] [hc lm wi] cv vb].
  unfold flushed, GateView.onMotion, GateView.onLatestMessage,
    GateView.handleMotionTrigger, GateView.vibrate, LegacyPeer.sendTrigger, armGate.
  simpl. destruct md; destruct st; destruct cv; destruct hc; reflexivity.
Qed.

Lemma armGate_idemp (now : Z) (raceId : option string) (g : GateView.t) :
  armGate raceId (flushed now (armGate raceId (flushed now g)))
  = armGate raceId (flushed now g).
Proof. reflexivity. Qed.

Lemma deliver_all_lookup (now : Z) (m : PeerData) (f : GateView.t -> GateView.t)
    (cs : list Conn) (gs : gmap Conn GateView.t) (k : Conn) :
  (forall g, GateView.step (GateView.Recv m) now g = Some (f g)) ->
  (forall g, f (f g) = f g) ->
  fold_left (deliver now) (map (fun c => (c, m)) cs) gs !! k
  = if decide (k ∈ cs) then f <$> gs !! k else gs !! k.
Proof.
  intros Hstep Hidem. revert gs.
  induction cs as [|c cs IH]; intros gs; cbn [map fold_left].
  - rewrite decide_False; [done|]. apply not_elem_of_nil.
  - rewrite IH.
    assert (Hd : deliver now gs (c, m) !! k
                 = if decide (k = c) then f <$> gs !! k else gs !! k).
    { unfold deliver. cbn [fst snd].
      destruct (gs !! c) as [g|] eqn:Hc.
      - rewrite Hstep. destruct (decide (k = c)) as [E|E].
        + subst k. by rewrite lookup_insert_eq, Hc.
        + by rewrite lookup_insert_ne.
      - destruct (decide (k = c)) as [E|E]; [|done]. subst k. by rewrite Hc. }
    rewrite Hd.
    destruct (decide (k = c)) as [->|Hne].
    + rewrite (decide_True (P := c ∈ c :: cs)) by left.
      case_decide; [|done].
      destruct (gs !! c); simpl; [|done]. by rewrite Hidem.
    + destruct (decide (k ∈ cs)) as [Hin|Hin].
      * rewrite decide_True; [done|]. by right.
      * rewrite decide_False; [done|].
        intros H. apply elem_of_cons in H as [H|H]; done.
Qed.

(** X13: when the host broadcasts STATE_CHANGE("ARMED"), every gate at
    the other end of a registered connection ends ARMED with its detector
    armed and any earlier detection cleared, with its role unchanged; it
    has sent what it had sent and the TRIGGER of a detection that was still
    pending, so nothing at all when no detection was pending; a gate whose
    connection is not registered is not touched. *)
Theorem arm_broadcast_arms_gates (now : Z) (raceId : option string) (sys : t) :
  let armed := hostDo now (PeerService.broadcastState "ARMED" raceId) sys in
  (forall p g',
     p ∈ PeerService.peersRef (host sys) ->
     gates armed !! PeerService.conn p = Some g' ->
     GateView.status g' = GateView.ARMED
     /\ MotionService.isArmed (GateView.motionService g') = true
     /\ MotionService.motionDetected (GateView.motionService g') = false
     /\ exists g, gates sys !! PeerService.conn p = Some g
                  /\ GateView.role g' = GateView.role g
                  /\ LegacyPeer.wire (GateView.peerService g')
                     = LegacyPeer.wire (GateView.peerService (flushed now g))
                  /\ (pendingFlag g = 0%nat ->
                      LegacyPeer.wire (GateView.peerService g')
                      = LegacyPeer.wire (GateView.peerService g)))
  /\ (forall k,
        k ∉ map PeerService.conn (PeerService.peersRef (host sys)) ->
        gates armed !! k = gates sys !! k).
Proof.
  intros armed.
  assert (Hl : forall k,
            gates armed !! k
            = if decide (k ∈ map PeerService.conn (PeerService.peersRef (host sys)))
              then (fun g => armGate raceId (flushed now g)) <$> gates sys !! k
              else gates sys !! k).
  { intros k. subst armed. unfold hostDo. cbv zeta. cbn [gates].
    rewrite broadcastState_closed. cbn [PeerService.wire].
    rewrite drop_app_length.
    rewrite <- (map_map PeerService.conn (fun c => (c, msgStateChange "ARMED" raceId))).
    apply (deliver_all_lookup now _ (fun g => armGate raceId (flushed now g)));
      [apply step_armed|apply armGate_idemp]. }
  split.
  - intros p g' Hp Hg. rewrite Hl in Hg.
    rewrite decide_True in Hg by (by apply (list_elem_of_fmap_2 PeerService.conn)).
    destruct (gates sys !! PeerService.conn p) as [g|]; simpl in Hg; [|done].
    injection Hg as <-. repeat (split; [reflexivity|]). exists g.
    split; [done|]. split.
    { destruct g as [st ro [ia md cd pf] [hc lm wi] cv vb].
      unfold flushed, GateView.onMotion, GateView.handleMotionTrigger,
        GateView.vibrate. simpl.
      destruct md; destruct st; destruct cv; reflexivity. }
    split; [reflexivity|].
    intros Hp0. rewrite flushed_none; [reflexivity|].
    unfold pendingFlag in Hp0.
    by destruct (MotionService.motionDetected (GateView.motionService g)
                 && bool_decide (GateView.status g = GateView.ARMED)).
  - intros k Hk. rewrite Hl. by rewrite decide_False.
Qed.

Lemma arm_broadcast_arms_gates_witness :
  let armed := hostDo 0 (PeerService.broadcastState "ARMED" None) twoGates in
  PeerService.mkPeer "2222" gateB NONE (Some "Unknown"%string)
    ∈ PeerService.peersRef (host twoGates)
  /\ GateView.status <$> gates twoGates !! gateB = Some GateView.LOBBY
  /\ GateView.status <$> gates armed !! gateB = Some GateView.ARMED.
Proof.
  intros armed.
  assert (Hin : PeerService.mkPeer "2222" gateB NONE (Some "Unknown"%string)
                ∈ PeerService.peersRef (host twoGates)) by (right; left).
  split; [exact Hin|]. split; [vm_compute; reflexivity|].
  destruct (gates armed !! gateB) as [g'|] eqn:Hg.
  - destruct (arm_broadcast_arms_gates 0 None twoGates) as [H _].
    destruct (H _ _ Hin Hg) as [Hst _]. simpl. by rewrite Hst.
  - exfalso. vm_compute in Hg. discriminate Hg.
Defined.

End StateBroadcast.

(** * The displayed time *)

Section Display.
Import HostDisplay.

Lemma string_length_app (s1 s2 : string) :
  String.length (s1 +:+ s2) = (String.length s1 + String.length s2)%nat.
Proof. induction s1 as [|c s1 IH]; simpl; [done|]. by rewrite IH. Qed.

Lemma padStart2_small (c : Z) :
  0 <= c <= 99 -> String.length (padStart2 (pretty c)) = 2%nat.
Proof.
  intros Hc.
  assert (Hall : forallb (fun k => (String.length (padStart2 (pretty k)) =? 2)%nat)
                         (seqZ 0 100) = true) by (vm_compute; reflexivity).
  rewrite forallb_forall in Hall.
  apply Nat.eqb_eq. apply Hall. apply list_elem_of_In.
  apply elem_of_seqZ. lia.
Qed.

(** X14: for a time of [ms] milliseconds, not negative, the clock shows
    the whole seconds, a dot, and exactly two digits of hundredths; the
    hundredths are cut off, not rounded: the shown value is at most [ms] and
    less than 10 ms below it.  When a precise time from the database is
    present it is shown in place of the elapsed time. *)
Theorem formattedTime_centiseconds (v : HostView.View) (ms : Z) :
  ms = default (HostView.elapsedTime v) (HostView.preciseTime v) ->
  0 <= ms < 2 ^ 40 ->
  formattedTime v = pretty (ms / 1000) +:+ "." +:+ padStart2 (pretty (centis ms))
  /\ 0 <= centis ms <= 99
  /\ String.length (padStart2 (pretty (centis ms))) = 2%nat
  /\ 1000 * (ms / 1000) + 10 * centis ms <= ms < 1000 * (ms / 1000) + 10 * centis ms + 10.
Proof.
  intros Hms Hr.
  assert (Hc : 0 <= centis ms <= 99 /\
               1000 * (ms / 1000) + 10 * centis ms <= ms
                 < 1000 * (ms / 1000) + 10 * centis ms + 10).
  { unfold centis. rewrite Z.rem_mod_nonneg by lia.
    pose proof (Z.mod_pos_bound ms 1000 ltac:(lia)).
    pose proof (Z.div_mod ms 1000 ltac:(lia)).
    pose proof (Z.div_mod (ms mod 1000) 10 ltac:(lia)).
    pose proof (Z.mod_pos_bound (ms mod 1000) 10 ltac:(lia)).
    lia. }
  destruct Hc as [Hc Hb].
  split; [|split; [done|split; [by apply padStart2_small|done]]].
  unfold formattedTime. destruct (HostView.preciseTime v); simpl in Hms; by subst.
Qed.

Lemma formattedTime_centiseconds_witness :
  let v := HostView.mkView HostView.FINISHED 1000 12345 None None ∅ in
  0 <= 12345 < 2 ^ 40
  /\ formattedTime v = "12.34"%string
  /\ formattedTime (HostView.mkView HostView.FINISHED 1000 12345 None (Some 9058) ∅)
     = "9.05"%string.
Proof.
  intros v. split; [lia|].
  destruct (formattedTime_centiseconds v 12345 eq_refl ltac:(lia)) as [H1 _].
  destruct (formattedTime_centiseconds
              (HostView.mkView HostView.FINISHED 1000 12345 None (Some 9058) ∅)
              9058 eq_refl ltac:(lia)) as [H2 _].
  split; [rewrite H1|rewrite H2]; vm_compute; reflexivity.
Defined.

Section PreciseTime.
Context {Row : Type} (gate_role : Row -> string) (client_timestamp : Row -> Z).

Lemma find_app_Some {A : Type} (f : A -> bool) (l l' : list A) (x : A) :
  List.find f l = Some x -> List.find f (l ++ l') = Some x.
Proof.
  induction l as [|a l IH]; simpl; [done|]. destruct (f a); [done|]. apply IH.
Qed.

(** X15: once the triggers from the database hold a START row and a
    FINISH row, the precise time is the client timestamp of the first
    FINISH row minus that of the first START row: the effect stores it, the
    clock shows it whatever the elapsed time says, and rows that arrive
    later do not change it. *)
Theorem precise_time_from_first_triggers (triggers later : list Row)
    (s f : Row) (w : HostView.World) :
  List.find (fun t => bool_decide (gate_role t = "START"%string)) triggers = Some s ->
  List.find (fun t => bool_decide (gate_role t = "FINISH"%string)) triggers = Some f ->
  let d := client_timestamp f - client_timestamp s in
  let w' := fst (correctTiming gate_role client_timestamp (triggers ++ later) w) in
  calculateRaceDuration gate_role client_timestamp (triggers ++ later) = Some d
  /\ HostView.preciseTime (HostView.view w') = Some d
  /\ formattedTime (HostView.view w') = formatMs d
  /\ HostView.elapsedTime (HostView.view w') = HostView.elapsedTime (HostView.view w)
  /\ HostView.raceState (HostView.view w') = HostView.raceState (HostView.view w).
Proof.
  intros Hs Hf d w'.
  assert (Hs' := find_app_Some _ triggers later s Hs).
  assert (Hf' := find_app_Some _ triggers later f Hf).
  assert (Hd : calculateRaceDuration gate_role client_timestamp (triggers ++ later)
               = Some d).
  { unfold calculateRaceDuration. by rewrite Hs', Hf'. }
  assert (Hlen : (2 <=? length (triggers ++ later))%nat = true).
  { apply Nat.leb_le. rewrite length_app.
    apply find_some in Hs as [Hsin Hsr]. apply find_some in Hf as [Hfin Hfr].
    apply bool_decide_eq_true in Hsr. apply bool_decide_eq_true in Hfr.
    destruct triggers as [|a [|b l]]; simpl in *; try lia.
    destruct Hsin as [<-|[]]. destruct Hfin as [<-|[]]. congruence. }
  subst w'. unfold correctTiming. rewrite Hlen, Hs', Hf', Hd. simpl.
  repeat split; try done.
Qed.

End PreciseTime.

Lemma precise_time_from_first_triggers_witness :
  let rows := [("START"%string, 1000); ("FINISH"%string, 5000)] in
  let later := [("FINISH"%string, 9000); ("START"%string, 0)] in
  List.find (fun t => bool_decide (fst t = "START"%string)) rows
  = Some ("START"%string, 1000)
  /\ List.find (fun t => bool_decide (fst t = "FINISH"%string)) rows
     = Some ("FINISH"%string, 5000)
  /\ HostView.preciseTime
       (HostView.view (fst (correctTiming fst snd (rows ++ later) runningWorld)))
     = Some 4000.
Proof.
  intros rows later.
  split; [reflexivity|]. split; [reflexivity|].
  apply (precise_time_from_first_triggers fst snd rows later
           ("START"%string, 1000) ("FINISH"%string, 5000) runningWorld);
    reflexivity.
Defined.

End Display.

(** * The provider's connection to the host *)

Section ProviderLife.
Import Provider.

(** X16: [destroy] can be repeated without further effect, and without a
    Peer instance it does nothing.  After it the registry and the buffer of
    trigger events are empty and there is no host connection, so a
    broadcast, a reset and [sendTrigger] send nothing; [connectToHost] and
    a reconnect timer that was still scheduled do not open a connection. *)
Theorem destroy_idempotent_and_final (p : t) (hostId deviceName state : string)
    (raceId : option string) (r : Role) (timestamp : Z) :
  let q := destroy p in
  destroy q = q
  /\ (peerRef p = None -> q = p)
  /\ (peerRef p <> None ->
      PeerService.peersRef (core q) = []
      /\ PeerService.peers (core q) = []
      /\ PeerService.triggerEvents (core q) = []
      /\ PeerService.hostConnectionRef (core q) = None
      /\ PeerService.wire (core q) = PeerService.wire (core p)
      /\ PeerService.broadcastState state raceId (core q) = core q
      /\ PeerService.broadcastReset (core q) = core q
      /\ PeerService.sendTrigger r timestamp raceId (core q) = core q
      /\ connectToHost hostId deviceName q = q
      /\ attempts (onRetry hostId deviceName q) = attempts p).
Proof.
  intros q. subst q. unfold destroy.
  destruct (peerRef p) as [k|] eqn:Hp.
  - simpl. split; [done|]. split; [done|]. intros _. repeat split.
  - rewrite Hp. split; [done|]. split; [done|]. intros H. done.
Qed.

Lemma destroy_idempotent_and_final_witness :
  let p := onCore (fun _ => PeerService.setTriggerEvents [(START, Some 1000)] lobby2)
                  freshClient in
  peerRef p <> None
  /\ PeerService.peersRef (core (destroy p)) = []
  /\ PeerService.broadcastReset (core (destroy p)) = core (destroy p)
  /\ attempts (onRetry "4821" "Start Gate" (destroy p)) = attempts p.
Proof.
  intros p.
  assert (Hp : peerRef p <> None) by (intros H; discriminate H).
  destruct (destroy_idempotent_and_final p "4821" "Start Gate" "ARMED" None START 0)
    as (_ & _ & H).
  destruct (H Hp) as (H1 & _ & _ & _ & _ & _ & H2 & _ & _ & H3).
  split; [exact Hp|]. split; [exact H1|]. split; [exact H2|exact H3].
Defined.

(** X17: the handshake and the reconnection.  When the connection opens,
    the JOIN with the device name is the message sent on it and triggers go
    to that connection.  After a close, triggers are dropped, and the timer
    the close scheduled calls [peer.connect] again; if a connection has
    opened in the meantime the timer does nothing.  An error schedules a
    timer only for the types peer-unavailable and network. *)
Theorem handshake_and_reconnect (p : t) (c c' : Conn)
    (hostId deviceName errType : string) (r : Role) (timestamp : Z)
    (raceId : option string) :
  peerRef p <> None ->
  let opened := onHostOpen c deviceName p in
  let closed := onHostClose opened in
  PeerService.wire (core opened) = PeerService.wire (core p) ++ [(c, msgJoin deviceName)]
  /\ PeerService.wire (PeerService.sendTrigger r timestamp raceId (core opened))
     = PeerService.wire (core opened) ++ [(c, msgTrigger r timestamp raceId)]
  /\ PeerService.sendTrigger r timestamp raceId (core closed) = core closed
  /\ pendingRetries closed = S (pendingRetries p)
  /\ attempts (onRetry hostId deviceName closed) = attempts p ++ [(hostId, deviceName)]
  /\ attempts (onRetry hostId deviceName (onHostOpen c' deviceName closed)) = attempts p
  /\ pendingRetries (onHostError errType p)
     = (if bool_decide (errType = "peer-unavailable"%string)
           || bool_decide (errType = "network"%string)
        then S (pendingRetries p) else pendingRetries p).
Proof.
  intros Hp opened closed. subst opened closed.
  destruct p as [s [k|] icr ic st att pr ds]; [|done]. simpl.
  unfold onHostError. simpl.
  repeat split; try done.
  destruct (_ || _); done.
Qed.

Lemma handshake_and_reconnect_witness :
  peerRef freshClient <> None
  /\ attempts (onRetry "4821" "Start Gate"
                 (onHostClose (onHostOpen (mkConn "4821" 0) "Start Gate" freshClient)))
     = [("4821"%string, "Start Gate"%string)].
Proof.
  assert (Hp : peerRef freshClient <> None) by (intros H; discriminate H).
  split; [exact Hp|].
  apply (handshake_and_reconnect freshClient (mkConn "4821" 0) (mkConn "4821" 1)
           "4821" "Start Gate" "network" START 0 None Hp).
Defined.

End ProviderLife.

(** * The gate view of the provider version *)

Section NextGate.
Import GateViewNext.

(** X18: [handleMotionTrigger] of the provider version is guarded by the
    status (and by the role being defined, which the message effect keeps):
    run on an ARMED gate it moves to TRIGGERED, and a second run changes
    nothing.  A gate without a role (NONE) sends no TRIGGER when it fires, a
    gate with a role sends one to the host connection, carrying its role,
    the gate's clock reading and the race id.  In both cases the trigger is
    written to the database when there is a current race and the insert
    succeeds, under the gate's role, NONE included. *)
Theorem next_trigger_guarded (g : t) (now now' : Z) (dbOk dbOk' : bool)
    (myId : string) :
  let g1 := handleMotionTrigger now dbOk myId g in
  handleMotionTrigger now' dbOk' myId g1 = g1
  /\ (status g <> GateView.ARMED \/ role g = undefined -> g1 = g)
  /\ (role g <> undefined -> role (onLatestMessage g) <> undefined)
  /\ (status g = GateView.ARMED -> role g <> undefined ->
      status g1 = GateView.TRIGGERED
      /\ isWritingToDb g1 = false
      /\ PeerService.wire (peerService g1)
         = PeerService.wire (peerService g)
           ++ match PeerService.hostConnectionRef (peerService g) with
              | Some c =>
                  if bool_decide (role g = NONE) then []
                  else [(c, msgTrigger (role g) now (currentRace g))]
              | None => []
              end
      /\ dbTriggers g1
         = dbTriggers g
           ++ match currentRace g with
              | Some _ => if dbOk then [(role g, myId, now)] else []
              | None => []
              end).
Proof.
  intros g1. subst g1. split; [|split; [|split]].
  - destruct g as [st ro wr ms [hc pr ps lm te wi] cr db cv vb].
    unfold handleMotionTrigger, recordTrigger, vibrate, PeerService.sendTrigger.
    destruct st; simpl; try done.
    destruct ro; destruct cv; destruct hc; destruct cr; destruct dbOk; done.
  - destruct g as [st ro wr ms [hc pr ps lm te wi] cr db cv vb].
    unfold handleMotionTrigger. simpl.
    intros [H| ->]; [by destruct st|]. by rewrite orb_true_r.
  - intros Hr. unfold onLatestMessage.
    repeat case_match; simpl; try done.
    match goal with H : truthyRole ?r = true |- _ => by destruct r end.
  - destruct g as [st ro wr ms [hc pr ps lm te wi] cr db cv vb]. simpl.
    intros -> Hr.
    unfold handleMotionTrigger, recordTrigger, vibrate, PeerService.sendTrigger.
    destruct ro; try done; destruct cv; destruct hc; destruct cr; destruct dbOk; simpl;
      rewrite ?app_nil_r; done.
Qed.

Lemma next_trigger_guarded_witness :
  status unassignedArmed = GateView.ARMED
  /\ role unassignedArmed <> undefined
  /\ status (handleMotionTrigger 50 true "7001" unassignedArmed) = GateView.TRIGGERED
  /\ PeerService.wire (peerService (handleMotionTrigger 50 true "7001" unassignedArmed))
     = []
  /\ dbTriggers (handleMotionTrigger 50 true "7001" unassignedArmed)
     = [(NONE, "7001"%string, 50)]
  /\ PeerService.wire
       (peerService (handleMotionTrigger 50 true "7001" (setRole FINISH unassignedArmed)))
     = [(mkConn "4821" 0, msgTrigger FINISH 50 (Some "race-1"%string))].
Proof.
  assert (Hr : role unassignedArmed <> undefined) by discriminate.
  assert (Hr' : role (setRole FINISH unassignedArmed) <> undefined) by discriminate.
  destruct (next_trigger_guarded unassignedArmed 50 60 true true "7001")
    as (_ & _ & _ & H).
  destruct (H eq_refl Hr) as (H1 & _ & H2 & H4).
  destruct (next_trigger_guarded (setRole FINISH unassignedArmed) 50 60 true true "7001")
    as (_ & _ & _ & H').
  destruct (H' eq_refl Hr') as (_ & _ & H3 & _).
  split; [reflexivity|]. split; [exact Hr|]. split; [exact H1|]. split; [exact H2|].
  split; [exact H4|exact H3].
Defined.

End NextGate.

(** * The keypad and the throttle *)

Section Keypad.
Import Home.

Lemma pretty_digit_length (d : Z) : 0 <= d <= 9 -> String.length (pretty d) = 1%nat.
Proof.
  intros Hd.
  assert (Hall : forallb (fun k => (String.length (pretty k) =? 1)%nat) (seqZ 0 10) = true)
    by (vm_compute; reflexivity).
  rewrite forallb_forall in Hall.
  apply Nat.eqb_eq. apply Hall. apply list_elem_of_In. apply elem_of_seqZ. lia.
Qed.

Lemma dropLast_length (s : string) : String.length (dropLast s) = pred (String.length s).
Proof.
  induction s as [|c s IH]; [done|]. destruct s as [|c' s]; [done|].
  change (dropLast (String c (String c' s))) with (String c (dropLast (String c' s))).
  cbn [String.length]. rewrite IH. done.
Qed.

Lemma press_length (k : Key) (joinId : string) :
  keypadKey k -> (String.length joinId <= 4)%nat ->
  (String.length (press k joinId) <= 4)%nat.
Proof.
  intros Hk Hl. destruct k as [d|]; simpl.
  - unfold appendDigit. destruct (String.length joinId <? 4)%nat eqn:E; [|done].
    apply Nat.ltb_lt in E. rewrite string_length_app, pretty_digit_length by done. lia.
  - unfold removeDigit. rewrite dropLast_length. lia.
Qed.

(** X19: whatever is typed on the keypad (digits 0 to 9 and backspace),
    the session code never grows beyond four characters; a fifth digit is
    ignored, backspace on the empty code leaves it empty, and [joinSession]
    goes on to connect exactly when the code has four characters. *)
Theorem keypad_code_at_most_four (keys : list Key) (joinId : string) :
  Forall keypadKey keys -> (String.length joinId <= 4)%nat ->
  (String.length (type keys joinId) <= 4)%nat
  /\ (joinSession (type keys joinId) = Some (type keys joinId)
      <-> String.length (type keys joinId) = 4%nat)
  /\ (forall d, String.length (type keys joinId) = 4%nat ->
                press (Digit d) (type keys joinId) = type keys joinId)
  /\ press Backspace EmptyString = EmptyString.
Proof.
  intros Hk Hl.
  assert (Hlen : (String.length (type keys joinId) <= 4)%nat).
  { revert joinId Hl. induction Hk as [|k keys Hk1 Hk IH]; intros joinId Hl; [done|].
    simpl. apply IH. by apply press_length. }
  split; [done|]. split; [|split; [|done]].
  - unfold joinSession. set (s := type keys joinId). split.
    + destruct (bool_decide (s = EmptyString)); [done|]. simpl.
      destruct (String.length s =? 4)%nat eqn:E; [|done]. intros _. by apply Nat.eqb_eq.
    + intros E. rewrite bool_decide_eq_false_2.
      * simpl. apply Nat.eqb_eq in E. by rewrite E.
      * intros H0. rewrite H0 in E. discriminate E.
  - intros d E. simpl. unfold appendDigit. by rewrite E.
Qed.

Lemma keypad_code_at_most_four_witness :
  let keys := [Digit 4; Digit 8; Digit 3; Backspace; Digit 2; Digit 1; Digit 7; Digit 9] in
  Forall keypadKey keys
  /\ type keys EmptyString = "4821"%string
  /\ (String.length (type keys EmptyString) <= 4)%nat.
Proof.
  intros keys.
  assert (Hk : Forall keypadKey keys) by (repeat constructor; simpl; lia).
  split; [exact Hk|]. split; [vm_compute; reflexivity|].
  apply (keypad_code_at_most_four keys EmptyString Hk). simpl. lia.
Defined.

End Keypad.

Section Throttling.
Import Throttle.

Lemma fired_spaced (delay : Z) (calls : list Z) (lastCall : Z) :
  spaced delay (fired delay calls lastCall)
  /\ (forall a, fired delay calls lastCall !! 0%nat = Some a -> delay <= a - lastCall).
Proof.
  revert lastCall. induction calls as [|now calls IH]; intros lastCall; simpl.
  - split; [intros i a b H; done|intros a H; done].
  - unfold call. destruct (delay <=? now - lastCall) eqn:E.
    + apply Z.leb_le in E. destruct (IH now) as [IH1 IH2]. split.
      * intros i a b Ha Hb. destruct i as [|i]; simpl in *.
        -- injection Ha as <-. by apply IH2.
        -- by apply (IH1 i).
      * intros a Ha. simpl in Ha. by injection Ha as <-.
    + apply IH.
Qed.

Lemma fired_called (delay : Z) (calls : list Z) (lastCall a : Z) :
  a ∈ fired delay calls lastCall -> a ∈ calls.
Proof.
  revert lastCall. induction calls as [|now calls IH]; intros lastCall; simpl; [done|].
  unfold call. destruct (delay <=? now - lastCall).
  - intros Ha. apply elem_of_cons in Ha as [->|Ha]; apply elem_of_cons;
      [by left|right; by eapply IH].
  - intros Ha. apply elem_of_cons. right. by eapply IH.
Qed.

(** X20: however the calls of a throttled function are timed, two
    consecutive executions of the wrapped function are at least [delay]
    apart by the clock, the first one comes at a clock reading of at least
    [delay], and it is executed only at readings at which it was called. *)
Theorem throttle_spacing (delay : Z) (calls : list Z) :
  spaced delay (throttle delay calls)
  /\ (forall a, throttle delay calls !! 0%nat = Some a -> delay <= a)
  /\ (forall a, a ∈ throttle delay calls -> a ∈ calls).
Proof.
  unfold throttle. destruct (fired_spaced delay calls 0) as [H1 H2].
  split; [done|]. split.
  - intros a Ha. specialize (H2 a Ha). lia.
  - intros a. apply fired_called.
Qed.

Example throttle_100 :
  throttle 100 [1000; 1050; 1100; 1199; 1200; 1201; 1300] = [1000; 1100; 1200; 1300].
Proof. reflexivity. Qed.

End Throttling.

Section Debouncing.
Import Debounce.
Context {Args : Type} (delay : Z).

Lemma run_snoc (evs : list (Event Args)) (e : Event Args) (d : t Args) :
  run delay (evs ++ [e]) d = step delay e (run delay evs d).
Proof. unfold run. by rewrite fold_left_app. Qed.

Lemma lastCall_snoc (evs : list (Event Args)) (e : Event Args) :
  lastCall (evs ++ [e])
  = match e with
    | Call now args => Some (now, args)
    | Timeout _ _ => lastCall evs
    end.
Proof. unfold lastCall. by rewrite fold_left_app. Qed.

Lemma size_insert_le {A : Type} (m : gmap positive A) (i : positive) (x : A) :
  (size (<[i := x]> m) <= S (size m))%nat.
Proof. rewrite map_size_insert. destruct (m !! i); simpl; lia. Qed.

Lemma size_delete_le {A : Type} (m : gmap positive A) (i : positive) :
  (size (delete i m) <= size m)%nat.
Proof. rewrite map_size_delete. destruct (m !! i); simpl; lia. Qed.

Lemma size_delete_lookup {A : Type} (m : gmap positive A) (i : positive) (x : A) :
  m !! i = Some x -> S (size (delete i m)) = size m.
Proof.
  intros H. rewrite map_size_delete, H. destruct (size m) eqn:E; [|done].
  apply map_size_empty_iff in E. subst m. by rewrite lookup_empty in H.
Qed.

(** Every live timeout is the one [timeoutId] names and belongs to the last
    call; runs and live timeouts together are at most the calls. *)
Lemma debounce_inv (evs : list (Event Args)) :
  let d := run delay evs init in
  (forall id due args,
     timeouts d !! id = Some (due, args) ->
     timeoutId d = Some id
     /\ exists t, lastCall evs = Some (t, args) /\ due = t + delay)
  /\ (length (ran d) + size (timeouts d) <= length (filter (fun e => isCall e = true) evs))%nat.
Proof.
  induction evs as [|e evs IH] using rev_ind.
  - simpl. split; [intros id due args H; by rewrite lookup_empty in H|].
    rewrite map_size_empty. simpl. lia.
  - cbv zeta in *. rewrite run_snoc, filter_app, length_app.
    destruct IH as [I1 I2]. set (d := run delay evs init) in *.
    destruct e as [now args|now id]; cbn [step].
    + split.
      * intros id due a H. rewrite lastCall_snoc. unfold call in *. cbn in H |- *.
        destruct (decide (id = nextTimeout d)) as [->|Hne].
        -- rewrite lookup_insert_eq in H. injection H as <- <-.
           split; [done|]. by exists now.
        -- rewrite lookup_insert_ne in H by done. exfalso.
           destruct (timeoutId d) as [old|] eqn:Hold.
           ++ destruct (decide (id = old)) as [->|Hne'].
              ** by rewrite lookup_delete_eq in H.
              ** rewrite lookup_delete_ne in H by done.
                 destruct (I1 _ _ _ H) as [Hid _]. congruence.
           ++ destruct (I1 _ _ _ H) as [Hid _]. congruence.
      * unfold call. cbn [ran timeouts]. rewrite filter_cons, decide_True by done.
        cbn [length filter]. rewrite filter_nil. cbn [length].
        assert (Hs : (size (<[nextTimeout d := ((now + delay)%Z, args)]>
                              match timeoutId d with
                              | Some id => delete id (timeouts d)
                              | None => timeouts d
                              end) <= S (size (timeouts d)))%nat).
        { etrans; [apply size_insert_le|].
          destruct (timeoutId d) as [old|]; [|lia].
          pose proof (size_delete_le (timeouts d) old). lia. }
        lia.
    + rewrite filter_cons, decide_False by done. rewrite filter_nil. cbn [length].
      unfold fire. destruct (timeouts d !! id) as [[due a]|] eqn:Hid;
        [destruct (due <=? now)|]; cbn [ran timeouts timeoutId].
      * split.
        -- intros id' due' a' H. rewrite lastCall_snoc.
           destruct (decide (id' = id)) as [->|Hne].
           ++ by rewrite lookup_delete_eq in H.
           ++ rewrite lookup_delete_ne in H by done. by apply I1.
        -- rewrite length_app. cbn [length].
           pose proof (size_delete_lookup (timeouts d) id (due, a) Hid). lia.
      * split; [|lia]. intros id' due' a' H. rewrite lastCall_snoc. by apply I1.
      * split; [|lia]. intros id' due' a' H. rewrite lastCall_snoc. by apply I1.
Qed.

(** X21: a debounced function runs [fn] only from a timeout, with the
    arguments of the latest call and not before [delay] has passed since
    that call; once it has run, no timeout runs it again until the next
    call; and over any sequence of calls and timeouts [fn] has run at most
    as often as the function was called. *)
Theorem debounce_runs_latest_call (evs : list (Event Args)) (now : Z) (id : positive) :
  let d := run delay evs init in
  let d' := fire now id d in
  (length (ran d) <= length (filter (fun e => isCall e = true) evs))%nat
  /\ (d' = d
      \/ exists t args,
           lastCall evs = Some (t, args)
           /\ t + delay <= now
           /\ ran d' = ran d ++ [(now, args)]
           /\ forall now' id', fire now' id' d' = d').
Proof.
  intros d d'. destruct (debounce_inv evs) as [I1 I2]. fold d in I1, I2.
  split; [lia|].
  subst d'. unfold fire. destruct (timeouts d !! id) as [[due a]|] eqn:Hid; [|by left].
  destruct (due <=? now) eqn:Hdue; [|by left]. right.
  destruct (I1 _ _ _ Hid) as [Ht (t & Hl & ->)]. exists t, a.
  apply Z.leb_le in Hdue. repeat split; try done.
  intros now' id'. cbn [timeouts].
  destruct (delete id (timeouts d) !! id') as [[due' a']|] eqn:Hid'; [|done].
  exfalso. destruct (decide (id' = id)) as [->|Hne].
  - by rewrite lookup_delete_eq in Hid'.
  - rewrite lookup_delete_ne in Hid' by done.
    destruct (I1 _ _ _ Hid') as [Ht' _]. congruence.
Qed.

End Debouncing.

(** Three calls in quick succession and one later: [fn] runs for the third
    and for the fourth. *)
Example debounce_burst :
  Debounce.ran
    (Debounce.run 300
       [Debounce.Call 0 "a"%string; Debounce.Call 100 "b"%string;
        Debounce.Call 200 "c"%string; Debounce.Timeout 300 1%positive;
        Debounce.Timeout 400 2%positive; Debounce.Timeout 500 3%positive;
        Debounce.Call 900 "d"%string; Debounce.Timeout 1200 4%positive]
       Debounce.init)
  = [(500, "c"%string); (1200, "d"%string)].
Proof. vm_compute. reflexivity. Qed.

Section Emitting.
Import EventEmitter.
Context {Args : Type} (throws : nat -> Args -> bool).

Lemma filter_ext_in {A : Type} (P Q : A -> Prop) `{!forall x, Decision (P x)}
    `{!forall x, Decision (Q x)} (l : list A) :
  (forall x, x ∈ l -> (P x <-> Q x)) -> filter P l = filter Q l.
Proof.
  induction l as [|a l IH]; intros Hall; [done|].
  rewrite !filter_cons. rewrite IH by (intros x Hx; apply Hall; by right).
  assert (Ha : P a <-> Q a) by (apply Hall; by left).
  destruct (decide (P a)) as [Hp|Hp]; destruct (decide (Q a)) as [Hq|Hq]; try done;
    exfalso; tauto.
Qed.

Lemma filter_all {A : Type} (P : A -> Prop) `{!forall x, Decision (P x)} (l : list A) :
  (forall x, x ∈ l -> P x) -> filter P l = l.
Proof.
  induction l as [|a l IH]; intros Hall; [done|].
  rewrite filter_cons, decide_True by (apply Hall; by left).
  rewrite IH; [done|]. intros x Hx. apply Hall. by right.
Qed.

Lemma registered_lookup (event : string) (ls : list Listener) (e : t Args) :
  listeners e !! event = Some ls -> registered event e = ls.
Proof. unfold registered. by intros ->. Qed.

Lemma addListener_eq (event : string) (l : Listener) (e : t Args) :
  addListener event l e
  = mk (<[event := if bool_decide (l ∈ registered event e)
                   then registered event e
                   else registered event e ++ [l]]> (listeners e))
       (created e) (calls e).
Proof.
  unfold addListener, registered.
  destruct (listeners e !! event) as [ls|] eqn:E; cbv zeta.
  - by rewrite E.
  - by rewrite lookup_insert_eq, insert_insert_eq.
Qed.

Lemma registered_addListener (event : string) (l : Listener) (e : t Args) :
  registered event (addListener event l e)
  = if bool_decide (l ∈ registered event e)
    then registered event e
    else registered event e ++ [l].
Proof.
  rewrite addListener_eq. unfold registered at 1. cbn [listeners].
  by rewrite lookup_insert_eq.
Qed.

Lemma emitterInv_registered (event : string) (e : t Args) :
  emitterInv e ->
  NoDup (registered event e)
  /\ forall k ev f, OnceListener k ev f ∈ registered event e ->
                    ev = event /\ (k < created e)%nat.
Proof.
  intros H. unfold registered.
  destruct (listeners e !! event) as [ls|] eqn:E; simpl.
  - by apply H.
  - split; [constructor|]. intros k ev f Hin. by apply elem_of_nil in Hin.
Qed.

Lemma emitterInv_addListener (event : string) (l : Listener) (e : t Args) :
  emitterInv e ->
  (forall k ev f, l = OnceListener k ev f -> ev = event /\ (k < created e)%nat) ->
  emitterInv (addListener event l e).
Proof.
  intros H Hl. rewrite addListener_eq. intros ev ls. cbn [listeners created].
  destruct (emitterInv_registered event e H) as [Hnd Hon].
  destruct (decide (ev = event)) as [->|Hne].
  - rewrite lookup_insert_eq. intros [= <-].
    destruct (bool_decide (l ∈ registered event e)) eqn:Hin; [done|].
    apply bool_decide_eq_false in Hin. split.
    + apply NoDup_app. split; [done|]. split; [|apply NoDup_singleton].
      intros x Hx Hx'. apply list_elem_of_singleton in Hx'. by subst x.
    + intros k ev f Hk. apply elem_of_app in Hk as [Hk|Hk]; [by apply (Hon k ev f)|].
      apply list_elem_of_singleton in Hk. by apply (Hl k ev f).
  - rewrite lookup_insert_ne by done. apply H.
Qed.

Lemma emitterInv_removeListener (event : string) (l : Listener) (e : t Args) :
  emitterInv e -> emitterInv (removeListener event l e).
Proof.
  intros H. unfold removeListener.
  destruct (listeners e !! event) as [cur|] eqn:E; [|done].
  intros ev ls. cbn [listeners created].
  destruct (decide (ev = event)) as [->|Hne].
  - rewrite lookup_insert_eq. intros [= <-]. destruct (H _ _ E) as [Hnd Hon]. split.
    + by apply NoDup_filter.
    + intros k ev f Hk. apply list_elem_of_filter in Hk as [_ Hk]. by apply (Hon k ev f).
  - rewrite lookup_insert_ne by done. apply H.
Qed.

Lemma fold_callListener (args : Args) (event : string) (rest : list Listener) :
  forall (e : t Args) (cur : list Listener),
    listeners e !! event = Some cur ->
    (forall k ev f, OnceListener k ev f ∈ rest -> ev = event) ->
    fold_left (callListener throws args) rest e
    = mk (<[event := filter (fun x => stays throws args x = true \/ x ∉ rest) cur]>
            (listeners e))
         (created e)
         (calls e ++ map (fun l => (fnOf l, args)) rest).
Proof.
  induction rest as [|l rest IH]; intros e cur Hcur Hev.
  - cbn [fold_left map]. rewrite app_nil_r.
    rewrite filter_all by (intros x _; right; apply not_elem_of_nil).
    rewrite insert_id by done. by destruct e.
  - cbn [fold_left map].
    assert (Hev' : forall k ev f, OnceListener k ev f ∈ rest -> ev = event)
      by (intros k ev f Hin; apply (Hev k ev f); by right).
    assert (Hkeep : stays throws args l = true ->
              fold_left (callListener throws args) rest
                (mk (listeners e) (created e) (calls e ++ [(fnOf l, args)]))
              = mk (<[event := filter (fun x => stays throws args x = true
                                                \/ x ∉ l :: rest) cur]>
                      (listeners e))
                   (created e)
                   (calls e ++ (fnOf l, args) :: map (fun l => (fnOf l, args)) rest)).
    { intros Hs.
      rewrite (IH (mk (listeners e) (created e) (calls e ++ [(fnOf l, args)]))
                  cur Hcur Hev').
      cbn [listeners created calls].
      rewrite <- app_assoc. cbn [app]. f_equal. f_equal.
      apply list_filter_iff. intros x. split.
      - intros [Hx|Hx]; [by left|].
        destruct (decide (x = l)) as [->|Hne]; [by left|].
        right. intros Hin. apply elem_of_cons in Hin as [Hin|Hin]; done.
      - intros [Hx|Hx]; [by left|]. right. intros Hin. apply Hx. by right. }
    destruct l as [f|k ev f]; cbn [callListener]; [by apply Hkeep|].
    destruct (throws f args) eqn:Ht; [by apply Hkeep|].
    assert (ev = event) as -> by (apply (Hev k ev f); by left).
    unfold removeListener. cbn [listeners created calls]. rewrite Hcur.
    rewrite (IH _ (filter (fun l => l <> OnceListener k event f) cur))
      by (cbn [listeners]; by rewrite ?lookup_insert_eq).
    cbn [listeners created calls]. rewrite insert_insert_eq, <- app_assoc. cbn [app fnOf].
    f_equal. f_equal. rewrite list_filter_filter.
    apply list_filter_iff. intros x. split.
    + intros [[Hx|Hx] Hne]; [by left|]. right.
      intros Hin. apply elem_of_cons in Hin as [Hin|Hin]; done.
    + intros [Hx|Hx].
      * split; [by left|]. intros ->. simpl in Hx. congruence.
      * split; [right|]; intros Hin; apply Hx; [by right|subst x; by left].
Qed.

Lemma emit_closed (event : string) (args : Args) (e : t Args) (ls : list Listener) :
  emitterInv e ->
  listeners e !! event = Some ls ->
  emit throws event args e
  = mk (<[event := filter (fun x => stays throws args x = true) ls]> (listeners e))
       (created e)
       (calls e ++ map (fun l => (fnOf l, args)) ls).
Proof.
  intros H E. unfold emit. rewrite E.
  rewrite (fold_callListener args event ls e ls E).
  - f_equal. f_equal. apply filter_ext_in. intros x Hx. split; [|by left].
    by intros [Hs|Hs].
  - intros k ev f Hin. by apply (H _ _ E) in Hin as [-> _].
Qed.

Lemma emit_registered (event : string) (args : Args) (e : t Args) :
  emitterInv e ->
  calls (emit throws event args e)
  = calls e ++ map (fun l => (fnOf l, args)) (registered event e)
  /\ registered event (emit throws event args e)
     = filter (fun x => stays throws args x = true) (registered event e)
  /\ (forall ev, ev <> event ->
                 registered ev (emit throws event args e) = registered ev e)
  /\ created (emit throws event args e) = created e.
Proof.
  intros H. destruct (listeners e !! event) as [ls|] eqn:E.
  - rewrite (emit_closed event args e ls H E), (registered_lookup event ls e E).
    cbn [calls created]. split; [done|]. split; [|split; [|done]].
    + unfold registered. cbn [listeners]. by rewrite lookup_insert_eq.
    + intros ev Hne. unfold registered. cbn [listeners]. by rewrite lookup_insert_ne.
  - assert (Hr : registered event e = []) by (unfold registered; by rewrite E).
    unfold emit. rewrite E, Hr. cbn [map]. rewrite app_nil_r, filter_nil. done.
Qed.

Lemma emitterInv_emit (event : string) (args : Args) (e : t Args) :
  emitterInv e -> emitterInv (emit throws event args e).
Proof.
  intros H. destruct (listeners e !! event) as [cur|] eqn:E.
  - rewrite (emit_closed event args e cur H E).
    intros ev ls. cbn [listeners created].
    destruct (decide (ev = event)) as [->|Hne].
    + rewrite lookup_insert_eq. intros [= <-]. destruct (H _ _ E) as [Hnd Hon]. split.
      * by apply NoDup_filter.
      * intros k ev f Hk. apply list_elem_of_filter in Hk as [_ Hk].
        by apply (Hon k ev f).
    + rewrite lookup_insert_ne by done. apply H.
  - unfold emit. by rewrite E.
Qed.

Lemma emitterInv_once (event : string) (f : nat) (e : t Args) :
  emitterInv e -> emitterInv (once event f e).
Proof.
  intros H. unfold once. cbv zeta. apply emitterInv_addListener.
  - intros ev ls Hl. cbn [listeners created] in *.
    destruct (H _ _ Hl) as [Hnd Hon]. split; [done|].
    intros k ev' f' Hk. destruct (Hon _ _ _ Hk) as [-> Hlt]. split; [done|lia].
  - intros k ev f' [= <- <- <-]. cbn [created]. split; [done|lia].
Qed.

Lemma emitterInv_run (ops : list (Op Args)) (e : t Args) :
  emitterInv e -> emitterInv (run throws ops e).
Proof.
  revert e. induction ops as [|o ops IH]; intros e H; [done|].
  cbn [run fold_left]. apply IH. destruct o as [ev f|ev f|ev a|ev f|[ev|]]; cbn [apply].
  - apply emitterInv_addListener; [done|]. intros k ev' f' Hk. discriminate Hk.
  - by apply emitterInv_removeListener.
  - by apply emitterInv_emit.
  - by apply emitterInv_once.
  - unfold removeAllListeners. destruct (bool_decide (ev <> EmptyString)).
    + intros ev' ls. cbn [listeners created]. intros Hl.
      apply lookup_delete_Some in Hl as [_ Hl]. by apply H.
    + intros ev' ls. cbn [listeners]. intros Hl. by rewrite lookup_empty in Hl.
  - intros ev' ls. cbn [removeAllListeners listeners]. intros Hl.
    by rewrite lookup_empty in Hl.
Qed.

Lemma emitterInv_init : emitterInv (@init Args).
Proof. intros ev ls H. unfold init in H. cbn [listeners] in H. by rewrite lookup_empty in H. Qed.

(** X22: on an emitter built through the calls of the class, [emit] calls
    every listener registered for the event exactly once, in the order of
    registration, a listener that throws not keeping the later ones from
    being called; afterwards the same listeners are registered except the
    wrappers of [once] whose function returned, and the listeners of other
    events are untouched. *)
Theorem emit_calls_registered_in_order (ops : list (Op Args)) (event : string)
    (args : Args) :
  let e := run throws ops init in
  NoDup (registered event e)
  /\ calls (emit throws event args e)
     = calls e ++ map (fun l => (fnOf l, args)) (registered event e)
  /\ registered event (emit throws event args e)
     = filter (fun x => stays throws args x = true) (registered event e)
  /\ (forall ev, ev <> event ->
                 registered ev (emit throws event args e) = registered ev e).
Proof.
  intros e.
  assert (H : emitterInv e) by (apply emitterInv_run, emitterInv_init).
  destruct (emit_registered event args e H) as (H1 & H2 & H3 & _).
  split; [by apply emitterInv_registered|]. done.
Qed.

(** X23: [once] always registers a new wrapper after the listeners already
    there, also when the function is registered already.  At the next
    [emit] the function is called last; the wrapper is then gone if the
    function returned and stays registered if it threw.  Removing the
    function with [removeListener] does not cancel the [once], and
    [addListener] with a function already registered changes nothing. *)
Theorem once_registers_wrapper (ops : list (Op Args)) (event : string) (f : nat)
    (args : Args) :
  let e := run throws ops init in
  let e1 := once event f e in
  let w := OnceListener (created e) event f in
  registered event e1 = registered event e ++ [w]
  /\ calls (emit throws event args e1) = calls (emit throws event args e) ++ [(f, args)]
  /\ registered event (emit throws event args e1)
     = registered event (emit throws event args e)
       ++ (if throws f args then [w] else [])
  /\ registered event (removeListener event (Fn f) e1)
     = filter (fun l => l <> Fn f) (registered event e) ++ [w]
  /\ addListener event (Fn f) (addListener event (Fn f) e) = addListener event (Fn f) e.
Proof.
  intros e e1 w.
  assert (H : emitterInv e) by (apply emitterInv_run, emitterInv_init).
  assert (H1 : emitterInv e1) by (by apply emitterInv_once).
  destruct (emitterInv_registered event e H) as [Hnd Hon].
  assert (Hw : w ∉ registered event e).
  { intros Hin. apply Hon in Hin as [_ Hlt]. lia. }
  assert (Hr : registered event e1 = registered event e ++ [w]).
  { subst e1. unfold once. cbv zeta. rewrite addListener_eq.
    unfold registered at 1. cbn [listeners]. rewrite lookup_insert_eq. cbn [default].
    fold w. change (registered event (mk (listeners e) (S (created e)) (calls e)))
      with (registered event e).
    by rewrite bool_decide_eq_false_2. }
  assert (Hc : calls e1 = calls e) by (subst e1; unfold once; by rewrite addListener_eq).
  destruct (emit_registered event args e H) as (E1 & E2 & _).
  destruct (emit_registered event args e1 H1) as (F1 & F2 & _).
  split; [done|]. split; [|split; [|split]].
  - rewrite F1, E1, Hr, Hc, map_app, app_assoc. done.
  - rewrite F2, E2, Hr, filter_app. f_equal.
    rewrite filter_cons, filter_nil. subst w. cbn [stays].
    destruct (throws f args); [by rewrite decide_True|by rewrite decide_False].
  - unfold removeListener, registered at 1.
    destruct (listeners e1 !! event) as [cur|] eqn:E.
    + cbn [listeners]. rewrite lookup_insert_eq. cbn [default]. unfold id.
      rewrite <- (registered_lookup event cur e1 E), Hr, filter_app. by f_equal.
    + exfalso. unfold registered in Hr. rewrite E in Hr. cbn [default] in Hr.
      by destruct (default [] (listeners e !! event)).
  - pose proof (registered_addListener event (Fn f) e) as Ha.
    rewrite (addListener_eq event (Fn f) (addListener event (Fn f) e)), Ha.
    assert (Hin : Fn f ∈ (if bool_decide (Fn f ∈ registered event e)
                          then registered event e
                          else registered event e ++ [Fn f])).
    { destruct (bool_decide (Fn f ∈ registered event e)) eqn:Hb.
      - by apply bool_decide_eq_true in Hb.
      - apply elem_of_app. right. by apply list_elem_of_singleton. }
    rewrite (bool_decide_eq_true_2 _ Hin).
    rewrite (addListener_eq event (Fn f) e). cbn [listeners created calls].
    by rewrite insert_insert_eq.
Qed.

End Emitting.

(** A function registered twice and once more through [once], a second
    function that throws: two emits. *)
Example emitter_two_emits :
  let throws := fun f (_ : string) => bool_decide (f = 2%nat) in
  EventEmitter.calls
    (EventEmitter.run throws
       [EventEmitter.AddListener "trigger" 1; EventEmitter.AddListener "trigger" 1;
        EventEmitter.Once "trigger" 2; EventEmitter.Once "trigger" 1;
        EventEmitter.RemoveListener "trigger" 1;
        EventEmitter.Emit "trigger" "a"%string; EventEmitter.Emit "trigger" "b"%string]
       EventEmitter.init)
  = [(2%nat, "a"%string); (1%nat, "a"%string); (2%nat, "b"%string)].
Proof. vm_compute. reflexivity. Qed.

Section MessageGuards.
Import Guards.
Context (tag : MessageType -> string) (values : list string)
        (payloadValue : Payload -> JSVal).

Lemma onWire_not_peerMessage (d : PeerData) (messageType : option string) :
  isPeerMessage values (onWire tag payloadValue d) messageType = false.
Proof.
  unfold isPeerMessage, onWire.
  assert (Ht : get "timestamp"
                 (("type"%string, JString (tag (type d)))
                  :: match payload d with
                     | Some pl => [("payload"%string, payloadValue pl)]
                     | None => []
                     end) = JUndefined)
    by (destruct (payload d); reflexivity).
  rewrite Ht. cbn [typeof].
  rewrite (bool_decide_eq_false_2 (TUndefined = TNumber)) by discriminate.
  by rewrite andb_false_r.
Qed.

(** X24: no message that usePeerService.tsx puts on a connection (an
    object with the properties [type] and [payload]) passes the guard
    [isPeerMessage], whatever message type is asked for, since the guard
    requires a numeric [timestamp] and the strings [sessionId] and
    [senderId] on the message itself; so [isJoinMessage],
    [isRoleAssignMessage] and [isTriggerMessage] reject them all. *)
Theorem wire_messages_fail_guards (d : PeerData) (messageType : option string) :
  let obj := onWire tag payloadValue d in
  isPeerMessage values obj messageType = false
  /\ isJoinMessage tag values obj = false
  /\ isRoleAssignMessage tag values obj = false
  /\ isTriggerMessage tag values obj = false.
Proof.
  intros obj. subst obj.
  unfold isJoinMessage, isRoleAssignMessage, isTriggerMessage.
  rewrite !onWire_not_peerMessage. done.
Qed.

End MessageGuards.

(** The guard accepts an object that carries the three properties. *)
Example guard_accepts :
  Guards.isPeerMessage ["JOIN"; "TRIGGER"]%string
    (Guards.JObject
       [("type", Guards.JString "TRIGGER"); ("timestamp", Guards.JNumber 1000);
        ("sessionId", Guards.JString "4821"); ("senderId", Guards.JString "7001")]%string)
    None
  = true.
Proof. vm_compute. reflexivity. Qed.

(** * A gate leaving *)

Section Leaving.
Import PeerService HostView.

Lemma at_most_one_eq {A : Type} (l : list A) (x y : A) :
  (length l <= 1)%nat -> x ∈ l -> y ∈ l -> x = y.
Proof.
  intros Hl Hx Hy. destruct l as [|a [|b l]]; simpl in Hl; [| |lia].
  - by apply elem_of_nil in Hx.
  - apply list_elem_of_singleton in Hx, Hy. congruence.
Qed.

Lemma canStart_no_holder (w : World) :
  holders START (peers (peerService w)) = [] -> canStart w = false.
Proof.
  intros Hh. unfold canStart.
  destruct (existsb _ _) eqn:E; [|done].
  apply existsb_exists in E as (q & Hin & Hq). apply bool_decide_eq_true in Hq.
  assert (Hq' : q ∈ holders START (peers (peerService w))).
  { apply list_elem_of_filter. split; [done|]. by apply list_elem_of_In. }
  rewrite Hh in Hq'. by apply elem_of_nil in Hq'.
Qed.

(** X25: when the gate that holds START disconnects, its entry leaves the
    registry and no peer holds START any more: the race status is not
    changed by it, but the Arm System button is disabled and a click on it
    does nothing.  When a gate with the same peer id connects again it is
    registered anew, unassigned and named Unknown; arming stays disabled
    until the operator assigns START again. *)
Theorem start_gate_leaving_blocks_arming (w : World) (c c' : Conn)
    (p : ConnectedPeer) :
  registryInv w ->
  p ∈ peersRef (peerService w) -> role p = START -> id p = peer c ->
  peer c' = peer c ->
  let w1 := step (ConnClose c) w in
  let w2 := step (ConnOpen c') w1 in
  view w1 = view w
  /\ holders START (peersRef (peerService w1)) = []
  /\ canStart w1 = false
  /\ click "Arm System" w1 = w1
  /\ peersRef (peerService w2)
     = peersRef (peerService w1) ++ [mkPeer (peer c) c' NONE (Some "Unknown"%string)]
  /\ canStart w2 = false
  /\ click "Arm System" w2 = w2.
Proof.
  intros (Hs & Hnd & Hex & _) Hp Hr Hid Hc w1 w2.
  assert (Hh : holders START (peersRef (peerService w1)) = []).
  { subst w1. cbn [step onPeer peerService onClose set_peersRef setPeers peersRef].
    set (l1 := filter (fun p0 => id p0 <> peer c) (peersRef (peerService w))).
    destruct (holders START l1) as [|q l'] eqn:E; [done|]. exfalso.
    assert (Hq : q ∈ q :: l') by (apply elem_of_cons; by left).
    rewrite <- E in Hq. unfold holders in Hq.
    apply list_elem_of_filter in Hq as [Hrq Hq].
    apply list_elem_of_filter in Hq as [Hne Hq].
    assert (p = q); [|congruence].
    apply (at_most_one_eq (holders START (peersRef (peerService w)))); [done| |];
      by apply list_elem_of_filter. }
  assert (Hp1 : peers (peerService w1) = peersRef (peerService w1)) by done.
  assert (Hc1 : canStart w1 = false) by (apply canStart_no_holder; by rewrite Hp1).
  assert (Hr2 : peersRef (peerService w2)
                = peersRef (peerService w1)
                  ++ [mkPeer (peer c) c' NONE (Some "Unknown"%string)]).
  { subst w2. cbn [step onPeer peerService onOpen set_peersRef setPeers peersRef].
    by rewrite Hc. }
  assert (Hc2 : canStart w2 = false).
  { apply canStart_no_holder.
    assert (peers (peerService w2) = peersRef (peerService w2)) as -> by done.
    rewrite Hr2. unfold holders in *. rewrite filter_app, Hh. done. }
  repeat split; try done; by apply click_arm_disabled.
Qed.

Lemma start_gate_leaving_blocks_arming_witness :
  let w := run [Click "Set Start"] lobbyWorld in
  let w2 := run [ConnClose gateA; ConnOpen (mkConn "1111" 5)] w in
  canStart w = true
  /\ canStart w2 = false
  /\ click "Arm System" w2 = w2.
Proof.
  intros w w2.
  assert (Hinv : registryInv w).
  { split; [reflexivity|]. split; [compute_done|]. split; simpl; lia. }
  assert (Hp : mkPeer "1111" gateA START (Some "Unknown"%string)
               ∈ peersRef (peerService w)) by (apply elem_of_cons; by left).
  pose proof (start_gate_leaving_blocks_arming w gateA (mkConn "1111" 5) _
                Hinv Hp eq_refl eq_refl eq_refl) as (_ & _ & _ & _ & _ & H1 & H2).
  split; [reflexivity|]. split; [exact H1|exact H2].
Defined.

End Leaving.

(** * The handshake at the host *)

Section Joining.
Import PeerService HostView.

Lemma lookup_map {A B : Type} (f : A -> B) (l : list A) (i : nat) :
  map f l !! i = f <$> l !! i.
Proof.
  revert i. induction l as [|a l IH]; intros [|i]; simpl; done.
Qed.

(** X26: a JOIN arriving at the host changes nothing but names: the race
    view, the latest message, the buffer of trigger events and the sent
    messages stay as they are, whatever else the payload carries, and so
    do the ids, connections and roles of the registry.  The entries with
    the sender's id take the name of the message when it carries one that
    is not empty, and keep their name otherwise; the other entries keep
    theirs. *)
Theorem join_sets_name_only (c : Conn) (d : PeerData) (w : World) :
  type d = JOIN ->
  let w' := step (ConnData c d) w in
  let l := peersRef (peerService w) in
  let l' := peersRef (peerService w') in
  view w' = view w
  /\ wire (peerService w') = wire (peerService w)
  /\ latestMessage (peerService w') = latestMessage (peerService w)
  /\ triggerEvents (peerService w') = triggerEvents (peerService w)
  /\ peers (peerService w') = l'
  /\ map id l' = map id l
  /\ map conn l' = map conn l
  /\ map role l' = map role l
  /\ forall i p p',
       l !! i = Some p -> l' !! i = Some p' ->
       name p' = if decide (id p = peer c)
                 then match joinName d with
                      | Some n => Some n
                      | None => name p
                      end
                 else name p.
Proof.
  intros Hty w' l l'. subst w' l l'.
  cbn [step]. rewrite Hty. unfold onData. rewrite Hty.
  cbn [onPeer peerService view set_peersRef setPeers peersRef peers wire
       latestMessage triggerEvents].
  repeat split; try done.
  - rewrite map_map. apply map_ext. intros p. by repeat case_match.
  - rewrite map_map. apply map_ext. intros p. by repeat case_match.
  - rewrite map_map. apply map_ext. intros p. by repeat case_match.
  - intros i p p' Hp Hp'.
    rewrite lookup_map, Hp in Hp'. injection Hp' as <-.
    unfold joinName. by repeat case_match.
Qed.

Lemma join_sets_name_only_witness :
  let w' := step (ConnData gateB (msgJoin "Finish Gate")) lobbyWorld in
  type (msgJoin "Finish Gate") = JOIN
  /\ map name (peersRef (peerService w'))
     = [Some "Unknown"%string; Some "Finish Gate"%string]
  /\ map role (peersRef (peerService w')) = map role (peersRef (peerService lobbyWorld)).
Proof.
  intros w'.
  pose proof (join_sets_name_only gateB (msgJoin "Finish Gate") lobbyWorld eq_refl)
    as (_ & _ & _ & _ & _ & _ & _ & H & _).
  split; [reflexivity|]. split; [reflexivity|exact H].
Defined.

End Joining.
